(** * NBA player statistics analysis: a model of [Analysis.py]

    The program is a linear batch pipeline over pandas tables:
    load, preview, clean, rank the top scorers, aggregate by team,
    draw a chart, print a report.  This file embeds the tables, the
    pandas operations the script calls, and the functions of the script,
    and proves properties of them.

    Conventions of the model.
    - A number is the value of a float64 or of an int64: a rational, one of
      the two infinities, or NaN.  Comparisons of numbers are exact.
      Arithmetic that rounds or wraps around (the quotient of two numbers,
      the sum and the mean of a column or of a group) is the library's: the
      model says which values go into it, in which order, and leaves the
      result to the interface [Library].
    - A cell is a piece of text, a number, or the negative zero of float64;
      pandas' missing value is the number NaN.  The negative zero compares
      and hashes as zero and is told from it by division alone.
    - A table is a list of column names and a list of rows; a row carries
      its index label and a finite map from column names to cells.
    - The tables the functions pass to one another live in a heap, and
      the functions run in a monad of the heap, the console and the files
      written, with Python's exceptions as errors.
    - What the script leaves to the libraries (how text is parsed as a
      number, which permutation the default sort kind produces among equal
      keys, how quotients, sums and means are rounded) is an interface,
      [Library], with the documented contract. *)

From Stdlib Require Import QArith Qcanon Ascii.
From stdpp Require Import base numbers list strings gmap sorting.

Local Open Scope Z_scope.
Local Open Scope Qc_scope.
Local Open Scope string_scope.
Local Open Scope list_scope.
Local Open Scope nat_scope.

(** ** Numbers *)

Inductive num :=
  | Fin (q : Qc)
  | PInf
  | NInf
  | NaN.

Global Instance num_eq_dec : EqDecision num.
Proof. solve_decision. Defined.

Definition Qc_of_nat (n : nat) : Qc := Qc_of_Z (Z.of_nat n).

(** The comparison [<] of float64: false as soon as one side is NaN. *)
Definition num_lt (a b : num) : bool :=
  match a, b with
  | NaN, _ | _, NaN => false
  | _, NInf => false
  | NInf, _ => true
  | PInf, _ => false
  | _, PInf => true
  | Fin x, Fin y => bool_decide (x < y)%Qc
  end.

(** A total preorder that extends [<=] on the numbers that are not NaN and
    puts NaN below them (sorting never compares a NaN: it is masked
    first). *)
Definition num_le (a b : num) : bool :=
  match a, b with
  | NaN, _ => true
  | _, NaN => false
  | NInf, _ => true
  | _, NInf => false
  | _, PInf => true
  | PInf, _ => false
  | Fin x, Fin y => bool_decide (x ≤ y)%Qc
  end.

Definition is_finite (a : num) : bool :=
  match a with Fin _ => true | _ => false end.

(** ** Cells

    [Num (Fin 0)] is the zero of int64 and the positive zero of float64,
    [MinusZero] the negative zero of float64, which a file or a
    conversion from text may hold. *)

Inductive cell :=
  | Text (s : string)
  | Num (x : num)
  | MinusZero.

Global Instance cell_eq_dec : EqDecision cell.
Proof. solve_decision. Defined.

Definition cell_code (c : cell) : string + (Qc + nat) :=
  match c with
  | Text s => inl s
  | Num (Fin q) => inr (inl q)
  | Num PInf => inr (inr 0)
  | Num NInf => inr (inr 1)
  | Num NaN => inr (inr 2)
  | MinusZero => inr (inr 3)
  end.

Definition cell_decode (x : string + (Qc + nat)) : cell :=
  match x with
  | inl s => Text s
  | inr (inl q) => Num (Fin q)
  | inr (inr 0) => Num PInf
  | inr (inr 1) => Num NInf
  | inr (inr 2) => Num NaN
  | inr (inr _) => MinusZero
  end.

Global Instance cell_countable : Countable cell.
Proof.
  apply (inj_countable' cell_code cell_decode).
  intros [s|[q| | |]|]; reflexivity.
Defined.

(** [pd.isna] *)
Definition isna (c : cell) : bool :=
  match c with Num NaN => true | _ => false end.

Definition is_text (c : cell) : bool :=
  match c with Text _ => true | _ => false end.

(** The numeric content of a cell; text has none. *)
Definition cell_num (c : cell) : num :=
  match c with Num x => x | MinusZero => Fin 0 | Text _ => NaN end.

(** The sign bit of a number. *)
Definition negative (c : cell) : bool :=
  match c with
  | MinusZero | Num NInf => true
  | Num (Fin q) => bool_decide (q < 0)%Qc
  | _ => false
  end.

(** The key a hash table files a cell under: the two zeros are one key. *)
Definition key_of (c : cell) : cell :=
  match c with MinusZero => Num (Fin 0) | _ => c end.

(** The order in which sorting arranges keys: numbers by value, text by
    code point, and (as pandas' sorting of mixed group keys does) every
    number before every text. *)
Definition cell_le (a b : cell) : bool :=
  match a, b with
  | Text s, Text t => String.leb s t
  | Text _, _ => false
  | _, Text _ => true
  | _, _ => num_le (cell_num a) (cell_num b)
  end.

(** ** Tables *)

Record Row := mkRow {
  label : nat;
  cells : gmap string cell
}.

Global Instance Row_eq_dec : EqDecision Row.
Proof. solve_decision. Defined.

Record DataFrame := mkDF {
  columns : list string;
  rows : list Row
}.

Global Instance DataFrame_eq_dec : EqDecision DataFrame.
Proof. solve_decision. Defined.

(** The cell of a row in a column; a cell that is not stored reads as
    missing. *)
Definition getcell (c : string) (r : Row) : cell :=
  default (Num NaN) (cells r !! c).

Definition setcell (c : string) (v : cell) (r : Row) : Row :=
  mkRow (label r) (<[c := v]> (cells r)).

(** [data[c]] as the list of the column's values. *)
Definition column (c : string) (df : DataFrame) : list cell :=
  getcell c <$> rows df.

Definition has_column (c : string) (df : DataFrame) : bool :=
  bool_decide (c ∈ columns df).

Definition missing_columns (cs : list string) (df : DataFrame) : list string :=
  filter (λ c, c ∉ columns df) cs.

(** ** Errors *)

Inductive error :=
  | KeyError (names : list string)
  | TypeError
  | ValueError
  | IndexError.

Inductive result (A : Type) :=
  | Ok (a : A)
  | Err (e : error).
Arguments Ok {A} a.
Arguments Err {A} e.

Definition rbind {A B} (m : result A) (k : A → result B) : result B :=
  match m with Ok a => k a | Err e => Err e end.

Notation "'try' x := m 'in' k" := (rbind m (λ x, k))
  (at level 10, x name, m at level 100, k at level 200).

Definition require_columns (cs : list string) (df : DataFrame) : result unit :=
  match missing_columns cs df with
  | [] => Ok tt
  | miss => Err (KeyError miss)
  end.

(** ** The library interface

    [parse_float] is the text-to-number conversion behind
    [pd.to_numeric(..., errors='coerce')]: text that is not a number
    converts to NaN; [minus_zero] tells the texts that convert to the
    negative zero.  [quicksort] is the sort that [sort_values] runs when
    no [kind] is given, [kind='quicksort']: it arranges keyed items in
    ascending key order.  pandas documents that, of its kinds, only
    [mergesort] and [stable] keep items with equal keys in their original
    order; of the default kind nothing more than the order by key is
    known.

    [quotient] is the float64 division of two finite numbers that are not
    zero, the operands converted to float64 first; the result is rounded
    and may be a zero or an infinity.  [average] is [Series.mean] and
    [group_mean], [group_sum] are the mean and the sum of [groupby], each
    on the values that are not missing, in row order.  Their results are
    rounded, and a sum of int64 values wraps around; what is known of
    them is that the mean of no value is NaN and that a mean over an
    infinity is not a finite number. *)

Definition key_le {A} (a b : cell * A) : Prop := cell_le a.1 b.1.

Class Library := {
  parse_float : string → num;
  minus_zero : string → bool;
  quicksort : ∀ {A : Type}, list (cell * A) → list (cell * A);
  quicksort_perm : ∀ A (l : list (cell * A)), quicksort l ≡ₚ l;
  quicksort_sorted : ∀ A (l : list (cell * A)), Sorted key_le (quicksort l);
  quotient : Qc → Qc → num;
  average : list num → num;
  group_mean : list num → num;
  group_sum : list num → num;
  average_nil : average [] = NaN;
  group_mean_infinite : ∀ xs x,
    x ∈ xs → is_finite x = false → is_finite (group_mean xs) = false
}.

(** A sort kind is stable when items with the same key come out in the
    order they went in. *)
Definition stable `{Library} : Prop :=
  ∀ A (l : list (cell * A)) (k : cell),
    filter (λ a, a.1 = k) (quicksort l) = filter (λ a, a.1 = k) l.

(** ** pandas operations *)

Section pandas.
Context `{Library}.

(** [df.dropna(subset=cs)]: a new table without the rows that miss a value
    in one of the columns [cs]; the columns must exist. *)
Definition complete_on (cs : list string) (r : Row) : Prop :=
  Forall (λ c, isna (getcell c r) = false) cs.

Global Instance complete_on_dec cs r : Decision (complete_on cs r).
Proof. unfold complete_on. apply _. Defined.

Definition dropna (subset : list string) (df : DataFrame) : result DataFrame :=
  try _ := require_columns subset df in
  Ok (mkDF (columns df) (filter (complete_on subset) (rows df))).

(** [pd.to_numeric(s, errors='coerce')], cell by cell. *)
Definition to_numeric_cell (c : cell) : cell :=
  match c with
  | Text s => if minus_zero s then MinusZero else Num (parse_float s)
  | _ => c
  end.

Definition to_numeric (s : list cell) : list cell := to_numeric_cell <$> s.

(** [df[c]] *)
Definition getitem (c : string) (df : DataFrame) : result (list cell) :=
  if has_column c df then Ok (column c df) else Err (KeyError [c]).

(** [df[c] = s] for a series [s] taken from [df] itself (same index, so the
    values are stored row by row); a new name becomes the last column. *)
Definition setitem (c : string) (s : list cell) (df : DataFrame) : DataFrame :=
  mkDF (if has_column c df then columns df else columns df ++ [c])
       (zip_with (λ r v, setcell c v r) (rows df) s).

(** [df[cs].copy()] *)
Definition restrict (cs : list string) (r : Row) : Row :=
  mkRow (label r) (list_to_map ((λ c, (c, getcell c r)) <$> cs)).

Definition select (cs : list string) (df : DataFrame) : result DataFrame :=
  try _ := require_columns cs df in
  Ok (mkDF cs (restrict cs <$> rows df)).

(** float64 true division.  A zero divisor gives an infinity, or NaN when
    the dividend is a zero as well, and never raises; the sign of an
    infinity is the product of the signs of the operands, the sign of a
    zero included.  The sign of a zero result is not recorded. *)
Definition infinity (minus : bool) : num := if minus then NInf else PInf.

Definition cell_div (x y : cell) : num :=
  let minus := xorb (negative x) (negative y) in
  match cell_num x, cell_num y with
  | NaN, _ | _, NaN => NaN
  | (PInf | NInf), (PInf | NInf) => NaN
  | (PInf | NInf), Fin _ => infinity minus
  | Fin _, (PInf | NInf) => Fin 0
  | Fin p, Fin q =>
      if decide (q = 0%Qc) then
        if decide (p = 0%Qc) then NaN else infinity minus
      else if decide (p = 0%Qc) then Fin 0
      else quotient p q
  end.

(** [a / b] on two columns: element-wise float division; text cannot be
    divided. *)
Definition series_div (a b : list cell) : result (list cell) :=
  if bool_decide (Exists (λ c, is_text c) (a ++ b)) then Err TypeError
  else Ok (zip_with (λ x y, Num (cell_div x y)) a b).

(** [df.sort_values(by=c, ascending=False)].  As [nargsort] does: the
    missing keys are set aside and come last in their original order; the
    others are reversed, sorted ascending by the default kind, and reversed
    again.  Keys that mix text and numbers cannot be compared. *)
Definition keyed (c : string) (l : list Row) : list (cell * Row) :=
  (λ r, (getcell c r, r)) <$> l.

Definition comparable (ks : list cell) : Prop :=
  Forall (λ k, is_text k) ks ∨ Forall (λ k, is_text k = false) ks.

Global Instance comparable_dec ks : Decision (comparable ks).
Proof. unfold comparable. apply _. Defined.

Definition nargsort_desc (items : list (cell * Row)) : result (list Row) :=
  let non_nans := filter (λ a, isna a.1 = false) items in
  let nans := filter (λ a, isna a.1 = true) items in
  if decide (comparable (non_nans.*1)) then
    Ok ((reverse (quicksort (reverse non_nans))).*2 ++ nans.*2)
  else Err TypeError.

Definition sort_values (by_ : string) (df : DataFrame) : result DataFrame :=
  try _ := require_columns [by_] df in
  try sorted := nargsort_desc (keyed by_ (rows df)) in
  Ok (mkDF (columns df) sorted).

(** [df.head(n)]: the first [n] rows, or all but the last [-n] rows when
    [n] is negative. *)
Definition head (n : Z) (df : DataFrame) : DataFrame :=
  mkDF (columns df)
       (if decide (0 ≤ n)%Z then take (Z.to_nat n) (rows df)
        else take (length (rows df) - Z.to_nat (- n)) (rows df)).

(** [df.insert(0, c, range(1, len(df) + 1))] *)
Definition rank_cell (i : nat) : cell := Num (Fin (Qc_of_nat (S i))).

Definition insert_rank (c : string) (df : DataFrame) : result DataFrame :=
  if has_column c df then Err ValueError
  else Ok (mkDF (c :: columns df) (imap (λ i r, setcell c (rank_cell i) r) (rows df))).

(** Reductions of a numeric column, skipping missing values. *)
Definition observed (s : list cell) : list num :=
  filter (λ x, x ≠ NaN) (cell_num <$> s).

Definition num_max (a b : num) : num := if num_lt a b then b else a.
Definition num_min (a b : num) : num := if num_lt b a then b else a.

Definition extreme (f : num → num → num) (xs : list num) : num :=
  match xs with
  | [] => NaN
  | x :: xs => foldl f x xs
  end.

Definition numeric (s : list cell) : result (list num) :=
  if bool_decide (Exists (λ c, is_text c) s) then Err TypeError
  else Ok (observed s).

Definition series_mean (s : list cell) : result num :=
  try xs := numeric s in Ok (average xs).
Definition series_max (s : list cell) : result num :=
  try xs := numeric s in Ok (extreme num_max xs).
Definition series_min (s : list cell) : result num :=
  try xs := numeric s in Ok (extreme num_min xs).

(** [df.iloc[i]] for [i = 0] and [i = -1] *)
Definition iloc_first (df : DataFrame) : result Row :=
  match rows df with
  | [] => Err IndexError
  | r :: _ => Ok r
  end.

Definition iloc_last (df : DataFrame) : result Row :=
  match last (rows df) with
  | None => Err IndexError
  | Some r => Ok r
  end.

(** [df.groupby(by).agg(spec).reset_index()].  The rows are grouped by
    the key of their [by] cell; rows whose key is missing belong to no
    group.  The label of a group is the first of its keys as they occur,
    and the groups come in the sorted order of their labels.  An aggregate
    of a group is taken over the values of its rows that are not
    missing, in row order. *)
Inductive aggfunc := AggMean | AggCount | AggSum.

Fixpoint uniques (s : list cell) : list cell :=
  match s with
  | [] => []
  | x :: s' => x :: filter (λ y, key_of y ≠ key_of x) (uniques s')
  end.

Definition group_keys (by_ : string) (l : list Row) : list cell :=
  merge_sort (λ a b, cell_le a b)
    (uniques (filter (λ k, isna k = false) (getcell by_ <$> l))).

Definition members (by_ : string) (k : cell) (l : list Row) : list Row :=
  filter (λ r, key_of (getcell by_ r) = key_of k) l.

Definition aggregate (how : aggfunc) (vs : list cell) : num :=
  match how with
  | AggMean => group_mean (observed vs)
  | AggCount => Fin (Qc_of_nat (length (filter (λ v, isna v = false) vs)))
  | AggSum => group_sum (observed vs)
  end.

Definition group_row (by_ : string) (spec : list (string * aggfunc))
    (l : list Row) (i : nat) (k : cell) : Row :=
  let cell_of ch :=
    (ch.1, Num (aggregate ch.2 (getcell ch.1 <$> members by_ k l)))
  in mkRow i (list_to_map ((by_, k) :: (cell_of <$> spec))).

Definition needs_numbers (ch : string * aggfunc) : Prop :=
  ch.2 ≠ AggCount.

Global Instance aggfunc_eq_dec : EqDecision aggfunc.
Proof. solve_decision. Defined.

Definition groupby_agg (by_ : string) (spec : list (string * aggfunc))
    (df : DataFrame) : result DataFrame :=
  try _ := require_columns [by_] df in
  try _ := require_columns (spec.*1) df in
  if bool_decide (Exists (λ ch, Exists (λ c, is_text c) (column ch.1 df))
                    (filter needs_numbers spec))
  then Err TypeError
  else Ok (mkDF (by_ :: spec.*1)
                (imap (group_row by_ spec (rows df)) (group_keys by_ (rows df)))).

(** [df.columns = names]: the columns are renamed by position. *)
Definition set_columns (names : list string) (df : DataFrame) : result DataFrame :=
  if decide (length names = length (columns df)) then
    Ok (mkDF names
          ((λ r, mkRow (label r)
                  (list_to_map (zip names ((λ c, getcell c r) <$> columns df))))
             <$> rows df))
  else Err ValueError.

(** [s.nunique()] *)
Definition nunique (s : list cell) : nat :=
  length (uniques (filter (λ k, isna k = false) s)).

(** [s.min()] and [s.max()] on a column of any one kind. *)
Definition cell_extreme (pick : cell → cell → cell) (s : list cell) : result cell :=
  let seen := filter (λ k, isna k = false) s in
  if decide (comparable seen) then
    Ok (match seen with [] => Num NaN | x :: xs => foldl pick x xs end)
  else Err TypeError.

Definition cell_min (a b : cell) : cell := if cell_le a b then a else b.
Definition cell_max (a b : cell) : cell := if cell_le a b then b else a.

End pandas.

(** ** The world the script runs in

    The tables that are passed between the functions of the script live in
    a heap and are named by references, so that an update made in place
    through one name is seen through every other name of the same table.
    The console receives the printed reports, one event per report; the
    artifacts are the files written. *)

Inductive stage :=
  | StLoad | StPreview | StClean | StTopScorers | StTeams | StChart | StReport.

Inductive event :=
  | Header (s : stage)
  | Loaded (records cols : nat)
  | LoadFailed (path : string) (not_found : bool)
  | Preview (first : list Row) (names : list string)
  | Cleaned (removed : Z) (remaining : nat)
  | Table (s : stage) (t : DataFrame)
  | TopInsights (highest mean lowest : num)
  | TeamInsights (best worst : cell * cell) (mean : num) (teams : nat)
  | ChartSaved (file : string) (bars : list (cell * cell))
  | ChartShown
  | Summary (records players teams : nat) (years : cell * cell)
            (scorer team : Row).

(** What a path holds: a file that parses as a table, or one that does
    not.  A path outside the map does not exist. *)
Inductive file :=
  | Csv (df : DataFrame)
  | Garbage.

Definition ref := nat.

Record world := mkWorld {
  heap : list DataFrame;
  console : list event;
  artifacts : list string;
  disk : gmap string file
}.

Definition M (A : Type) : Type := world → result A * world.

Definition ret {A} (a : A) : M A := λ w, (Ok a, w).

Definition bind {A B} (m : M A) (k : A → M B) : M B :=
  λ w, match m w with
       | (Ok a, w') => k a w'
       | (Err e, w') => (Err e, w')
       end.

Notation "'let!' x := m 'in' k" := (bind m (λ x, k))
  (at level 10, x name, m at level 100, k at level 200).
Notation "m ;; k" := (bind m (λ _, k))
  (at level 100, k at level 200, right associativity).

Definition lift {A} (r : result A) : M A := λ w, (r, w).

Definition emit (e : event) : M unit :=
  λ w, (Ok tt, mkWorld (heap w) (console w ++ [e]) (artifacts w) (disk w)).

Definition alloc (df : DataFrame) : M ref :=
  λ w, (Ok (length (heap w)),
        mkWorld (heap w ++ [df]) (console w) (artifacts w) (disk w)).

(** Reading through a reference that names no table cannot happen in the
    script; the model reports it as an [IndexError]. *)
Definition deref (r : ref) : M DataFrame :=
  λ w, match heap w !! r with
       | Some df => (Ok df, w)
       | None => (Err IndexError, w)
       end.

(** An update in place of the table a reference names. *)
Definition update (r : ref) (f : DataFrame → DataFrame) : M unit :=
  λ w, match heap w !! r with
       | Some df =>
           (Ok tt, mkWorld (<[r := f df]> (heap w)) (console w)
                           (artifacts w) (disk w))
       | None => (Err IndexError, w)
       end.

Definition write_file (name : string) : M unit :=
  λ w, (Ok tt, mkWorld (heap w) (console w) (artifacts w ++ [name]) (disk w)).

Definition open_file (path : string) : M (option file) :=
  λ w, (Ok (disk w !! path), w).

(** ** The script *)

Section script.
Context `{Library}.

Definition load_data (filepath : string) : M (option ref) :=
  emit (Header StLoad) ;;
  let! found := open_file filepath in
  match found with
  | Some (Csv table) =>
      let! data := alloc table in
      emit (Loaded (length (rows table)) (length (columns table))) ;;
      ret (Some data)
  | None =>
      emit (LoadFailed filepath true) ;;
      ret None
  | Some Garbage =>
      emit (LoadFailed filepath false) ;;
      ret None
  end.

(** The first rows and the column names are printed before the statistics
    are asked for; [describe] refuses a table without columns. *)
Definition describe (df : DataFrame) : result unit :=
  match columns df with
  | [] => Err ValueError
  | _ => Ok tt
  end.

Definition preview_data (data : ref) : M unit :=
  emit (Header StPreview) ;;
  let! df := deref data in
  emit (Preview (rows (head 5 df)) (columns df)) ;;
  lift (describe df).

Definition critical : list string := ["Player"; "Tm"; "PTS"; "G"].

Definition numeric_columns : list string :=
  ["PTS"; "G"; "MP"; "TRB"; "AST"; "STL"; "BLK"].

(** One turn of the conversion loop of [clean_data]. *)
Definition coerce (data : DataFrame) (col : string) : DataFrame :=
  if has_column col data
  then setitem col (to_numeric (column col data)) data
  else data.

(** The table that [dropna] returns is new and known to [clean_data]
    alone until it is returned, so the conversions in place are written as
    successive values of the local name [data]. *)
Definition clean_data (data : ref) : M ref :=
  emit (Header StClean) ;;
  let! raw := deref data in
  let original_rows := length (rows raw) in
  let! data := lift (dropna critical raw) in
  let data := foldl coerce data numeric_columns in
  let! data := lift (dropna ["PTS"] data) in
  let rows_removed :=
    (Z.of_nat original_rows - Z.of_nat (length (rows data)))%Z in
  emit (Cleaned rows_removed (length (rows data))) ;;
  alloc data.

Definition scorer_columns : list string :=
  ["Player"; "Tm"; "Year"; "PTS"; "G"; "MP"].

Definition analyze_top_scorers (data : ref) (top_n : Z) : M ref :=
  emit (Header StTopScorers) ;;
  let! df := deref data in
  let! top_scorers := lift (select scorer_columns df) in
  let! top_scorers := lift (sort_values "PTS" top_scorers) in
  let top_scorers := head top_n top_scorers in
  let! top_scorers := lift (insert_rank "Rank" top_scorers) in
  emit (Table StTopScorers top_scorers) ;;
  let! avg_points := lift (series_mean (column "PTS" top_scorers)) in
  let! max_points := lift (series_max (column "PTS" top_scorers)) in
  let! min_points := lift (series_min (column "PTS" top_scorers)) in
  emit (TopInsights max_points avg_points min_points) ;;
  alloc top_scorers.

Definition team_aggregates : list (string * aggfunc) :=
  [("PPG", AggMean); ("Player", AggCount); ("PTS", AggSum); ("G", AggMean)].

Definition team_columns : list string :=
  ["Team"; "Avg_PPG_Per_Player"; "Total_Players"; "Total_Points";
   "Avg_Games_Played"].

(** The assignment to [data['PPG']] is made through the reference the
    caller passed: it changes the caller's table. *)
Definition analyze_team_performance (data : ref) : M ref :=
  emit (Header StTeams) ;;
  let! df := deref data in
  let! pts := lift (getitem "PTS" df) in
  let! g := lift (getitem "G" df) in
  let! ppg := lift (series_div pts g) in
  update data (setitem "PPG" ppg) ;;
  let! df := deref data in
  let! team_stats := lift (groupby_agg "Tm" team_aggregates df) in
  let! team_stats := lift (set_columns team_columns team_stats) in
  let! team_stats := lift (sort_values "Avg_PPG_Per_Player" team_stats) in
  let! team_stats := lift (insert_rank "Rank" team_stats) in
  emit (Table StTeams team_stats) ;;
  let! best := lift (iloc_first team_stats) in
  let! worst := lift (iloc_last team_stats) in
  let! mean := lift (series_mean (column "Avg_PPG_Per_Player" team_stats)) in
  emit (TeamInsights
          (getcell "Team" best, getcell "Avg_PPG_Per_Player" best)
          (getcell "Team" worst, getcell "Avg_PPG_Per_Player" worst)
          mean (length (rows team_stats))) ;;
  alloc team_stats.

(** Drawing is taken to succeed whatever the heights are. *)
Definition create_visualization (team_stats : ref) : M unit :=
  emit (Header StChart) ;;
  let! df := deref team_stats in
  let top_teams := head 20 df in
  let! heights := lift (getitem "Avg_PPG_Per_Player" top_teams) in
  let! names := lift (getitem "Team" top_teams) in
  write_file "team_performance.png" ;;
  emit (ChartSaved "team_performance.png" (zip names heights)) ;;
  emit ChartShown.

Definition generate_summary_report (data top_scorers team_stats : ref) : M unit :=
  emit (Header StReport) ;;
  let! df := deref data in
  let! players := lift (getitem "Player" df) in
  let! teams := lift (getitem "Tm" df) in
  let! years := lift (getitem "Year" df) in
  let! first_year := lift (cell_extreme cell_min years) in
  let! last_year := lift (cell_extreme cell_max years) in
  let! scorers := deref top_scorers in
  let! scorer := lift (iloc_first scorers) in
  let! stats := deref team_stats in
  let! team := lift (iloc_first stats) in
  emit (Summary (length (rows df)) (nunique players) (nunique teams)
                (first_year, last_year) scorer team).

Definition main : M unit :=
  let filepath := "data/NBA_Player_Stats.csv" in
  let! data := load_data filepath in
  match data with
  | None => ret tt
  | Some data =>
      preview_data data ;;
      let! data := clean_data data in
      let! top_scorers := analyze_top_scorers data 10 in
      let! team_stats := analyze_team_performance data in
      create_visualization team_stats ;;
      generate_summary_report data top_scorers team_stats
  end.

End script.

(** ** Vocabulary of the properties *)

Section vocabulary.
Context `{Library}.

(** The conversion loop of [clean_data], seen from one row. *)
Definition coerce_cell (c : string) (r : Row) : Row :=
  setcell c (to_numeric_cell (getcell c r)) r.

Definition coerce_row (cs : list string) (r : Row) : Row :=
  foldl (λ r c, coerce_cell c r) r cs.

(** The rows [clean_data] keeps, converted. *)
Definition present (df : DataFrame) : list string :=
  filter (λ c, c ∈ columns df) numeric_columns.

Definition clean_rows (df : DataFrame) : list Row :=
  filter (complete_on ["PTS"])
    (coerce_row (present df) <$> filter (complete_on critical) (rows df)).

End vocabulary.

(** A table as [clean_data] leaves it. *)
Definition cleaned (df : DataFrame) : Prop :=
  (∀ c, c ∈ critical → c ∈ columns df) ∧
  Forall (λ r, isna (getcell "Player" r) = false ∧
               isna (getcell "Tm" r) = false ∧
               isna (getcell "PTS" r) = false ∧
               is_text (getcell "PTS" r) = false ∧
               is_text (getcell "G" r) = false) (rows df).

(** [desc a b]: in descending order the keyed item [a] may stand before
    [b]. *)
Definition desc {A} (a b : cell * A) : Prop :=
  isna b.1 = true ∨ cell_le b.1 a.1.

(** Points per game of a row, as the division of the two columns gives
    it. *)
Definition ppg `{Library} (r : Row) : num :=
  cell_div (getcell "PTS" r) (getcell "G" r).

(** The caller's table once [analyze_team_performance] has assigned the
    [PPG] column. *)
Definition with_ppg `{Library} (df : DataFrame) : DataFrame :=
  mkDF (if has_column "PPG" df then columns df else columns df ++ ["PPG"])
       ((λ r, setcell "PPG" (Num (ppg r)) r) <$> rows df).

(** The rows of the renamed aggregate, one per group key. *)
Definition rename_row (names old : list string) (r : Row) : Row :=
  mkRow (label r) (list_to_map (zip names ((λ c, getcell c r) <$> old))).

Definition team_rows `{Library} (l : list Row) : list Row :=
  rename_row team_columns ("Tm" :: team_aggregates.*1)
    <$> imap (group_row "Tm" team_aggregates l) (group_keys "Tm" l).

(** What the claims say of the row of one team: its squad are the rows
    of the table under the team's key; the row counts them, and holds the
    library's sum of their points and the library's means of their points
    per game, a ratio that is NaN left out, and of their games. *)
Definition team_summary `{Library} (df : DataFrame) (x : Row) : Prop :=
  let squad :=
    filter (λ r, key_of (getcell "Tm" r) = key_of (getcell "Team" x)) (rows df) in
  getcell "Total_Players" x = Num (Fin (Qc_of_nat (length squad))) ∧
  getcell "Total_Points" x =
    Num (group_sum ((λ r, cell_num (getcell "PTS" r)) <$> squad)) ∧
  getcell "Avg_PPG_Per_Player" x =
    Num (group_mean (filter (λ q, q ≠ NaN) (ppg <$> squad))) ∧
  getcell "Avg_Games_Played" x =
    Num (group_mean (filter (λ g, g ≠ NaN)
                       ((λ r, cell_num (getcell "G" r)) <$> squad))).

(** The part of [analyze_team_performance] that follows the sort. *)
Definition report_teams `{Library} (sorted : DataFrame) : M ref :=
  let! team_stats := lift (insert_rank "Rank" sorted) in
  emit (Table StTeams team_stats) ;;
  let! best := lift (iloc_first team_stats) in
  let! worst := lift (iloc_last team_stats) in
  let! mean := lift (series_mean (column "Avg_PPG_Per_Player" team_stats)) in
  emit (TeamInsights
          (getcell "Team" best, getcell "Avg_PPG_Per_Player" best)
          (getcell "Team" worst, getcell "Avg_PPG_Per_Player" worst)
          mean (length (rows team_stats))) ;;
  alloc team_stats.

(** ** Vocabulary of the further properties *)

Section cleaning_vocabulary.
Context `{Library}.

(** The rows [clean_data] keeps: the four critical cells are there and the
    points convert to a number. *)
Definition kept (r0 : Row) : Prop :=
  complete_on critical r0 ∧ isna (to_numeric_cell (getcell "PTS" r0)) = false.

Global Instance kept_dec r0 : Decision (kept r0).
Proof. unfold kept. apply _. Defined.

(** The cell [clean_data] leaves in column [c] of a kept row [r0]. *)
Definition converted (raw : DataFrame) (r0 : Row) (c : string) : cell :=
  if decide (c ∈ numeric_columns ∧ c ∈ columns raw)
  then to_numeric_cell (getcell c r0)
  else getcell c r0.

End cleaning_vocabulary.

(** The stages a console went through. *)
Definition headers (es : list event) : list stage :=
  omap (λ e, match e with Header s => Some s | _ => None end) es.

(** A table whose points can be divided by its games. *)
Definition divisible (df : DataFrame) : Prop :=
  "PTS" ∈ columns df ∧ "G" ∈ columns df ∧
  Forall (λ c, is_text c = false) (column "PTS" df ++ column "G" df).

Global Instance divisible_dec df : Decision (divisible df).
Proof. unfold divisible. apply _. Defined.

(** The years of a table are of one kind: numbers, some of them missing
    perhaps, or text throughout. *)
Definition uniform_years (df : DataFrame) : Prop :=
  Forall (λ c, is_text c = false) (column "Year" df) ∨
  Forall (λ c, is_text c = true) (column "Year" df).

(** The world a stage leaves when it prints [out] and does nothing
    else. *)
Definition printed (w : world) (out : list event) : world :=
  mkWorld (heap w) (console w ++ out) (artifacts w) (disk w).

(** A table with the rank column that [insert] puts in front. *)
Definition with_rank (d : DataFrame) : DataFrame :=
  mkDF ("Rank" :: columns d)
       (imap (λ i x, setcell "Rank" (rank_cell i) x) (rows d)).

(** The points of a row, as a number. *)
Definition row_points (x : Row) : num := cell_num (getcell "PTS" x).

(** The average points per game of a row of the team table, as a
    number. *)
Definition avg_ppg (x : Row) : num :=
  cell_num (getcell "Avg_PPG_Per_Player" x).

(** The part of [analyze_team_performance] that follows the assignment of
    the [PPG] column. *)
Definition rank_teams `{Library} (d : DataFrame) : M ref :=
  let! team_stats := lift (groupby_agg "Tm" team_aggregates d) in
  let! team_stats := lift (set_columns team_columns team_stats) in
  let! team_stats := lift (sort_values "Avg_PPG_Per_Player" team_stats) in
  report_teams team_stats.

(** ** Three sort kinds, a parser and an arithmetic

    The first two kinds are insertion sorts.  They differ in where an item
    goes among the items with its key: before them, which keeps equal keys
    in input order, or after them, which reverses equal keys. *)

Section insertion.
Context {A : Type} (before : cell → cell → bool).

Fixpoint insert_keyed (x : cell * A) (l : list (cell * A)) : list (cell * A) :=
  match l with
  | [] => [x]
  | y :: l' => if before x.1 y.1 then x :: l else y :: insert_keyed x l'
  end.

Definition insertion_sort (l : list (cell * A)) : list (cell * A) :=
  foldr insert_keyed [] l.

End insertion.

Definition before_equal (x y : cell) : bool := cell_le x y.

(** The third kind follows the quicksort of numpy's scalar argsort
    ([aquicksort] in npysort), which orders a list of positions [tosort]
    by the keys [v] they point to: a range of more than seventeen positions
    is partitioned around the median of its first, middle and last keys,
    a shorter range is sorted by insertion.  numpy also bounds the depth of
    the partitioning and sorts a range by heap beyond the bound; the model
    does not follow it there. *)
Section aquicksort.
Context (v : list cell).














End aquicksort.


(** Plain decimal numerals, for the libraries below; any other text is
    not a number. *)
Definition digit_value (a : ascii) : option nat :=
  let n := nat_of_ascii a in
  if decide (48 ≤ n ≤ 57) then Some (n - 48) else None.

Fixpoint digits_value (acc : nat) (s : string) : option nat :=
  match s with
  | EmptyString => Some acc
  | String a s' =>
      match digit_value a with
      | Some d => digits_value (10 * acc + d) s'
      | None => None
      end
  end.

Definition parse_decimal (s : string) : num :=
  match s with
  | EmptyString => NaN
  | _ => match digits_value 0 s with
         | Some n => Fin (Qc_of_nat n)
         | None => NaN
         end
  end.

(** The text of the negative zero, for the libraries below. *)
Definition parse_minus_zero (s : string) : bool :=
  bool_decide (s = "-0" ∨ s = "-0.0").

(** Arithmetic without rounding, for the libraries below: what float64
    computes as long as every intermediate result is a float64, as on
    the small integers of the sample tables. *)
Definition exact_add (a b : num) : num :=
  match a, b with
  | NaN, _ | _, NaN => NaN
  | Fin x, Fin y => Fin (x + y)
  | PInf, NInf | NInf, PInf => NaN
  | PInf, _ | _, PInf => PInf
  | NInf, _ | _, NInf => NInf
  end.

Definition exact_sum (xs : list num) : num := foldl exact_add (Fin 0) xs.

Definition exact_quotient (p q : Qc) : num := Fin (p / q).

Definition exact_mean (xs : list num) : num :=
  match exact_sum xs, xs with
  | _, [] => NaN
  | Fin t, _ => Fin (t / Qc_of_nat (length xs))
  | t, _ => t
  end.

(** ** Sample tables *)

Definition points (n : nat) : cell := Num (Fin (Qc_of_nat n)).

Definition season (i : nat) (player tm : string) (pts g : cell) : Row :=
  mkRow i (list_to_map
    [("Player", Text player); ("Tm", Text tm); ("Year", points 2020);
     ("PTS", pts); ("G", g); ("MP", points 30)]).

(** A world whose heap holds the given tables and nothing else. *)
Definition holding (tables : list DataFrame) : world :=
  mkWorld tables [] [] ∅.

(** Three players of team X with 10, 20 and 30 points and one of team Y
    with 5, one game each. *)
Definition two_teams : DataFrame :=
  mkDF scorer_columns
    [season 0 "Ann" "X" (points 10) (points 1);
     season 1 "Bob" "X" (points 20) (points 1);
     season 2 "Cy" "X" (points 30) (points 1);
     season 3 "Dee" "Y" (points 5) (points 1)].

(** A player with points and no game. *)
Definition no_game : DataFrame :=
  mkDF scorer_columns
    [season 0 "Ann" "X" (points 10) (Num (Fin 0));
     season 1 "Bob" "Y" (points 8) (points 2)].

(** A games cell that is text and not a number. *)
Definition unparsed_games : DataFrame :=
  mkDF scorer_columns [season 0 "Ann" "X" (points 10) (Text "abc")].


(** A row without a player and a row whose points are not a number, among
    two complete rows. *)
Definition incomplete : DataFrame :=
  mkDF scorer_columns
    [season 0 "Ann" "X" (points 10) (points 1);
     mkRow 1 (<["Player" := Num NaN]>
                (cells (season 1 "" "X" (points 20) (points 1))));
     season 2 "Cy" "Y" (Text "n/a") (points 1);
     season 3 "Dee" "Y" (Text "5") (Text "2")].

Definition no_rows : DataFrame := mkDF scorer_columns [].

(** A table without the games, the year and the minutes. *)
Definition short_table : DataFrame :=
  mkDF ["Player"; "Tm"; "PTS"]
    [mkRow 0 (list_to_map
       [("Player", Text "Ann"); ("Tm", Text "X"); ("PTS", points 10)])].

(** A world with no table in memory, whose data file holds [f]. *)
Definition on_disk (f : file) : world :=
  mkWorld [] [] [] {[ "data/NBA_Player_Stats.csv" := f ]}.

(** ** The order on keys *)

Lemma num_le_total a b : num_le a b = true ∨ num_le b a = true.
Proof.
  destruct a as [x| | |], b as [y| | |]; simpl; auto.
  rewrite !bool_decide_eq_true.
  destruct (Qclt_le_dec x y) as [Hlt|Hle]; [left; by apply Qclt_le_weak | by right].
Qed.

Lemma num_le_trans a b c :
  num_le a b = true → num_le b c = true → num_le a c = true.
Proof.
  destruct a as [x| | |], b as [y| | |], c as [z| | |]; simpl; try done.
  rewrite !bool_decide_eq_true. apply Qcle_trans.
Qed.

Lemma cell_le_total a b : cell_le a b ∨ cell_le b a.
Proof.
  destruct a as [s|x|], b as [t|y|]; cbn [cell_le cell_num]; auto.
  1:{ destruct (String.leb_total s t) as [->| ->]; auto. }
  all: match goal with
       | |- context [num_le ?p ?q] =>
           destruct (num_le_total p q) as [Hle|Hle]; rewrite Hle; auto
       end.
Qed.

Lemma cell_le_trans a b c : cell_le a b → cell_le b c → cell_le a c.
Proof.
  destruct a as [s|x|], b as [t|y|], c as [u|z|]; cbn [cell_le cell_num];
    try done.
  1:{ intros Hst Htu. exact (transitivity (R := String.le) Hst Htu). }
  all: rewrite !Is_true_true; apply num_le_trans.
Qed.

Global Instance key_le_total {A} : Total (@key_le A).
Proof. intros a b. apply cell_le_total. Qed.

Global Instance key_le_trans {A} : Transitive (@key_le A).
Proof. intros a b c. apply cell_le_trans. Qed.

(** ** The two sort kinds are sorts *)

Section insertion_sorts.
Context {A : Type} (before : cell → cell → bool).
Hypothesis before_le : ∀ x y, before x y = true → cell_le x y.
Hypothesis after_le : ∀ x y, before x y = false → cell_le y x.

Lemma insert_keyed_perm (x : cell * A) l : insert_keyed before x l ≡ₚ x :: l.
Proof.
  induction l as [|y l IH]; simpl; [done|].
  destruct (before x.1 y.1); [done|].
  rewrite IH. apply Permutation_swap.
Qed.

Lemma insertion_sort_perm (l : list (cell * A)) : insertion_sort before l ≡ₚ l.
Proof.
  induction l as [|x l IH]; simpl; [done|].
  by rewrite insert_keyed_perm, IH.
Qed.

Lemma insert_keyed_hd (x y : cell * A) l :
  key_le y x → HdRel key_le y l → HdRel key_le y (insert_keyed before x l).
Proof.
  intros Hyx Hl. destruct l as [|z l]; simpl.
  - by constructor.
  - inversion_clear Hl. destruct (before x.1 z.1); by constructor.
Qed.

Lemma insert_keyed_sorted (x : cell * A) l :
  Sorted key_le l → Sorted key_le (insert_keyed before x l).
Proof.
  induction 1 as [|y l Hl IH Hhd]; simpl.
  - repeat constructor.
  - destruct (before x.1 y.1) eqn:Hb.
    + constructor; [by constructor|]. constructor. by apply before_le.
    + constructor; [done|]. apply insert_keyed_hd; [|done].
      by apply after_le.
Qed.

Lemma insertion_sort_sorted (l : list (cell * A)) : Sorted key_le (insertion_sort before l).
Proof.
  induction l as [|x l IH]; simpl; [constructor|].
  by apply insert_keyed_sorted.
Qed.

End insertion_sorts.

Lemma before_equal_le x y : before_equal x y = true → cell_le x y.
Proof. unfold before_equal. by intros ->. Qed.

Lemma before_equal_ge x y : before_equal x y = false → cell_le y x.
Proof.
  unfold before_equal. intros Hxy.
  destruct (cell_le_total x y) as [Hle|Hle]; [|done].
  by rewrite Hxy in Hle.
Qed.






(** ** The arithmetic without rounding keeps the contract *)

Lemma exact_add_not_finite a b :
  is_finite a = false ∨ is_finite b = false → is_finite (exact_add a b) = false.
Proof. destruct a, b; simpl; by intros [|]. Qed.

Lemma foldl_exact_add_not_finite a xs :
  is_finite a = false ∨ Exists (λ x, is_finite x = false) xs →
  is_finite (foldl exact_add a xs) = false.
Proof.
  revert a. induction xs as [|y xs IH]; intros a; simpl.
  - intros [Ha|Hx]; [done|]. by apply Exists_nil in Hx.
  - intros [Ha|Hx]; apply IH.
    + left. apply exact_add_not_finite. by left.
    + apply Exists_cons in Hx as [Hy|Hx]; [|by right].
      left. apply exact_add_not_finite. by right.
Qed.

Lemma exact_mean_infinite xs x :
  x ∈ xs → is_finite x = false → is_finite (exact_mean xs) = false.
Proof.
  intros Hx Hinf.
  assert (is_finite (exact_sum xs) = false) as Hs.
  { apply foldl_exact_add_not_finite. right. apply Exists_exists. eauto. }
  unfold exact_mean. destruct xs as [|y xs]; [by apply elem_of_nil in Hx|].
  by destruct (exact_sum (y :: xs)).
Qed.

(** The three libraries: the same parser and the same arithmetic, one sort
    kind each. *)
Definition stable_library : Library := {|
  parse_float := parse_decimal;
  minus_zero := parse_minus_zero;
  quicksort := λ A, insertion_sort before_equal;
  quicksort_perm := λ A, insertion_sort_perm before_equal;
  quicksort_sorted := λ A,
    insertion_sort_sorted before_equal before_equal_le before_equal_ge;
  quotient := exact_quotient;
  average := exact_mean;
  group_mean := exact_mean;
  group_sum := exact_sum;
  average_nil := eq_refl;
  group_mean_infinite := exact_mean_infinite
|}.



(** ** Running the script: one step at a time *)

Ltac mred :=
  unfold bind, emit, lift, deref, alloc, update, ret, write_file, open_file;
  cbn [heap console artifacts disk].
Ltac mred_in H :=
  unfold bind, emit, lift, deref, alloc, update, ret, write_file, open_file in H;
  cbn [heap console artifacts disk] in H.

(** Case analysis on the next pandas call of a run that is known to
    return. *)
Ltac mstep H :=
  match type of H with
  | context [match ?r with Ok _ => _ | Err _ => _ end] =>
      let E := fresh "E" in
      destruct r eqn:E; mred_in H; [|discriminate H]
  end.

(** Membership of a name in a list of names that is known in full. *)
Ltac names := apply (bool_decide_unpack _); vm_compute; exact I.

Section runs.
Context `{Library}.

Lemma require_columns_ok cs df :
  (∀ c, c ∈ cs → c ∈ columns df) → require_columns cs df = Ok tt.
Proof.
  intros Hcs. unfold require_columns, missing_columns.
  assert (filter (λ c, c ∉ columns df) cs = []) as ->; [|done].
  induction cs as [|c cs IH]; [done|].
  rewrite filter_cons. destruct (decide (c ∉ columns df)) as [Hc|_].
  - destruct Hc. apply Hcs. left.
  - apply IH. intros c' Hc'. apply Hcs. by right.
Qed.

Lemma require_columns_inv cs df u :
  require_columns cs df = Ok u → ∀ c, c ∈ cs → c ∈ columns df.
Proof.
  unfold require_columns, missing_columns. intros Hr c Hc.
  destruct (decide (c ∈ columns df)) as [|Hn]; [done|].
  assert (c ∈ filter (λ c, c ∉ columns df) cs) as Hin
    by (by apply list_elem_of_filter).
  destruct (filter _ cs); [by apply elem_of_nil in Hin | done].
Qed.

Lemma dropna_inv cs df d :
  dropna cs df = Ok d →
  d = mkDF (columns df) (filter (complete_on cs) (rows df)) ∧
  ∀ c, c ∈ cs → c ∈ columns df.
Proof.
  unfold dropna. destruct (require_columns cs df) as [[]|e] eqn:E; [|done].
  simpl. intros [= <-]. split; [done|]. by eapply require_columns_inv.
Qed.

Lemma dropna_ok cs df :
  (∀ c, c ∈ cs → c ∈ columns df) →
  dropna cs df = Ok (mkDF (columns df) (filter (complete_on cs) (rows df))).
Proof. intros Hcs. unfold dropna. by rewrite require_columns_ok. Qed.


(** *** Cells of a row *)

Lemma getcell_setcell c v r : getcell c (setcell c v r) = v.
Proof. unfold getcell, setcell. simpl. by rewrite lookup_insert_eq. Qed.

Lemma getcell_setcell_ne c c' v r :
  c ≠ c' → getcell c' (setcell c v r) = getcell c' r.
Proof. intros Hne. unfold getcell, setcell. simpl. by rewrite lookup_insert_ne. Qed.

Lemma to_numeric_cell_number c : is_text (to_numeric_cell c) = false.
Proof. destruct c as [s| |]; simpl; [by destruct (minus_zero s)|done..]. Qed.

Lemma to_numeric_cell_idemp c : to_numeric_cell (to_numeric_cell c) = to_numeric_cell c.
Proof. destruct c as [s| |]; simpl; [by destruct (minus_zero s)|done..]. Qed.

Lemma to_numeric_cell_id c : is_text c = false → to_numeric_cell c = c.
Proof. by destruct c. Qed.

(** *** The conversion loop of [clean_data], row by row *)

Lemma setitem_to_numeric c df :
  setitem c (to_numeric (column c df)) df =
  mkDF (if has_column c df then columns df else columns df ++ [c])
       (coerce_cell c <$> rows df).
Proof.
  unfold setitem, to_numeric, column. f_equal.
  induction (rows df) as [|r l IH]; [done|]. csimpl. by rewrite IH.
Qed.

Lemma coerce_columns d col : columns (coerce d col) = columns d.
Proof.
  unfold coerce. destruct (has_column col d) eqn:E; [|done].
  rewrite setitem_to_numeric. simpl. by rewrite E.
Qed.

Lemma foldl_coerce_columns cols d : columns (foldl coerce d cols) = columns d.
Proof.
  revert d. induction cols as [|c cols IH]; intros d; [done|].
  simpl. by rewrite IH, coerce_columns.
Qed.

Lemma foldl_coerce_rows cols d :
  rows (foldl coerce d cols) =
  coerce_row (filter (λ c, c ∈ columns d) cols) <$> rows d.
Proof.
  revert d. induction cols as [|c cols IH]; intros d.
  - simpl. symmetry. apply list_fmap_id.
  - simpl. rewrite IH, coerce_columns, filter_cons.
    unfold coerce at 1. unfold has_column.
    destruct (decide (c ∈ columns d)) as [Hc|Hc].
    + rewrite bool_decide_eq_true_2 by done.
      rewrite setitem_to_numeric. simpl. by rewrite <- list_fmap_compose.
    + by rewrite bool_decide_eq_false_2 by done.
Qed.

Lemma label_coerce_row cs r : label (coerce_row cs r) = label r.
Proof.
  revert r. induction cs as [|c cs IH]; intros r; [done|].
  simpl. by rewrite IH.
Qed.

Lemma getcell_coerce_row_other cs c r :
  c ∉ cs → getcell c (coerce_row cs r) = getcell c r.
Proof.
  revert r. induction cs as [|c' cs IH]; intros r Hc; [done|].
  simpl. rewrite IH by (intros ?; apply Hc; by right).
  apply getcell_setcell_ne. intros ->. apply Hc. left.
Qed.

Lemma getcell_coerce_row cs c r :
  c ∈ cs → getcell c (coerce_row cs r) = to_numeric_cell (getcell c r).
Proof.
  revert r. induction cs as [|c' cs IH]; intros r Hc.
  - by apply elem_of_nil in Hc.
  - simpl. destruct (decide (c ∈ cs)) as [Hin|Hout].
    + rewrite IH by done. unfold coerce_cell.
      destruct (decide (c' = c)) as [->|Hne].
      * by rewrite getcell_setcell, to_numeric_cell_idemp.
      * by rewrite getcell_setcell_ne.
    + rewrite getcell_coerce_row_other by done.
      apply elem_of_cons in Hc as [->|Hc]; [|done].
      apply getcell_setcell.
Qed.

(** *** What a run of [clean_data] consists of *)


Lemma clean_data_inv w data raw r w' :
  heap w !! data = Some raw →
  clean_data data w = (Ok r, w') →
  (∀ c, c ∈ critical → c ∈ columns raw) ∧
  r = length (heap w) ∧
  heap w' = heap w ++ [mkDF (columns raw) (clean_rows raw)] ∧
  artifacts w' = artifacts w ∧ disk w' = disk w.
Proof.
  intros Hraw. unfold clean_data. mred. rewrite Hraw. mred.
  destruct (dropna critical raw) as [first|] eqn:E; mred; [|done].
  destruct (dropna ["PTS"] _) as [out|] eqn:E0; mred; [|done].
  intros [= <- <-].
  apply dropna_inv in E as [-> Hcols].
  apply dropna_inv in E0 as [-> _].
  rewrite foldl_coerce_columns, foldl_coerce_rows. simpl.
  done.
Qed.

Lemma clean_data_ok w data raw :
  heap w !! data = Some raw →
  (∀ c, c ∈ critical → c ∈ columns raw) →
  ∃ w', clean_data data w = (Ok (length (heap w)), w').
Proof.
  intros Hraw Hcols. unfold clean_data. mred. rewrite Hraw. mred.
  rewrite dropna_ok by done. mred.
  rewrite dropna_ok.
  - mred. eauto.
  - intros c ->%list_elem_of_singleton.
    rewrite foldl_coerce_columns. simpl. apply Hcols. names.
Qed.



Lemma lookup_new {A} (l : list A) (x : A) : (l ++ [x]) !! length l = Some x.
Proof. by rewrite lookup_app_r, Nat.sub_diag by done. Qed.

Lemma complete_on_cell cs r c :
  complete_on cs r → c ∈ cs → isna (getcell c r) = false.
Proof. unfold complete_on. rewrite Forall_forall. auto. Qed.

Lemma present_spec df c : c ∈ present df ↔ c ∈ columns df ∧ c ∈ numeric_columns.
Proof. unfold present. by rewrite list_elem_of_filter. Qed.

Lemma clean_rows_spec raw r :
  r ∈ clean_rows raw →
  ∃ r0, r0 ∈ rows raw ∧ complete_on critical r0 ∧
        r = coerce_row (present raw) r0 ∧ isna (getcell "PTS" r) = false.
Proof.
  unfold clean_rows.
  intros [Hpts Hr]%list_elem_of_filter.
  apply list_elem_of_fmap in Hr as (r0 & -> & [Hr0 Hin]%list_elem_of_filter).
  exists r0. repeat split; try done.
  eapply complete_on_cell; [done|]. apply list_elem_of_singleton. done.
Qed.

Lemma clean_rows_labels raw :
  label <$> clean_rows raw `sublist_of` label <$> rows raw.
Proof.
  unfold clean_rows.
  induction (rows raw) as [|r l IH]; [done|].
  rewrite filter_cons. destruct (decide (complete_on critical r)).
  - simpl. rewrite filter_cons.
    destruct (decide (complete_on ["PTS"] (coerce_row (present raw) r))).
    + simpl. rewrite label_coerce_row. by apply sublist_skip.
    + by apply sublist_cons.
  - simpl. by apply sublist_cons.
Qed.

Lemma clean_data_cleaned w data raw r w' :
  heap w !! data = Some raw →
  clean_data data w = (Ok r, w') →
  ∃ out, heap w' !! r = Some out ∧ cleaned out.
Proof.
  intros Hraw Hrun.
  destruct (clean_data_inv _ _ _ _ _ Hraw Hrun) as (Hcols & -> & Hheap & _).
  eexists. split; [rewrite Hheap; apply lookup_new|].
  split; [done|]. simpl. apply Forall_forall. intros r Hr.
  apply clean_rows_spec in Hr as (r0 & _ & Hr0 & -> & Hpts).
  assert ("PTS" ∈ present raw) as HP.
  { apply present_spec. split; [apply Hcols|]; names. }
  assert ("G" ∈ present raw) as HG.
  { apply present_spec. split; [apply Hcols|]; names. }
  rewrite !getcell_coerce_row_other
    by (rewrite present_spec; intros [_ Hc]; revert Hc; names).
  rewrite (getcell_coerce_row _ "G") by done.
  rewrite (getcell_coerce_row _ "PTS") in * by done.
  repeat split; try done; try apply to_numeric_cell_number;
    (eapply complete_on_cell; [done|names]).
Qed.

(** *** Cleaning a cleaned table

    The second cleaning changes nothing as long as the first one left no
    games missing. *)

Lemma lookup_coerce_row cs c r :
  c ∈ cs → cells (coerce_row cs r) !! c = Some (to_numeric_cell (getcell c r)).
Proof.
  revert r. induction cs as [|c' cs IH]; intros r Hc.
  - by apply elem_of_nil in Hc.
  - simpl. destruct (decide (c ∈ cs)) as [Hin|Hout].
    + rewrite IH by done. unfold coerce_cell.
      destruct (decide (c' = c)) as [->|Hne].
      * by rewrite getcell_setcell, to_numeric_cell_idemp.
      * by rewrite getcell_setcell_ne.
    + apply elem_of_cons in Hc as [->|Hc]; [|done].
      assert (∀ y, cells (coerce_row cs y) !! c' = cells y !! c') as Hkeep.
      { clear IH. induction cs as [|d cs IH]; intros y; [done|]. simpl.
        rewrite IH by (intros ?; apply Hout; by right).
        unfold coerce_cell, setcell. simpl. apply lookup_insert_ne.
        intros ->. apply Hout. left. }
      rewrite Hkeep. unfold coerce_cell, setcell. simpl.
      apply lookup_insert_eq.
Qed.

Lemma coerce_row_stored cs r :
  (∀ c, c ∈ cs → ∃ v, cells r !! c = Some v ∧ is_text v = false) →
  coerce_row cs r = r.
Proof.
  revert r. induction cs as [|c cs IH]; intros r Hr; [done|]. simpl.
  destruct (Hr c) as (v & Hv & Ht); [left|].
  assert (coerce_cell c r = r) as ->.
  { unfold coerce_cell, setcell, getcell. rewrite Hv. simpl.
    rewrite to_numeric_cell_id, insert_id by done.
    by destruct r. }
  apply IH. intros c' Hc'. apply Hr. by right.
Qed.

Lemma clean_rows_again raw :
  (∀ c, c ∈ critical → c ∈ columns raw) →
  Forall (λ r, isna (getcell "G" r) = false) (clean_rows raw) →
  clean_rows (mkDF (columns raw) (clean_rows raw)) = clean_rows raw.
Proof.
  intros Hcols Hgames. unfold clean_rows at 1. cbn [rows].
  assert (present (mkDF (columns raw) (clean_rows raw)) = present raw) as ->
    by done.
  assert (Forall (λ x, complete_on critical x ∧
                       coerce_row (present raw) x = x ∧
                       complete_on ["PTS"] x) (clean_rows raw)) as Hall.
  { apply Forall_forall. intros x Hx.
    rewrite Forall_forall in Hgames. pose proof (Hgames x Hx) as Hg.
    pose proof Hx as [Hpts _]%list_elem_of_filter.
    apply clean_rows_spec in Hx as (r0 & _ & Hr0 & -> & Hp).
    split; [|split; [|done]].
    - repeat constructor; try done;
        (rewrite getcell_coerce_row_other
           by (rewrite present_spec; intros [_ Hc]; revert Hc; names);
         eapply complete_on_cell; [done|names]).
    - apply coerce_row_stored. intros c Hc. eexists. split.
      + by apply lookup_coerce_row.
      + apply to_numeric_cell_number. }
  induction (clean_rows raw) as [|x l IH]; [done|].
  apply Forall_cons in Hall as [(Hc & Hx & Hp) Hall].
  apply Forall_cons in Hgames as [_ Hgames].
  rewrite filter_cons, decide_True by done. csimpl.
  rewrite Hx, filter_cons, decide_True by done.
  f_equal. by apply IH.
Qed.

(** [clean_data] applied to its own result returns the same table when
    no games of that result are missing. *)
Lemma clean_data_again w data raw r1 w1 out r2 w2 :
  heap w !! data = Some raw →
  clean_data data w = (Ok r1, w1) →
  heap w1 !! r1 = Some out →
  Forall (λ r, isna (getcell "G" r) = false) (rows out) →
  clean_data r1 w1 = (Ok r2, w2) →
  heap w2 !! r2 = Some out.
Proof.
  intros Hraw Hrun1 Hout Hgames Hrun2.
  destruct (clean_data_inv _ _ _ _ _ Hraw Hrun1) as (Hcols & -> & Hheap & _).
  rewrite Hheap, lookup_new in Hout. injection Hout as <-.
  destruct (clean_data_inv _ _ _ _ _ (eq_trans (f_equal (λ h, h !! _) Hheap)
              (lookup_new _ _)) Hrun2) as (_ & -> & Hheap2 & _).
  rewrite Hheap2, lookup_new. cbn [columns rows].
  by rewrite clean_rows_again.
Qed.

(** In the table [clean_data] returns no cell of a converted column is
    text. *)
Lemma clean_data_numbers w data raw r w' c :
  heap w !! data = Some raw →
  clean_data data w = (Ok r, w') →
  c ∈ numeric_columns → c ∈ columns raw →
  ∃ out, heap w' !! r = Some out ∧
         Forall (λ v, is_text v = false) (column c out).
Proof.
  intros Hraw Hrun Hnum Hcol.
  destruct (clean_data_inv _ _ _ _ _ Hraw Hrun) as (_ & -> & Hheap & _).
  eexists. split; [rewrite Hheap; apply lookup_new|].
  unfold column. cbn [rows]. apply Forall_fmap, Forall_forall.
  intros x (r0 & _ & _ & -> & _)%clean_rows_spec. simpl.
  rewrite getcell_coerce_row by (by apply present_spec).
  apply to_numeric_cell_number.
Qed.

(** C4.  [clean_data] returns as soon as the four critical columns exist,
    and the table it returns has no more rows than its input: the labels of
    its rows are a subsequence of the input's labels, every row agrees
    with an input row outside the converted columns, and the columns are
    those of the input, in the same order. *)
Theorem clean_data_shrinks w data raw :
  heap w !! data = Some raw →
  ((∀ c, c ∈ critical → c ∈ columns raw) →
     ∃ r w', clean_data data w = (Ok r, w')) ∧
  ∀ r w', clean_data data w = (Ok r, w') →
    ∃ out, heap w' !! r = Some out ∧
      length (rows out) ≤ length (rows raw) ∧
      label <$> rows out `sublist_of` label <$> rows raw ∧
      (∀ r1, r1 ∈ rows out → ∃ r0, r0 ∈ rows raw ∧ label r1 = label r0 ∧
          ∀ c, c ∉ numeric_columns → getcell c r1 = getcell c r0) ∧
      columns out = columns raw.
Proof.
  intros Hraw. split.
  - intros Hcols. destruct (clean_data_ok _ _ _ Hraw Hcols) as [w' Hw']. eauto.
  - intros r w' Hrun.
    destruct (clean_data_inv _ _ _ _ _ Hraw Hrun) as (_ & -> & Hheap & _).
    eexists. split; [rewrite Hheap; apply lookup_new|]. simpl.
    pose proof (clean_rows_labels raw) as Hsub.
    split; [|split; [done|split; [|done]]].
    + apply sublist_length in Hsub. by rewrite !length_fmap in Hsub.
    + intros r1 (r0 & Hin & _ & -> & _)%clean_rows_spec.
      exists r0. split; [done|]. split; [apply label_coerce_row|].
      intros c Hc. apply getcell_coerce_row_other.
      rewrite present_spec. tauto.
Qed.

Lemma load_data_missing w path :
  disk w !! path = None →
  load_data path w =
    (Ok None,
     mkWorld (heap w) (console w ++ [Header StLoad; LoadFailed path true])
             (artifacts w) (disk w)).
Proof.
  intros Hpath. unfold load_data. mred. rewrite Hpath. mred.
  by rewrite <- app_assoc.
Qed.

(** C8.  When the path the script reads names no file, [load_data]
    returns [None] after printing its banner and the diagnostic, and
    [main] returns at once: the console holds those two reports of the
    loading stage and nothing else new, no table was created and no file
    was written. *)
Theorem missing_file_halts w :
  disk w !! "data/NBA_Player_Stats.csv" = None →
  let halted :=
    mkWorld (heap w)
            (console w ++
               [Header StLoad; LoadFailed "data/NBA_Player_Stats.csv" true])
            (artifacts w) (disk w) in
  load_data "data/NBA_Player_Stats.csv" w = (Ok None, halted) ∧
  main w = (Ok tt, halted).
Proof.
  intros Hpath halted.
  pose proof (load_data_missing _ _ Hpath) as Hload.
  split; [done|]. unfold main. unfold bind at 1. by rewrite Hload.
Qed.

End runs.

(** ** Sorting in descending order *)

Lemma StronglySorted_lookup {A} (R : relation A) l i j a b :
  StronglySorted R l → i < j → l !! i = Some a → l !! j = Some b → R a b.
Proof.
  intros Hl. revert i j. induction Hl as [|x l Hl IH Hx]; intros i j Hij Hi Hj.
  - done.
  - destruct j as [|j]; [lia|]. simpl in Hj. destruct i as [|i].
    + injection Hi as <-. rewrite Forall_forall in Hx. apply Hx.
      by eapply list_elem_of_lookup_2.
    + simpl in Hi. apply (IH i j); [lia|done..].
Qed.

Lemma StronglySorted_impl {A} (R1 R2 : relation A) l :
  (∀ x y, R1 x y → R2 x y) → StronglySorted R1 l → StronglySorted R2 l.
Proof.
  intros HR. induction 1 as [|x l Hl IH Hx]; constructor; [done|].
  eapply Forall_impl; [done|]. apply HR.
Qed.

Lemma num_lt_nan_r a : num_lt a NaN = false.
Proof. by destruct a. Qed.

Lemma num_le_not_lt a b : num_le b a = true → num_lt a b = false.
Proof.
  destruct a as [x| | |], b as [y| | |]; simpl; try done.
  rewrite bool_decide_eq_true, bool_decide_eq_false.
  intros Hle Hlt. by apply Qclt_not_le in Hlt.
Qed.


Lemma desc_not_below {A} (a b : cell * A) :
  desc a b → is_text a.1 = false → is_text b.1 = false →
  num_lt (cell_num a.1) (cell_num b.1) = false.
Proof.
  intros [Hna|Hle] Ha Hb.
  - destruct b as [[t|[]|] rb]; try done. apply num_lt_nan_r.
  - apply num_le_not_lt, Is_true_true.
    by destruct a as [[s|x|] ra], b as [[t|y|] rb].
Qed.

Lemma desc_missing {A} (l : list (cell * A)) :
  StronglySorted desc (filter (λ a, isna a.1 = true) l).
Proof.
  induction l as [|x l IH]; [constructor|].
  rewrite filter_cons. case_decide; [|done].
  constructor; [done|]. apply Forall_forall.
  intros b [Hb _]%list_elem_of_filter. by left.
Qed.

Lemma filter_split {A} (f : A → bool) (l : list A) :
  filter (λ a, f a = false) l ++ filter (λ a, f a = true) l ≡ₚ l.
Proof.
  induction l as [|x l IH]; [done|].
  rewrite !filter_cons. destruct (f x) eqn:E.
  - rewrite decide_False, decide_True by done.
    by rewrite <- Permutation_middle, IH.
  - rewrite decide_True, decide_False by done. simpl. by rewrite IH.
Qed.

Lemma filter_none {A} (P : A → Prop) `{∀ x, Decision (P x)} (l : list A) :
  (∀ x, x ∈ l → ¬ P x) → filter P l = [].
Proof.
  induction l as [|x l IH]; intros Hl; [done|].
  rewrite filter_cons, decide_False by (apply Hl; left).
  apply IH. intros y Hy. apply Hl. by right.
Qed.

Lemma filter_key_split {A} (k : cell) (l : list (cell * A)) :
  filter (λ a, a.1 = k) (filter (λ a, isna a.1 = false) l) ++
  filter (λ a, a.1 = k) (filter (λ a, isna a.1 = true) l) =
  filter (λ a, a.1 = k) l.
Proof.
  induction l as [|x l IH]; [done|].
  rewrite !(filter_cons _ x). destruct (isna x.1) eqn:E.
  - rewrite decide_False, decide_True by done.
    rewrite (filter_cons _ x).
    destruct (decide (x.1 = k)) as [Hk|Hk].
    + assert (filter (λ a : cell * A, a.1 = k)
                (filter (λ a, isna a.1 = false) l) = []) as Hnil.
      { apply filter_none.
        intros a [Ha _]%list_elem_of_filter Hak. congruence. }
      rewrite Hnil in *. simpl in *. by rewrite IH.
    + done.
  - rewrite decide_True, decide_False by done.
    rewrite (filter_cons _ x). destruct (decide (x.1 = k)); simpl; by rewrite IH.
Qed.

Section sorting.
Context `{Library}.

Lemma nargsort_desc_inv items sorted :
  nargsort_desc items = Ok sorted →
  ∃ S, sorted = snd <$> S ∧ S ≡ₚ items ∧ StronglySorted desc S ∧
       (stable → ∀ k, filter (λ a, a.1 = k) S = filter (λ a, a.1 = k) items).
Proof.
  unfold nargsort_desc. case_decide as Hcmp; [|done]. intros [= <-].
  set (nn := filter (λ a, isna a.1 = false) items).
  set (nans := filter (λ a, isna a.1 = true) items).
  exists (reverse (quicksort (reverse nn)) ++ nans).
  split; [by rewrite fmap_app|]. split; [|split].
  - rewrite reverse_Permutation, quicksort_perm, reverse_Permutation.
    apply filter_split.
  - apply StronglySorted_app_2.
    + intros a b _ [Hb _]%list_elem_of_filter. by left.
    + pose proof (quicksort_sorted _ (reverse nn)) as Hs.
      apply Sorted_reverse in Hs.
      apply Sorted_StronglySorted in Hs.
      * eapply StronglySorted_impl; [|exact Hs]. intros a b Hab. right. apply Hab.
      * intros a b c Hab Hbc. unfold flip in *. by etransitivity.
    + apply desc_missing.
  - intros Hst k. rewrite filter_app, filter_reverse, Hst, filter_reverse,
      reverse_involutive. apply filter_key_split.
Qed.

Lemma nargsort_desc_ok items :
  comparable (fst <$> filter (λ a, isna a.1 = false) items) →
  ∃ sorted, nargsort_desc items = Ok sorted.
Proof. intros Hc. unfold nargsort_desc. rewrite decide_True by done. eauto. Qed.

Lemma keyed_keys c l : Forall (λ a, a.1 = getcell c a.2) (keyed c l).
Proof. unfold keyed. apply Forall_fmap, Forall_forall. done. Qed.

Lemma sort_values_inv c df d :
  sort_values c df = Ok d →
  c ∈ columns df ∧ columns d = columns df ∧
  ∃ S, rows d = snd <$> S ∧ S ≡ₚ keyed c (rows df) ∧ StronglySorted desc S ∧
       (stable → ∀ k, filter (λ a, a.1 = k) S
                      = filter (λ a, a.1 = k) (keyed c (rows df))).
Proof.
  unfold sort_values.
  destruct (require_columns [c] df) as [[]|] eqn:Hreq; [|done]. simpl.
  destruct (nargsort_desc _) as [sorted|] eqn:Hs; [|done]. simpl.
  intros [= <-]. split.
  { eapply require_columns_inv; [done|]. by apply list_elem_of_singleton. }
  split; [done|]. simpl.
  apply nargsort_desc_inv in Hs as (S & -> & HS). by exists S.
Qed.

Lemma sort_values_ok c df :
  c ∈ columns df →
  Forall (λ k, is_text k = false) (column c df) →
  ∃ d, sort_values c df = Ok d.
Proof.
  intros Hc Hnum. unfold sort_values.
  rewrite require_columns_ok by (by intros ? ->%list_elem_of_singleton).
  simpl. destruct (nargsort_desc_ok (keyed c (rows df))) as [s ->]; [|simpl; eauto].
  right. apply Forall_fmap, Forall_forall.
  intros [k r] [_ Hin]%list_elem_of_filter. simpl.
  unfold keyed in Hin. apply list_elem_of_fmap in Hin as (r' & [= -> ->] & Hr').
  rewrite Forall_forall in Hnum. apply Hnum. unfold column.
  apply list_elem_of_fmap. eauto.
Qed.

End sorting.

(** ** Columns through the table operations *)

Lemma getcell_restrict cs c r : c ∈ cs → getcell c (restrict cs r) = getcell c r.
Proof.
  intros Hc. unfold restrict, getcell at 1. simpl.
  induction cs as [|c' cs IH]; [by apply elem_of_nil in Hc|].
  csimpl. destruct (decide (c' = c)) as [->|Hne].
  - by rewrite lookup_insert_eq.
  - rewrite lookup_insert_ne by done. apply IH.
    by apply elem_of_cons in Hc as [->|Hc].
Qed.

Lemma restrict_ext cs r r' :
  label r = label r' → (∀ c, c ∈ cs → getcell c r = getcell c r') →
  restrict cs r = restrict cs r'.
Proof.
  intros Hl Hc. unfold restrict. rewrite Hl. f_equal. f_equal.
  apply list_fmap_ext. intros i c Hi. f_equal. apply Hc.
  by eapply list_elem_of_lookup_2.
Qed.

Lemma select_inv cs df d :
  select cs df = Ok d →
  (∀ c, c ∈ cs → c ∈ columns df) ∧ d = mkDF cs (restrict cs <$> rows df).
Proof.
  unfold select. destruct (require_columns cs df) as [[]|] eqn:E; [|done].
  simpl. intros [= <-]. split; [|done]. by eapply require_columns_inv.
Qed.

Lemma insert_rank_inv c df d :
  insert_rank c df = Ok d →
  (c ∉ columns df) ∧
  d = mkDF (c :: columns df) (imap (λ i r, setcell c (rank_cell i) r) (rows df)).
Proof.
  unfold insert_rank, has_column. case_bool_decide; [done|]. by intros [= <-].
Qed.

Lemma imap_Forall2 {A B} (f : nat → A → B) (l : list A) :
  Forall2 (λ y x, ∃ i, y = f i x) (imap f l) l.
Proof.
  revert f. induction l as [|x l IH]; intros f; csimpl; constructor; [eauto|].
  eapply Forall2_impl; [apply IH|]. intros y x' [i ->]. by exists (S i).
Qed.

Lemma Forall2_fmap_eq {A B C} (f : A → C) (g : B → C) l k :
  Forall2 (λ y x, f y = g x) l k → f <$> l = g <$> k.
Proof. induction 1; csimpl; congruence. Qed.

Lemma ranked_column c c' (l : list Row) :
  c ≠ c' →
  getcell c' <$> imap (λ i r, setcell c (rank_cell i) r) l = getcell c' <$> l.
Proof.
  intros Hne. apply Forall2_fmap_eq.
  eapply Forall2_impl; [apply imap_Forall2|].
  intros y x [i ->]. by apply getcell_setcell_ne.
Qed.

Lemma ranked_ranks c (l : list Row) :
  getcell c <$> imap (λ i r, setcell c (rank_cell i) r) l =
  rank_cell <$> seq 0 (length l).
Proof.
  apply list_eq. intros i.
  rewrite !list_lookup_fmap, list_lookup_imap.
  destruct (l !! i) as [r|] eqn:Hi; simpl.
  - rewrite getcell_setcell, lookup_seq_lt by (by eapply lookup_lt_Some). done.
  - rewrite lookup_seq_ge; [done|]. by apply lookup_ge_None.
Qed.

Lemma ranks_from_one n :
  rank_cell <$> seq 0 n = (λ k, Num (Fin (Qc_of_nat k))) <$> seq 1 n.
Proof. by rewrite <- fmap_S_seq, <- list_fmap_compose. Qed.

Lemma ranked_restrict cs c (l : list Row) :
  c ∉ cs →
  restrict cs <$> imap (λ i r, setcell c (rank_cell i) r) l = restrict cs <$> l.
Proof.
  intros Hc. apply Forall2_fmap_eq.
  eapply Forall2_impl; [apply imap_Forall2|].
  intros y x [i ->]. apply restrict_ext; [done|].
  intros c' Hc'. apply getcell_setcell_ne. by intros ->.
Qed.

Lemma head_rows n df :
  (0 ≤ n)%Z → rows (head n df) = take (Z.to_nat n) (rows df).
Proof. intros Hn. unfold head. simpl. by rewrite decide_True. Qed.

Lemma numeric_inv s xs : numeric s = Ok xs → Forall (λ c, is_text c = false) s.
Proof.
  unfold numeric. case_bool_decide as Ht; [done|]. intros _.
  apply Forall_forall. intros c Hc. destruct (is_text c) eqn:E; [|done].
  destruct Ht. apply Exists_exists. exists c. split; [done|]. by rewrite E.
Qed.

Lemma numeric_ok s :
  Forall (λ c, is_text c = false) s → numeric s = Ok (observed s).
Proof.
  intros Hs. unfold numeric. rewrite bool_decide_eq_false_2; [done|].
  intros (c & Hc & Ht)%Exists_exists. rewrite Forall_forall in Hs.
  rewrite (Hs c Hc) in Ht. done.
Qed.

(** ** Top scorers *)

Section top_scorers.
Context `{Library}.

Lemma analyze_top_scorers_inv w data df top_n r w' :
  heap w !! data = Some df →
  analyze_top_scorers data top_n w = (Ok r, w') →
  ∃ picked sorted ranked,
    select scorer_columns df = Ok picked ∧
    sort_values "PTS" picked = Ok sorted ∧
    insert_rank "Rank" (head top_n sorted) = Ok ranked ∧
    Forall (λ c, is_text c = false) (column "PTS" ranked) ∧
    r = length (heap w) ∧ heap w' = heap w ++ [ranked].
Proof.
  intros Hdf Hrun. unfold analyze_top_scorers in Hrun. mred_in Hrun.
  rewrite Hdf in Hrun. mred_in Hrun.
  mstep Hrun. mstep Hrun. mstep Hrun. mstep Hrun. mstep Hrun. mstep Hrun.
  injection Hrun as <- <-.
  eexists _, _, _. repeat split; try done.
  unfold series_mean in E2. destruct (numeric _) eqn:En; [|done].
  by eapply numeric_inv.
Qed.

Lemma sorted_rows_perm c df d :
  sort_values c df = Ok d → rows d ≡ₚ rows df.
Proof.
  intros (_ & _ & S & -> & HS & _)%sort_values_inv.
  rewrite HS. unfold keyed. rewrite <- list_fmap_compose.
  by rewrite list_fmap_id.
Qed.

Lemma sorted_rows_desc c df d i j ri rj :
  sort_values c df = Ok d → i < j →
  rows d !! i = Some ri → rows d !! j = Some rj →
  isna (getcell c rj) = true ∨ cell_le (getcell c rj) (getcell c ri).
Proof.
  intros (_ & _ & S & -> & HS & Hd & _)%sort_values_inv Hij Hi Hj.
  rewrite list_lookup_fmap in Hi, Hj.
  destruct (S !! i) as [[ki ri']|] eqn:Ei; [|done].
  destruct (S !! j) as [[kj rj']|] eqn:Ej; [|done].
  simpl in *. injection Hi as ->. injection Hj as ->.
  pose proof (keyed_keys c (rows df)) as Hk.
  rewrite <- HS in Hk. rewrite Forall_forall in Hk.
  pose proof (Hk _ (list_elem_of_lookup_2 _ _ _ Ei)) as Hki.
  pose proof (Hk _ (list_elem_of_lookup_2 _ _ _ Ej)) as Hkj.
  simpl in *. subst ki kj.
  exact (StronglySorted_lookup _ _ _ _ _ _ Hd Hij Ei Ej).
Qed.

(** C2.  [analyze_top_scorers] returns as soon as its six columns exist
    and no points value is text.  The table it returns has
    [min top_n (number of input rows)] rows; going down the table the points
    never increase (a later row is never above an earlier one, and missing
    points come last); the rank column holds the numbers 1, 2, ... up to
    the number of rows, in that order; and without their rank the rows
    are rows of the input. *)
Theorem analyze_top_scorers_ranks w data df top_n :
  heap w !! data = Some df →
  (0 < top_n)%Z →
  ((∀ c, c ∈ scorer_columns → c ∈ columns df) →
   Forall (λ c, is_text c = false) (column "PTS" df) →
   ∃ r w', analyze_top_scorers data top_n w = (Ok r, w')) ∧
  ∀ r w', analyze_top_scorers data top_n w = (Ok r, w') →
    ∃ out, heap w' !! r = Some out ∧
      length (rows out) = Z.to_nat top_n `min` length (rows df) ∧
      (∀ i j a b, i < j →
         column "PTS" out !! i = Some a → column "PTS" out !! j = Some b →
         num_lt (cell_num a) (cell_num b) = false) ∧
      column "Rank" out =
        (λ k, Num (Fin (Qc_of_nat k))) <$> seq 1 (length (rows out)) ∧
      restrict scorer_columns <$> rows out
        ⊆+ restrict scorer_columns <$> rows df.
Proof.
  intros Hdf Hn. split.
  - intros Hcols Hnum.
    unfold analyze_top_scorers. mred. rewrite Hdf. mred.
    unfold select. rewrite require_columns_ok by done. simpl.
    set (picked := mkDF scorer_columns (restrict scorer_columns <$> rows df)).
    assert (column "PTS" picked = column "PTS" df) as Hpts.
    { unfold column, picked. simpl. rewrite <- list_fmap_compose.
      apply list_fmap_ext. intros i r _. simpl. apply getcell_restrict. names. }
    destruct (sort_values_ok "PTS" picked) as [sorted Hs].
    { names. } { by rewrite Hpts. }
    rewrite Hs. simpl.
    pose proof (sort_values_inv _ _ _ Hs) as (_ & Hc & _).
    unfold insert_rank, has_column. simpl. rewrite Hc. simpl.
    set (ranked := mkDF _ _).
    assert (Forall (λ c, is_text c = false) (column "PTS" ranked)) as Hr.
    { unfold ranked, column. simpl. rewrite ranked_column by done.
      rewrite decide_True by lia. apply Forall_fmap.
      eapply Forall_take. rewrite (sorted_rows_perm _ _ _ Hs).
      rewrite <- Hpts in Hnum. unfold column in Hnum.
      by apply Forall_fmap in Hnum. }
    unfold series_mean, series_max, series_min.
    rewrite (numeric_ok _ Hr). simpl. eauto.
  - intros r w' Hrun.
    destruct (analyze_top_scorers_inv _ _ _ _ _ _ Hdf Hrun)
      as (picked & sorted & ranked & Hp & Hs & Hr & Hnum & -> & Hheap).
    exists ranked. split; [rewrite Hheap; apply lookup_new|].
    apply select_inv in Hp as [Hcols ->].
    apply insert_rank_inv in Hr as [_ ->].
    unfold column in *. cbn [rows columns] in *.
    rewrite head_rows in * by lia.
    pose proof (sorted_rows_perm _ _ _ Hs) as Hperm. cbn [rows] in Hperm.
    rewrite ranked_column in * by done.
    rewrite ranked_ranks, ranks_from_one, ranked_restrict
      by (intros Hr; revert Hr; names).
    pose proof (Permutation_length Hperm) as Hlen.
    rewrite length_fmap in Hlen.
    rewrite !length_imap, length_take, Hlen.
    split; [done|]. split; [|split; [done|]].
    + intros i j a b Hij Hi Hj.
      rewrite list_lookup_fmap in Hi, Hj.
      destruct (take _ _ !! i) as [ri|] eqn:Ei; [|done].
      destruct (take _ _ !! j) as [rj|] eqn:Ej; [|done].
      injection Hi as <-. injection Hj as <-.
      rewrite Forall_fmap, Forall_forall in Hnum.
      pose proof (Hnum _ (list_elem_of_lookup_2 _ _ _ Ei)) as Hti.
      pose proof (Hnum _ (list_elem_of_lookup_2 _ _ _ Ej)) as Htj.
      apply lookup_take_Some in Ei as [Ei _].
      apply lookup_take_Some in Ej as [Ej _].
      pose proof (sorted_rows_desc _ _ _ _ _ _ _ Hs Hij Ei Ej) as Hd.
      apply (desc_not_below (getcell "PTS" ri, ri) (getcell "PTS" rj, rj));
        done.
    + etransitivity.
      * apply fmap_submseteq, sublist_submseteq, sublist_take.
      * apply Permutation_submseteq.
        etransitivity; [apply fmap_Permutation, Hperm|].
        assert (restrict scorer_columns <$> (restrict scorer_columns <$> rows df)
                = restrict scorer_columns <$> rows df) as ->; [|done].
        rewrite <- list_fmap_compose.
        apply list_fmap_ext. intros i r _. simpl.
        apply restrict_ext; [done|]. intros c Hc. by apply getcell_restrict.
Qed.

End top_scorers.

(** ** Ties *)







Lemma snd_keyed c (l : list Row) : snd <$> keyed c l = l.
Proof.
  unfold keyed. rewrite <- list_fmap_compose. apply list_fmap_id.
Qed.




Section ties.
Context `{Library}.


End ties.

(** ** Groups *)

Lemma seen_complete vs :
  Forall (λ v, isna v = false) vs → filter (λ v, isna v = false) vs = vs.
Proof.
  induction 1 as [|v vs Hv _ IH]; [done|].
  rewrite filter_cons, decide_True by done. by f_equal.
Qed.

Lemma observed_complete vs :
  Forall (λ v, isna v = false ∧ is_text v = false) vs →
  observed vs = cell_num <$> vs.
Proof.
  unfold observed. induction 1 as [|v vs [Hv Ht] _ IH]; [done|].
  csimpl. rewrite filter_cons, decide_True, IH; [done|].
  by destruct v as [s|[]|].
Qed.


Lemma uniques_keys s c : c ∈ key_of <$> uniques s ↔ c ∈ key_of <$> s.
Proof.
  induction s as [|y s IH]; [done|]. cbn [uniques].
  rewrite !fmap_cons, !elem_of_cons, <- IH. split.
  - intros [->|(z & -> & [_ Hz]%list_elem_of_filter)%list_elem_of_fmap];
      [by left|right]. apply list_elem_of_fmap. eauto.
  - intros [->|(z & -> & Hz)%list_elem_of_fmap]; [by left|].
    destruct (decide (key_of z = key_of y)) as [Hzy|Hzy]; [by left|right].
    apply list_elem_of_fmap. exists z. split; [done|].
    by apply list_elem_of_filter.
Qed.

Lemma uniques_NoDup s : NoDup (key_of <$> uniques s).
Proof.
  induction s as [|y s IH]; [constructor|]. cbn [uniques]. csimpl.
  constructor.
  - by intros (z & Hz & [Hne _]%list_elem_of_filter)%list_elem_of_fmap.
  - eapply sublist_NoDup; [exact IH|]. apply fmap_sublist, sublist_filter.
Qed.


Lemma group_keys_cover by_ l r :
  r ∈ l → isna (getcell by_ r) = false →
  key_of (getcell by_ r) ∈ key_of <$> group_keys by_ l.
Proof.
  intros Hr Hna. unfold group_keys. rewrite merge_sort_Permutation.
  apply uniques_keys, list_elem_of_fmap. eexists. split; [done|].
  apply list_elem_of_filter. split; [done|]. apply list_elem_of_fmap. eauto.
Qed.

Lemma group_keys_NoDup by_ l : NoDup (key_of <$> group_keys by_ l).
Proof.
  unfold group_keys. rewrite merge_sort_Permutation. apply uniques_NoDup.
Qed.

(** ** Team performance: what a run consists of *)


Lemma no_text_inv s :
  bool_decide (Exists (λ c, is_text c) s) = false →
  Forall (λ c, is_text c = false) s.
Proof.
  intros Hs%bool_decide_eq_false. apply Forall_forall. intros c Hc.
  destruct (is_text c) eqn:E; [|done]. destruct Hs.
  apply Exists_exists. exists c. by rewrite E.
Qed.

Lemma no_text_ok s :
  Forall (λ c, is_text c = false) s →
  bool_decide (Exists (λ c, is_text c) s) = false.
Proof.
  intros Hs. apply bool_decide_eq_false.
  intros (c & Hc & Ht)%Exists_exists. rewrite Forall_forall in Hs.
  by rewrite (Hs c Hc) in Ht.
Qed.

Section team_runs.
Context `{Library}.

Lemma getitem_inv c df s : getitem c df = Ok s → c ∈ columns df ∧ s = column c df.
Proof.
  unfold getitem, has_column. case_bool_decide; [|done]. by intros [= <-].
Qed.

Lemma getitem_ok c df : c ∈ columns df → getitem c df = Ok (column c df).
Proof. intros Hc. unfold getitem, has_column. by rewrite bool_decide_eq_true_2. Qed.

Lemma series_div_inv df s :
  series_div (column "PTS" df) (column "G" df) = Ok s →
  setitem "PPG" s df = with_ppg df ∧
  Forall (λ c, is_text c = false) (column "PTS" df) ∧
  Forall (λ c, is_text c = false) (column "G" df).
Proof.
  unfold series_div. destruct (bool_decide _) eqn:E; [done|]. intros [= <-].
  apply no_text_inv, Forall_app in E. split; [|done].
  unfold setitem, with_ppg, column, ppg. f_equal.
  induction (rows df) as [|r l IH]; [done|]. csimpl. by rewrite IH.
Qed.

Lemma series_div_ok df :
  Forall (λ c, is_text c = false) (column "PTS" df) →
  Forall (λ c, is_text c = false) (column "G" df) →
  ∃ s, series_div (column "PTS" df) (column "G" df) = Ok s.
Proof.
  intros Hp Hg. unfold series_div. rewrite no_text_ok; [eauto|].
  by apply Forall_app.
Qed.

Lemma analyze_team_performance_inv w data df r w' :
  heap w !! data = Some df →
  analyze_team_performance data w = (Ok r, w') →
  ∃ grouped renamed sorted ranked,
    "PTS" ∈ columns df ∧ "G" ∈ columns df ∧
    Forall (λ c, is_text c = false) (column "PTS" df) ∧
    Forall (λ c, is_text c = false) (column "G" df) ∧
    groupby_agg "Tm" team_aggregates (with_ppg df) = Ok grouped ∧
    set_columns team_columns grouped = Ok renamed ∧
    sort_values "Avg_PPG_Per_Player" renamed = Ok sorted ∧
    insert_rank "Rank" sorted = Ok ranked ∧
    rows ranked ≠ [] ∧
    r = length (heap w) ∧
    heap w' = <[data := with_ppg df]> (heap w) ++ [ranked].
Proof.
  intros Hdf Hrun. unfold analyze_team_performance in Hrun. mred_in Hrun.
  rewrite Hdf in Hrun. mred_in Hrun.
  mstep Hrun. mstep Hrun. mstep Hrun.
  rewrite Hdf in Hrun. mred_in Hrun.
  rewrite list_lookup_insert_eq in Hrun by (by eapply lookup_lt_Some).
  mred_in Hrun.
  apply getitem_inv in E as [Hpts ->]. apply getitem_inv in E0 as [Hg ->].
  apply series_div_inv in E1 as (E1 & Tp & Tg). rewrite E1 in Hrun.
  mstep Hrun. mstep Hrun. mstep Hrun. mstep Hrun. mstep Hrun. mstep Hrun.
  mstep Hrun.
  injection Hrun as <- <-. rewrite length_insert.
  eexists _, _, _, _. repeat split; try done.
  unfold iloc_first in E4. by destruct (rows a3).
Qed.



Lemma team_rows_cells l :
  Forall2 (λ x k,
      let squad := members "Tm" k l in
      getcell "Team" x = k ∧
      getcell "Avg_PPG_Per_Player" x =
        Num (aggregate AggMean (getcell "PPG" <$> squad)) ∧
      getcell "Total_Players" x =
        Num (aggregate AggCount (getcell "Player" <$> squad)) ∧
      getcell "Total_Points" x =
        Num (aggregate AggSum (getcell "PTS" <$> squad)) ∧
      getcell "Avg_Games_Played" x =
        Num (aggregate AggMean (getcell "G" <$> squad)))
    (team_rows l) (group_keys "Tm" l).
Proof.
  unfold team_rows. apply Forall2_fmap_l.
  eapply Forall2_impl; [apply imap_Forall2|].
  intros y k [i ->]. repeat split; reflexivity.
Qed.

Lemma groupby_agg_inv d g :
  groupby_agg "Tm" team_aggregates d = Ok g →
  set_columns team_columns g = Ok (mkDF team_columns (team_rows (rows d))).
Proof.
  unfold groupby_agg.
  destruct (require_columns ["Tm"] d); [|done]. simpl.
  destruct (require_columns _ d); [|done]. simpl.
  case_bool_decide; [done|]. by intros [= <-].
Qed.

Lemma groupby_agg_ok d :
  (∀ c, c ∈ ["Tm"; "PPG"; "Player"; "PTS"; "G"] → c ∈ columns d) →
  (∀ c, c ∈ ["PPG"; "PTS"; "G"] →
        Forall (λ v, is_text v = false) (column c d)) →
  ∃ g, groupby_agg "Tm" team_aggregates d = Ok g.
Proof.
  intros Hcols Hnum. unfold groupby_agg.
  rewrite !require_columns_ok; simpl.
  - rewrite bool_decide_eq_false_2; [eauto|].
    intros ([c how] & Hin & Ht)%Exists_exists. simpl in Ht.
    assert (c ∈ ["PPG"; "PTS"; "G"]) as Hc.
    { revert Hin. unfold team_aggregates. rewrite !filter_cons. simpl.
      rewrite !elem_of_cons. intros [[= -> _]|[[= -> _]|[[= -> _]|[]%elem_of_nil]]];
        names. }
    apply Exists_exists in Ht as (v & Hv & Ht).
    specialize (Hnum c Hc). rewrite Forall_forall in Hnum.
    by rewrite (Hnum v Hv) in Ht.
  - intros c Hc. apply Hcols. revert Hc. simpl. rewrite !elem_of_cons.
    intros [->|[->|[->|[->|[]%elem_of_nil]]]]; names.
  - intros c ->%list_elem_of_singleton. apply Hcols. names.
Qed.

End team_runs.

(** ** Team performance: the aggregates *)

Section team_aggregates.
Context `{Library}.

Lemma members_with_ppg k df :
  members "Tm" k (rows (with_ppg df)) =
  (λ r, setcell "PPG" (Num (ppg r)) r) <$> members "Tm" k (rows df).
Proof.
  unfold members, with_ppg. cbn [rows].
  induction (rows df) as [|r l IH]; [done|]. csimpl.
  rewrite !filter_cons, getcell_setcell_ne by done.
  case_decide; csimpl; by rewrite IH.
Qed.

Lemma team_rows_summary df x :
  cleaned df → x ∈ team_rows (rows (with_ppg df)) → team_summary df x.
Proof.
  intros [_ Hrows] Hx.
  pose proof (team_rows_cells (rows (with_ppg df))) as Hcells.
  apply list_elem_of_lookup in Hx as [i Hi].
  destruct (Forall2_lookup_l _ _ _ _ _ Hcells Hi)
    as (k & Hk & Hteam & Havg & Hcount & Hsum & Hgames).
  unfold team_summary. rewrite Hteam, Havg, Hcount, Hsum, Hgames.
  rewrite members_with_ppg, <- !list_fmap_compose.
  change (filter _ (rows df)) with (members "Tm" k (rows df)).
  set (squad := members "Tm" k (rows df)).
  assert (Forall (λ r, isna (getcell "Player" r) = false ∧
                       isna (getcell "PTS" r) = false ∧
                       is_text (getcell "PTS" r) = false) squad) as Hsquad.
  { apply Forall_forall. intros r [_ Hr]%list_elem_of_filter.
    rewrite Forall_forall in Hrows. destruct (Hrows r Hr) as (?&?&?&?&?). done. }
  cbn [aggregate]. repeat split.
  - rewrite seen_complete, length_fmap; [done|].
    apply Forall_fmap. eapply Forall_impl; [done|]. intros r Hr. simpl in *.
    rewrite getcell_setcell_ne by done. tauto.
  - rewrite observed_complete, <- list_fmap_compose.
    + do 2 f_equal. apply list_fmap_ext. intros j r _. simpl.
      by rewrite getcell_setcell_ne.
    + apply Forall_fmap. eapply Forall_impl; [done|]. intros r Hr. simpl in *.
      rewrite getcell_setcell_ne by done. tauto.
  - unfold observed. rewrite <- list_fmap_compose. do 3 f_equal.
    apply list_fmap_ext. intros j r _. simpl. by rewrite getcell_setcell.
  - unfold observed. rewrite <- list_fmap_compose. do 3 f_equal.
    apply list_fmap_ext. intros j r _. simpl. by rewrite getcell_setcell_ne.
Qed.

Lemma team_rows_teams l : getcell "Team" <$> team_rows l = group_keys "Tm" l.
Proof.
  transitivity (id <$> group_keys "Tm" l); [|apply list_fmap_id].
  apply Forall2_fmap_eq. eapply Forall2_impl; [apply team_rows_cells|].
  simpl. tauto.
Qed.

Lemma team_rows_numbers l :
  Forall (λ c, is_text c = false) (getcell "Avg_PPG_Per_Player" <$> team_rows l).
Proof.
  apply Forall_fmap. eapply Forall2_Forall_l; [apply team_rows_cells|].
  apply Forall_forall. intros k _ x (_ & Hx & _). simpl. by rewrite Hx.
Qed.

Lemma team_summary_ranked df v x :
  team_summary df x → team_summary df (setcell "Rank" v x).
Proof. unfold team_summary. by rewrite !getcell_setcell_ne by done. Qed.



Lemma team_keys_cover df r :
  cleaned df → r ∈ rows df →
  key_of (getcell "Tm" r) ∈ key_of <$> group_keys "Tm" (rows (with_ppg df)).
Proof.
  intros [_ Hrows] Hr.
  rewrite <- (getcell_setcell_ne "PPG" "Tm" (Num (ppg r)) r) by done.
  apply group_keys_cover.
  - unfold with_ppg. cbn [rows]. apply list_elem_of_fmap. eauto.
  - rewrite getcell_setcell_ne by done.
    rewrite Forall_forall in Hrows. destruct (Hrows r Hr) as (?&?&?). done.
Qed.

Lemma with_ppg_columns df c : c ∈ columns df → c ∈ columns (with_ppg df).
Proof.
  intros Hc. unfold with_ppg. cbn [columns].
  destruct (has_column "PPG" df); [done|]. apply elem_of_app. by left.
Qed.

Lemma with_ppg_has_ppg df : "PPG" ∈ columns (with_ppg df).
Proof.
  unfold with_ppg, has_column. cbn [columns]. case_bool_decide; [done|].
  apply elem_of_app. right. by apply list_elem_of_singleton.
Qed.

Lemma with_ppg_column df c :
  c ≠ "PPG" → column c (with_ppg df) = column c df.
Proof.
  intros Hc. unfold column, with_ppg. cbn [rows].
  rewrite <- list_fmap_compose. apply list_fmap_ext.
  intros i r _. simpl. by rewrite getcell_setcell_ne.
Qed.

Lemma with_ppg_numbers df :
  Forall (λ v, is_text v = false) (column "PPG" (with_ppg df)).
Proof.
  unfold column, with_ppg. cbn [rows]. rewrite <- list_fmap_compose.
  apply Forall_fmap, Forall_forall. intros r _. simpl.
  by rewrite getcell_setcell.
Qed.

Lemma cleaned_numbers df c :
  cleaned df → c ∈ ["PTS"; "G"] →
  Forall (λ v, is_text v = false) (column c df).
Proof.
  intros [_ Hrows] Hc. unfold column. apply Forall_fmap.
  eapply Forall_impl; [done|]. intros r (_&_&_&Hp&Hg). simpl.
  apply elem_of_cons in Hc as [->|Hc]; [done|].
  by apply list_elem_of_singleton in Hc as ->.
Qed.


(** On a cleaned table the run reaches the sort: the caller's table has
    received its [PPG] column and the aggregate is sorted. *)
Lemma team_run_sorted w data df :
  heap w !! data = Some df → cleaned df →
  ∃ sorted,
    sort_values "Avg_PPG_Per_Player"
      (mkDF team_columns (team_rows (rows (with_ppg df)))) = Ok sorted ∧
    analyze_team_performance data w =
    report_teams sorted
      (mkWorld (<[data := with_ppg df]> (heap w))
               (console w ++ [Header StTeams]) (artifacts w) (disk w)).
Proof.
  intros Hdf Hclean. pose proof Hclean as [Hcols Hrows].
  unfold analyze_team_performance. mred. rewrite Hdf. mred.
  rewrite !getitem_ok by (apply Hcols; names). mred.
  destruct (series_div_ok df) as [s Hs];
    [apply cleaned_numbers; [done|names]..|].
  rewrite Hs. mred. rewrite Hdf. mred.
  rewrite list_lookup_insert_eq by (by eapply lookup_lt_Some). mred.
  apply series_div_inv in Hs as (-> & _ & _).
  destruct (groupby_agg_ok (with_ppg df)) as [g Hg].
  { intros c. rewrite !elem_of_cons.
    intros [->|[->|[->|[->|[->|[]%elem_of_nil]]]]];
      first [apply with_ppg_has_ppg | apply with_ppg_columns, Hcols; names]. }
  { intros c. rewrite !elem_of_cons. intros [->|[->|[->|[]%elem_of_nil]]].
    - apply with_ppg_numbers.
    - rewrite with_ppg_column by done. apply cleaned_numbers; [done|names].
    - rewrite with_ppg_column by done. apply cleaned_numbers; [done|names]. }
  rewrite Hg. mred. rewrite (groupby_agg_inv _ _ Hg). mred.
  set (renamed := mkDF team_columns _).
  destruct (sort_values_ok "Avg_PPG_Per_Player" renamed) as [sorted Hsort].
  { names. } { apply team_rows_numbers. }
  exists sorted. split; [done|]. rewrite Hsort. by mred.
Qed.

Lemma team_run_ok w data df :
  heap w !! data = Some df → cleaned df → rows df ≠ [] →
  ∃ r w', analyze_team_performance data w = (Ok r, w').
Proof.
  intros Hdf Hclean Hne.
  destruct (team_run_sorted _ _ _ Hdf Hclean) as (sorted & Hsort & ->).
  pose proof (sort_values_inv _ _ _ Hsort) as (_ & Hc & _).
  pose proof (sorted_rows_perm _ _ _ Hsort) as Hperm.
  cbn [rows columns] in Hperm, Hc.
  unfold report_teams. mred.
  unfold insert_rank, has_column. rewrite Hc.
  rewrite bool_decide_eq_false_2 by (intros Hr; revert Hr; names). mred.
  assert (rows sorted ≠ []) as Hsome.
  { intros Hnil. rewrite Hnil in Hperm. apply Permutation_nil_l in Hperm.
    assert (group_keys "Tm" (rows (with_ppg df)) = []) as Hkeys
      by (by rewrite <- team_rows_teams, <- Hperm).
    destruct (rows df) as [|r0 l] eqn:Hr; [done|].
    assert (key_of (getcell "Tm" r0)
              ∈ key_of <$> group_keys "Tm" (rows (with_ppg df))) as Hin.
    { apply team_keys_cover; [done|]. rewrite Hr. left. }
    rewrite Hkeys in Hin. by apply elem_of_nil in Hin. }
  remember (imap (λ i r, setcell "Rank" (rank_cell i) r) (rows sorted))
    as rr eqn:Hrr.
  assert (Forall (λ c, is_text c = false)
            (getcell "Avg_PPG_Per_Player" <$> rr)) as Hnum.
  { subst rr. rewrite ranked_column by done. apply Forall_fmap.
    pose proof (team_rows_numbers (rows (with_ppg df))) as Hnum.
    apply Forall_fmap in Hnum. rewrite Forall_forall in Hnum.
    apply Forall_forall. intros y Hy. apply Hnum. by rewrite <- Hperm. }
  assert (rr ≠ []) as Hrne.
  { subst rr. intros Hnil. apply Hsome. apply (f_equal length) in Hnil.
    rewrite length_imap in Hnil. by apply nil_length_inv. }
  unfold iloc_first, iloc_last, series_mean, column. cbn [rows].
  rewrite (numeric_ok _ Hnum).
  destruct rr as [|x l]; [done|].
  destruct (last (x :: l)) eqn:Hlast; [|by apply last_None in Hlast].
  simpl. eauto.
Qed.

End team_aggregates.

(** ** Division by zero games *)

Section team_claims.
Context `{Library}.

Lemma cell_div_zero x y :
  cell_num y = Fin 0 →
  (num_lt (Fin 0) (cell_num x) = true → cell_div x y = infinity (negative y)) ∧
  (num_lt (cell_num x) (Fin 0) = true →
   cell_div x y = infinity (negb (negative y))) ∧
  (cell_num x = Fin 0 → cell_div x y = NaN).
Proof.
  intros Hy. unfold cell_div. rewrite Hy.
  destruct x as [s|[p| | |]|]; cbn [cell_num negative num_lt];
    rewrite ?decide_True by done;
    repeat split; try done.
  - rewrite bool_decide_eq_true. intros Hp. rewrite decide_False.
    + rewrite bool_decide_eq_false_2; [done|].
      by apply Qcle_not_lt, Qclt_le_weak.
    + intros ->. exact (Qcle_not_lt _ _ (Qcle_refl _) Hp).
  - rewrite bool_decide_eq_true. intros Hp. rewrite decide_False.
    + rewrite bool_decide_eq_true_2 by done. by destruct (negative y).
    + intros ->. exact (Qcle_not_lt _ _ (Qcle_refl _) Hp).
  - intros [= ->]. by rewrite decide_True.
Qed.

Lemma zero_cell c :
  is_text c = false → cell_num c = Fin 0 →
  negative c = bool_decide (c = MinusZero).
Proof.
  destruct c as [s|[q| | |]|]; try done. intros _ [= ->]. by vm_compute.
Qed.

Lemma sorted_teams df sorted :
  sort_values "Avg_PPG_Per_Player"
    (mkDF team_columns (team_rows (rows (with_ppg df)))) = Ok sorted →
  getcell "Team" <$> rows sorted ≡ₚ group_keys "Tm" (rows (with_ppg df)).
Proof.
  intros Hperm%sorted_rows_perm. cbn [rows] in Hperm.
  rewrite <- team_rows_teams. by apply fmap_Permutation.
Qed.

Lemma sorted_summary df sorted y :
  cleaned df →
  sort_values "Avg_PPG_Per_Player"
    (mkDF team_columns (team_rows (rows (with_ppg df)))) = Ok sorted →
  y ∈ rows sorted → team_summary df y.
Proof.
  intros Hclean Hperm%sorted_rows_perm Hy. cbn [rows] in Hperm.
  apply team_rows_summary; [done|].
  eapply elem_of_Permutation_proper; [symmetry; exact Hperm|done].
Qed.

(** The table a run of [analyze_team_performance] returns, and the
    caller's table after it. *)
Lemma team_run_result w data df r w' :
  heap w !! data = Some df →
  analyze_team_performance data w = (Ok r, w') →
  ∃ sorted,
    sort_values "Avg_PPG_Per_Player"
      (mkDF team_columns (team_rows (rows (with_ppg df)))) = Ok sorted ∧
    rows sorted ≠ [] ∧
    heap w' !! data = Some (with_ppg df) ∧
    heap w' !! r =
      Some (mkDF ("Rank" :: team_columns)
              (imap (λ i x, setcell "Rank" (rank_cell i) x) (rows sorted))).
Proof.
  intros Hdf Hrun.
  destruct (analyze_team_performance_inv _ _ _ _ _ Hdf Hrun)
    as (g & rn & sorted & ranked & _ & _ & _ & _ & Hg & Hrn & Hs & Hr & Hne
          & -> & Hheap).
  rewrite (groupby_agg_inv _ _ Hg) in Hrn. injection Hrn as <-.
  pose proof (sort_values_inv _ _ _ Hs) as (_ & Hc & _).
  apply insert_rank_inv in Hr as [_ ->]. cbn [rows columns] in *.
  exists sorted. split; [done|]. rewrite Hheap. split; [|split].
  - intros Hnil. by rewrite Hnil in Hne.
  - apply lookup_app_l_Some, list_lookup_insert_eq. by eapply lookup_lt_Some.
  - rewrite <- (length_insert (heap w) data (with_ppg df)), Hc.
    apply lookup_new.
Qed.



(** C5, as the code has it.  A run of [analyze_team_performance] that
    returns leaves the caller's table changed: the reference the caller
    passed, and passes on to the report, now names the table with the
    [PPG] column. *)
Theorem analyze_team_performance_changes_caller w data df r w' :
  heap w !! data = Some df →
  analyze_team_performance data w = (Ok r, w') →
  heap w' !! data = Some (with_ppg df) ∧
  column "PPG" (with_ppg df) = (λ x, Num (ppg x)) <$> rows df ∧
  ("PPG" ∉ columns df → columns (with_ppg df) = columns df ++ ["PPG"]).
Proof.
  intros Hdf Hrun.
  destruct (team_run_result _ _ _ _ _ Hdf Hrun) as (_ & _ & _ & Hcaller & _).
  split; [done|]. split.
  - unfold column, with_ppg. cbn [rows]. rewrite <- list_fmap_compose.
    apply list_fmap_ext. intros i x _. simpl. apply getcell_setcell.
  - intros Hno. unfold with_ppg, has_column. cbn [columns].
    by rewrite bool_decide_eq_false_2.
Qed.

(** C10.  On a table without rows [analyze_team_performance] returns no
    table: it raises.  When the columns it reads exist, the error is the
    [IndexError] of the first [iloc[0]], raised after the empty ranking
    has been printed. *)
Theorem analyze_team_performance_empty w data df :
  heap w !! data = Some df →
  rows df = [] →
  (∃ e w', analyze_team_performance data w = (Err e, w')) ∧
  ((∀ c, c ∈ critical → c ∈ columns df) →
   ∃ w', analyze_team_performance data w = (Err IndexError, w') ∧
         console w' = console w ++
           [Header StTeams; Table StTeams (mkDF ("Rank" :: team_columns) [])]).
Proof.
  intros Hdf Hrows.
  assert (∀ sorted,
    sort_values "Avg_PPG_Per_Player"
      (mkDF team_columns (team_rows (rows (with_ppg df)))) = Ok sorted →
    rows sorted = []) as Hnone.
  { intros sorted Hs. apply sorted_rows_perm in Hs. cbn [rows] in Hs.
    unfold with_ppg in Hs. cbn [rows] in Hs. rewrite Hrows in Hs.
    by apply Permutation_nil_r in Hs. }
  split.
  - destruct (analyze_team_performance data w) as [[r|e] w'] eqn:Hrun; [|eauto].
    destruct (team_run_result _ _ _ _ _ Hdf Hrun) as (sorted & Hs & Hne & _).
    by apply Hnone in Hs.
  - intros Hcols.
    destruct (team_run_sorted w data df Hdf) as (sorted & Hs & ->).
    { split; [done|]. rewrite Hrows. constructor. }
    pose proof (sort_values_inv _ _ _ Hs) as (_ & Hc & _).
    cbn [columns] in Hc.
    unfold report_teams. mred. unfold insert_rank, has_column. rewrite Hc.
    rewrite bool_decide_eq_false_2 by (intros Hr; revert Hr; names). mred.
    rewrite (Hnone _ Hs). unfold iloc_first. cbn [rows imap].
    eexists. split; [done|]. cbn [console]. by rewrite <- app_assoc.
Qed.


(** C9.  A row with zero games does not stop the analysis and is not set
    aside.  Its points per game are what float64 division gives: an
    infinity when the points are not zero, positive when the points and
    the zero have the same sign and negative otherwise, and NaN when the
    points are zero.  The run returns, the row is in the caller's table
    with that value, it is among the rows of its team, and its team has a
    row in the result whose count, sum and means are taken over those
    rows; when the points are not zero the team's average is not a finite
    number. *)
Theorem zero_games_rows_are_aggregated w data df x :
  heap w !! data = Some df →
  cleaned df →
  x ∈ rows df →
  cell_num (getcell "G" x) = Fin 0 →
  let points := cell_num (getcell "PTS" x) in
  let minus := bool_decide (getcell "G" x = MinusZero) in
  (num_lt (Fin 0) points = true → ppg x = if minus then NInf else PInf) ∧
  (num_lt points (Fin 0) = true → ppg x = if minus then PInf else NInf) ∧
  (points = Fin 0 → ppg x = NaN) ∧
  ∃ r w' out,
    analyze_team_performance data w = (Ok r, w') ∧
    heap w' !! r = Some out ∧
    (∃ caller, heap w' !! data = Some caller ∧
               setcell "PPG" (Num (ppg x)) x ∈ rows caller) ∧
    ∃ y, y ∈ rows out ∧
         x ∈ filter (λ r, key_of (getcell "Tm" r) = key_of (getcell "Team" y))
               (rows df) ∧
         team_summary df y ∧
         (points ≠ Fin 0 →
          is_finite (cell_num (getcell "Avg_PPG_Per_Player" y)) = false).
Proof.
  intros Hdf Hclean Hx Hg points minus.
  assert (is_text (getcell "G" x) = false ∧ is_text (getcell "PTS" x) = false
          ∧ isna (getcell "PTS" x) = false) as (Tg & Tp & Np).
  { destruct Hclean as [_ Hrows]. rewrite Forall_forall in Hrows.
    destruct (Hrows x Hx) as (?&?&?&?&?). done. }
  destruct (cell_div_zero (getcell "PTS" x) _ Hg) as (Hpos & Hneg & Hzero).
  rewrite (zero_cell _ Tg Hg) in Hpos, Hneg. fold minus in Hpos, Hneg.
  fold points in Hpos, Hneg, Hzero. fold (ppg x) in Hpos, Hneg, Hzero.
  assert (points ≠ Fin 0 → ppg x = PInf ∨ ppg x = NInf) as Hinf.
  { intros Hp.
    destruct (num_lt (Fin 0) points) eqn:E1;
      [rewrite Hpos by done; destruct minus; auto|].
    destruct (num_lt points (Fin 0)) eqn:E2;
      [rewrite Hneg by done; destruct minus; auto|].
    exfalso. subst points.
    destruct (getcell "PTS" x) as [s|[p| | |]|]; try done.
    simpl in *. apply bool_decide_eq_false in E1, E2.
    apply Hp. f_equal. apply Qcle_antisym; by apply Qcnot_lt_le. }
  split; [by destruct minus; auto|]. split; [by destruct minus; auto|].
  split; [done|].
  destruct (team_run_ok w data df) as (r & w' & Hrun);
    [done|done|by intros Hnil; rewrite Hnil in Hx; apply elem_of_nil in Hx|].
  destruct (team_run_result _ _ _ _ _ Hdf Hrun)
    as (sorted & Hs & _ & Hcaller & Hout).
  eexists r, w', _. split; [done|]. split; [exact Hout|]. split.
  { eexists. split; [exact Hcaller|]. unfold with_ppg. cbn [rows].
    apply list_elem_of_fmap. by exists x. }
  assert (key_of (getcell "Tm" x) ∈ key_of <$> (getcell "Team" <$> rows sorted))
    as Hteam.
  { rewrite (sorted_teams _ _ Hs). by apply team_keys_cover. }
  apply list_elem_of_fmap in Hteam as (t & Ht & (y0 & -> & Hin)%list_elem_of_fmap).
  apply list_elem_of_lookup in Hin as [i Hi].
  exists (setcell "Rank" (rank_cell i) y0). cbn [rows].
  pose proof (sorted_summary _ _ _ Hclean Hs (list_elem_of_lookup_2 _ _ _ Hi))
    as Hsum.
  rewrite !getcell_setcell_ne by done.
  assert (x ∈ filter (λ r, key_of (getcell "Tm" r) = key_of (getcell "Team" y0))
                (rows df)) as Hmem.
  { by apply list_elem_of_filter. }
  split; [|split; [done|split; [by apply team_summary_ranked|]]].
  - apply list_elem_of_lookup. exists i. by rewrite list_lookup_imap, Hi.
  - intros Hp. specialize (Hinf Hp).
    destruct Hsum as (_ & _ & -> & _). simpl.
    apply (group_mean_infinite _ (ppg x)); [|by destruct Hinf as [->| ->]].
    apply list_elem_of_filter. split; [by destruct Hinf as [->| ->]|].
    apply list_elem_of_fmap. by exists x.
Qed.

End team_claims.

(** ** The claims on the sample tables *)

Ltac sample_cleaned :=
  split;
  [ intros c; unfold critical; rewrite !elem_of_cons;
    intros [->|[->|[->|[->|[]%elem_of_nil]]]]; names
  | repeat (constructor; [repeat split; reflexivity|]); constructor ].

(** The run of a concrete world, from the value it returns. *)
Lemma run_eq {A} (m : M A) (w : world) (a : A) :
  (m w).1 = Ok a → m w = (Ok a, (m w).2).
Proof. destruct (m w) as [r w']. simpl. by intros ->. Qed.

Section sample_runs.

(** On the sample tables the library is the one whose sort is stable,
    where no other is named. *)
#[local] Existing Instance stable_library.


(** Scenario A of the specification: team X averages 20 points per game
    over 3 players and 60 points, team Y averages 5 over 1 player, and X
    is ranked above Y. *)
Example two_teams_ranking :
  bool_decide
    ((λ d, (column "Team" d, column "Avg_PPG_Per_Player" d,
            column "Total_Players" d, column "Total_Points" d))
       <$> heap (analyze_team_performance (H := stable_library) 0
                   (holding [two_teams])).2 !! 1
     = Some ([Text "X"; Text "Y"], [points 20; points 5],
             [points 3; points 1], [points 60; points 5])) = true.
Proof. vm_compute. reflexivity. Qed.

(** The two top scorers of the sample. *)
Lemma analyze_top_scorers_ranks_witness :
  ((∀ c, c ∈ scorer_columns → c ∈ columns two_teams) →
   Forall (λ c, is_text c = false) (column "PTS" two_teams) →
   ∃ r w', analyze_top_scorers (H := stable_library) 0 2
             (holding [two_teams]) = (Ok r, w')) ∧
  ∀ r w', analyze_top_scorers (H := stable_library) 0 2
            (holding [two_teams]) = (Ok r, w') →
    ∃ out, heap w' !! r = Some out ∧
      length (rows out) = Z.to_nat 2 `min` length (rows two_teams) ∧
      (∀ i j a b, i < j →
         column "PTS" out !! i = Some a → column "PTS" out !! j = Some b →
         num_lt (cell_num a) (cell_num b) = false) ∧
      column "Rank" out =
        (λ k, Num (Fin (Qc_of_nat k))) <$> seq 1 (length (rows out)) ∧
      restrict scorer_columns <$> rows out
        ⊆+ restrict scorer_columns <$> rows two_teams.
Proof.
  apply (analyze_top_scorers_ranks (H := stable_library)
           (holding [two_teams]) 0 two_teams 2); [reflexivity | lia].
Defined.

(** Scenario B of the specification, on the sample: asked for two rows,
    the 30-point season is ranked first and the 20-point season second. *)
Example two_teams_top_two :
  bool_decide
    ((λ d, (column "Player" d, column "PTS" d, column "Rank" d))
       <$> heap (analyze_top_scorers (H := stable_library) 0 2
                   (holding [two_teams])).2 !! 1
     = Some ([Text "Cy"; Text "Bob"], [points 30; points 20],
             [points 1; points 2])) = true.
Proof. vm_compute. reflexivity. Qed.

(** Cleaning the table whose games are not a number. *)
Lemma clean_data_shrinks_witness :
  ((∀ c, c ∈ critical → c ∈ columns unparsed_games) →
     ∃ r w', clean_data (H := stable_library) 0
               (holding [unparsed_games]) = (Ok r, w')) ∧
  ∀ r w', clean_data (H := stable_library) 0
            (holding [unparsed_games]) = (Ok r, w') →
    ∃ out, heap w' !! r = Some out ∧
      length (rows out) ≤ length (rows unparsed_games) ∧
      label <$> rows out `sublist_of` label <$> rows unparsed_games ∧
      (∀ r1, r1 ∈ rows out → ∃ r0, r0 ∈ rows unparsed_games ∧
          label r1 = label r0 ∧
          ∀ c, c ∉ numeric_columns → getcell c r1 = getcell c r0) ∧
      columns out = columns unparsed_games.
Proof.
  apply (clean_data_shrinks (H := stable_library)
           (holding [unparsed_games]) 0 unparsed_games); reflexivity.
Defined.

(** C3, on the code.  A row whose games are text that is no number
    passes the first filter, has its games converted to a missing value,
    and is kept by the second filter, which looks at the points alone. *)
Theorem clean_data_keeps_missing_games :
  (clean_data (H := stable_library) 0 (holding [unparsed_games])).1 = Ok 1 ∧
  (λ d, (column "Player" d, column "G" d))
    <$> heap (clean_data (H := stable_library) 0
                (holding [unparsed_games])).2 !! 1
  = Some ([Text "Ann"], [Num NaN]).
Proof. split; vm_compute; reflexivity. Qed.

(** Scenarios C and D of the specification: the row without a player and
    the row whose points are not a number are dropped; the points and
    games written as numerals are converted. *)
Example clean_data_drops_incomplete :
  bool_decide
    ((λ d, (label <$> rows d, column "PTS" d, column "G" d))
       <$> heap (clean_data (H := stable_library) 0 (holding [incomplete])).2
           !! 1
     = Some ([0; 3], [points 10; points 5], [points 1; points 2])) = true.
Proof. vm_compute. reflexivity. Qed.

(** C6, on the code.  Cleaning the cleaned table again removes the row
    whose games the first cleaning turned into a missing value: the
    three tables of the heap have 1, 1 and 0 rows. *)
Theorem clean_data_twice_removes_more :
  ((let! once := clean_data (H := stable_library) 0 in
    clean_data (H := stable_library) once)
     (holding [unparsed_games])).1 = Ok 2 ∧
  (λ d, length (rows d))
    <$> heap ((let! once := clean_data (H := stable_library) 0 in
               clean_data (H := stable_library) once)
                (holding [unparsed_games])).2
  = [1; 1; 0].
Proof. split; vm_compute; reflexivity. Qed.

(** The caller's table after the team analysis of the sample. *)
Lemma analyze_team_performance_changes_caller_witness :
  heap (analyze_team_performance (H := stable_library) 0
          (holding [two_teams])).2 !! 0 = Some (with_ppg two_teams) ∧
  column "PPG" (with_ppg two_teams) = (λ x, Num (ppg x)) <$> rows two_teams ∧
  ("PPG" ∉ columns two_teams →
   columns (with_ppg two_teams) = columns two_teams ++ ["PPG"]).
Proof.
  apply (analyze_team_performance_changes_caller (H := stable_library)
           (holding [two_teams]) 0 two_teams 1); [reflexivity|].
  apply run_eq. vm_compute. reflexivity.
Defined.

(** The whole script on the sample file: the table that [main] hands to
    the report is the cleaned table, and it carries the [PPG] column. *)
Example main_report_table :
  (main (H := stable_library)
     (mkWorld [] [] [] {[ "data/NBA_Player_Stats.csv" := Csv two_teams ]})).1
    = Ok tt ∧
  columns <$> heap (main (H := stable_library)
     (mkWorld [] [] [] {[ "data/NBA_Player_Stats.csv" := Csv two_teams ]})).2
     !! 1
    = Some ["Player"; "Tm"; "Year"; "PTS"; "G"; "MP"; "PPG"] ∧
  artifacts (main (H := stable_library)
     (mkWorld [] [] [] {[ "data/NBA_Player_Stats.csv" := Csv two_teams ]})).2
    = ["team_performance.png"].
Proof. repeat split; vm_compute; reflexivity. Qed.



(** The script in a world without files. *)
Lemma missing_file_halts_witness :
  load_data "data/NBA_Player_Stats.csv" (holding []) =
    (Ok None,
     mkWorld [] [Header StLoad; LoadFailed "data/NBA_Player_Stats.csv" true]
             [] ∅) ∧
  main (H := stable_library) (holding []) =
    (Ok tt,
     mkWorld [] [Header StLoad; LoadFailed "data/NBA_Player_Stats.csv" true]
             [] ∅).
Proof.
  apply (missing_file_halts (H := stable_library) (holding [])).
  reflexivity.
Defined.

(** The player with ten points and no game. *)
Lemma zero_games_rows_are_aggregated_witness :
  let x := season 0 "Ann" "X" (points 10) (Num (Fin 0)) in
  let points := cell_num (getcell "PTS" x) in
  let minus := bool_decide (getcell "G" x = MinusZero) in
  (num_lt (Fin 0) points = true → ppg x = if minus then NInf else PInf) ∧
  (num_lt points (Fin 0) = true → ppg x = if minus then PInf else NInf) ∧
  (points = Fin 0 → ppg x = NaN) ∧
  ∃ r w' out,
    analyze_team_performance (H := stable_library) 0 (holding [no_game])
      = (Ok r, w') ∧
    heap w' !! r = Some out ∧
    (∃ caller, heap w' !! 0 = Some caller ∧
               setcell "PPG" (Num (ppg x)) x ∈ rows caller) ∧
    ∃ y, y ∈ rows out ∧
         x ∈ filter (λ r, key_of (getcell "Tm" r) = key_of (getcell "Team" y))
               (rows no_game) ∧
         team_summary no_game y ∧
         (points ≠ Fin 0 →
          is_finite (cell_num (getcell "Avg_PPG_Per_Player" y)) = false).
Proof.
  apply (zero_games_rows_are_aggregated (H := stable_library)
           (holding [no_game]) 0 no_game);
    [reflexivity | sample_cleaned | left | reflexivity].
Defined.

(** The sign of the zero decides the sign of the infinity: ten points
    over the negative zero are the negative infinity, and no points over
    a zero are NaN. *)
Example zero_games_signs :
  ppg (season 0 "Ann" "X" (points 10) (Num (Fin 0))) = PInf ∧
  ppg (season 0 "Ann" "X" (points 10) MinusZero) = NInf ∧
  ppg (season 0 "Ann" "X" MinusZero (Num (Fin 0))) = NaN ∧
  ppg (season 0 "Ann" "X" (points 0) MinusZero) = NaN.
Proof. repeat split; vm_compute; reflexivity. Qed.

(** On that table the player without a game has infinite points per game,
    and so has the average of team X, which is ranked first. *)
Example no_game_average :
  bool_decide
    ((λ d, (column "Team" d, column "Avg_PPG_Per_Player" d))
       <$> heap (analyze_team_performance (H := stable_library) 0
                   (holding [no_game])).2 !! 1
     = Some ([Text "X"; Text "Y"], [Num PInf; points 4])) = true.
Proof. vm_compute. reflexivity. Qed.

(** The team analysis of the table without rows. *)
Lemma analyze_team_performance_empty_witness :
  (∃ e w', analyze_team_performance (H := stable_library) 0
             (holding [no_rows]) = (Err e, w')) ∧
  ((∀ c, c ∈ critical → c ∈ columns no_rows) →
   ∃ w', analyze_team_performance (H := stable_library) 0
           (holding [no_rows]) = (Err IndexError, w') ∧
         console w' = console (holding [no_rows]) ++
           [Header StTeams; Table StTeams (mkDF ("Rank" :: team_columns) [])]).
Proof.
  apply (analyze_team_performance_empty (H := stable_library)
           (holding [no_rows]) 0 no_rows); reflexivity.
Defined.

End sample_runs.

(** ** Loading *)

Section loading.
Context `{Library}.

Lemma load_data_unreadable w path :
  disk w !! path = Some Garbage →
  load_data path w =
    (Ok None, printed w [Header StLoad; LoadFailed path false]).
Proof.
  intros Hpath. unfold load_data, printed. mred. rewrite Hpath. mred.
  by rewrite <- app_assoc.
Qed.

(** X2.  When the path the script reads holds a file that does not parse
    as a table, [load_data] catches the exception, prints the diagnostic
    of the general handler and returns [None], and [main] returns at
    once: no later stage runs, no table is created and no file is
    written. *)
Theorem unreadable_file_halts w :
  disk w !! "data/NBA_Player_Stats.csv" = Some Garbage →
  let halted :=
    printed w [Header StLoad; LoadFailed "data/NBA_Player_Stats.csv" false] in
  load_data "data/NBA_Player_Stats.csv" w = (Ok None, halted) ∧
  main w = (Ok tt, halted).
Proof.
  intros Hpath halted.
  pose proof (load_data_unreadable _ _ Hpath) as Hload.
  split; [done|]. unfold main. unfold bind at 1. by rewrite Hload.
Qed.

End loading.

(** ** What the stages leave as it is *)

(** Case analysis on every pandas call and every reference of a run. *)
Ltac mcases :=
  repeat (mred;
    match goal with
    | |- context [match ?r with Ok _ => _ | Err _ => _ end] =>
        lazymatch r with fst _ => fail | _ => destruct r eqn:? end
    | |- context [match ?o with Some _ => _ | None => _ end] => destruct o eqn:?
    end);
  mred.

Section frames.
Context `{Library}.

(** X3.  The three stages that only report change no table, whether they
    return or raise: after [preview_data], [create_visualization] and
    [generate_summary_report] the heap is the one before.  The preview and
    the report write no file; the chart file is written exactly when
    [create_visualization] returns. *)
Theorem reporting_stages_change_no_table w data top_scorers team_stats :
  let p := (preview_data data w).2 in
  let c := create_visualization team_stats w in
  let s := (generate_summary_report data top_scorers team_stats w).2 in
  (heap p = heap w ∧ artifacts p = artifacts w) ∧
  (heap c.2 = heap w ∧
   artifacts c.2 = match c.1 with
                   | Ok _ => artifacts w ++ ["team_performance.png"]
                   | Err _ => artifacts w
                   end) ∧
  (heap s = heap w ∧ artifacts s = artifacts w).
Proof.
  cbv zeta. repeat split.
  - unfold preview_data. by mcases.
  - unfold preview_data. by mcases.
  - unfold create_visualization. by mcases.
  - unfold create_visualization. by mcases.
  - unfold generate_summary_report. by mcases.
  - unfold generate_summary_report. by mcases.
Qed.

(** X4.  [clean_data] and [analyze_top_scorers] work on a copy: whether
    they return or raise, every table that existed is as it was, the
    caller's table among them.  When they return, the reference they
    return is new and names the one table they added; when they raise,
    they added none.  Neither writes a file. *)
Theorem clean_data_and_top_scorers_copy w data top_n :
  (let run := clean_data data w in
   artifacts run.2 = artifacts w ∧
   match run.1 with
   | Ok r => r = length (heap w) ∧ ∃ out, heap run.2 = heap w ++ [out]
   | Err _ => heap run.2 = heap w
   end) ∧
  (let run := analyze_top_scorers data top_n w in
   artifacts run.2 = artifacts w ∧
   match run.1 with
   | Ok r => r = length (heap w) ∧ ∃ out, heap run.2 = heap w ++ [out]
   | Err _ => heap run.2 = heap w
   end).
Proof.
  cbv zeta. repeat split.
  - unfold clean_data. by mcases.
  - unfold clean_data. mcases; cbn [fst snd heap]; eauto.
  - unfold analyze_top_scorers. by mcases.
  - unfold analyze_top_scorers. mcases; cbn [fst snd heap]; eauto.
Qed.

End frames.

(** ** Cleaning: the rows kept, the report, the errors *)

Lemma filter_fmap {A B} (f : A → B) (P : B → Prop) `{∀ y, Decision (P y)}
    (l : list A) :
  filter P (f <$> l) = f <$> filter (λ x, P (f x)) l.
Proof.
  induction l as [|x l IH]; [done|]. csimpl.
  rewrite !filter_cons. case_decide; csimpl; by rewrite IH.
Qed.

Lemma filter_filter_and {A} (P Q : A → Prop)
    `{∀ x, Decision (P x)} `{∀ x, Decision (Q x)} (l : list A) :
  filter P (filter Q l) = filter (λ x, Q x ∧ P x) l.
Proof.
  induction l as [|x l IH]; [done|].
  rewrite !(filter_cons _ x).
  destruct (decide (Q x)) as [HQ|HQ].
  - rewrite filter_cons. destruct (decide (P x)) as [HP|HP].
    + rewrite decide_True by done. by rewrite IH.
    + rewrite decide_False by tauto. done.
  - rewrite decide_False by tauto. done.
Qed.

Lemma filter_equiv {A} (P Q : A → Prop)
    `{∀ x, Decision (P x)} `{∀ x, Decision (Q x)} (l : list A) :
  (∀ x, P x ↔ Q x) → filter P l = filter Q l.
Proof.
  intros HPQ. induction l as [|x l IH]; [done|].
  rewrite !filter_cons, IH.
  destruct (decide (P x)) as [HP|HP].
  - by rewrite decide_True by (by apply HPQ).
  - by rewrite decide_False by (by rewrite <- HPQ).
Qed.

Section cleaning.
Context `{Library}.

(** A run of [clean_data] that returns, in full. *)
Lemma clean_data_run w data raw r w' :
  heap w !! data = Some raw →
  clean_data data w = (Ok r, w') →
  (∀ c, c ∈ critical → c ∈ columns raw) ∧
  r = length (heap w) ∧
  w' = mkWorld (heap w ++ [mkDF (columns raw) (clean_rows raw)])
         (console w ++
            [Header StClean;
             Cleaned (Z.of_nat (length (rows raw))
                      - Z.of_nat (length (clean_rows raw)))%Z
                     (length (clean_rows raw))])
         (artifacts w) (disk w).
Proof.
  intros Hraw. unfold clean_data. mred. rewrite Hraw. mred.
  destruct (dropna critical raw) as [first|] eqn:E; mred; [|done].
  destruct (dropna ["PTS"] _) as [out|] eqn:E0; mred; [|done].
  intros [= <- <-].
  apply dropna_inv in E as [-> Hcols].
  apply dropna_inv in E0 as [-> _].
  rewrite foldl_coerce_columns, foldl_coerce_rows. cbn [columns rows].
  rewrite <- app_assoc. done.
Qed.

Lemma kept_rows raw :
  "PTS" ∈ columns raw →
  clean_rows raw = coerce_row (present raw) <$> filter kept (rows raw).
Proof.
  intros Hpts. unfold clean_rows.
  rewrite filter_fmap, filter_filter_and. f_equal.
  apply filter_equiv. intros r0. unfold kept.
  assert (complete_on ["PTS"] (coerce_row (present raw) r0) ↔
          isna (to_numeric_cell (getcell "PTS" r0)) = false) as ->; [|done].
  unfold complete_on. rewrite Forall_singleton.
  rewrite getcell_coerce_row; [done|].
  apply present_spec. split; [done|names].
Qed.

Lemma getcell_converted raw r0 c :
  getcell c (coerce_row (present raw) r0) = converted raw r0 c.
Proof.
  unfold converted. case_decide as Hc.
  - apply getcell_coerce_row, present_spec. tauto.
  - apply getcell_coerce_row_other. rewrite present_spec. tauto.
Qed.

(** X5.  The rows [clean_data] keeps.  The table it returns holds, in the
    order of the input, one row for each input row that has its player,
    team, points and games and whose points convert to a number, and no
    other row.  The row keeps its label; its cells in the columns
    [PTS], [G], [MP], [TRB], [AST], [STL], [BLK] that the table has are
    the input's cells converted to numbers, and every other cell is the
    input's. *)
Theorem clean_data_keeps_exactly w data raw r w' :
  heap w !! data = Some raw →
  clean_data data w = (Ok r, w') →
  ∃ out, heap w' !! r = Some out ∧
    Forall2 (λ r1 r0, label r1 = label r0 ∧
                      ∀ c, getcell c r1 = converted raw r0 c)
      (rows out) (filter kept (rows raw)).
Proof.
  intros Hraw Hrun.
  destruct (clean_data_run _ _ _ _ _ Hraw Hrun) as (Hcols & -> & ->).
  eexists. split; [apply lookup_new|]. cbn [rows].
  rewrite kept_rows by (apply Hcols; names).
  apply Forall2_fmap_l, Forall_Forall2_diag, Forall_forall.
  intros r0 _. split; [apply label_coerce_row|].
  intros c. apply getcell_converted.
Qed.

(** X6.  The report of [clean_data].  A run that returns has printed the
    banner and one report, which gives the number of rows of the table
    returned and the number of rows removed; the number removed is never
    negative, and the two add up to the number of rows of the input. *)
Theorem clean_data_reports_counts w data raw r w' :
  heap w !! data = Some raw →
  clean_data data w = (Ok r, w') →
  ∃ out removed, heap w' !! r = Some out ∧
    console w' = console w ++
      [Header StClean; Cleaned removed (length (rows out))] ∧
    (0 ≤ removed)%Z ∧
    (removed + Z.of_nat (length (rows out)) = Z.of_nat (length (rows raw)))%Z.
Proof.
  intros Hraw Hrun.
  destruct (clean_data_run _ _ _ _ _ Hraw Hrun) as (Hcols & -> & ->).
  eexists _, _. split; [apply lookup_new|]. split; [reflexivity|].
  cbn [rows].
  pose proof (sublist_length _ _ (clean_rows_labels raw)) as Hlen.
  rewrite !length_fmap in Hlen. lia.
Qed.

(** X7.  A missing critical column.  When the table lacks one of
    [Player], [Tm], [PTS], [G], [clean_data] raises the [KeyError] of the
    first [dropna], which names the columns that are missing, in that
    order.  It has printed its opening lines and no report, and has
    created no table. *)
Theorem clean_data_missing_column w data raw :
  heap w !! data = Some raw →
  missing_columns critical raw ≠ [] →
  clean_data data w =
    (Err (KeyError (missing_columns critical raw)),
     printed w [Header StClean]).
Proof.
  intros Hraw Hmiss. unfold clean_data, printed. mred. rewrite Hraw. mred.
  unfold dropna, require_columns.
  destruct (missing_columns critical raw) as [|c miss]; done.
Qed.

(** X8.  Cleaning again.  When the table [clean_data] returned has no
    games missing, [clean_data] applied to it returns, the table it
    returns is the same one, and its report says that no row was
    removed. *)
Theorem clean_data_again_same w data raw r1 w1 out :
  heap w !! data = Some raw →
  clean_data data w = (Ok r1, w1) →
  heap w1 !! r1 = Some out →
  Forall (λ r, isna (getcell "G" r) = false) (rows out) →
  ∃ r2 w2,
    clean_data r1 w1 = (Ok r2, w2) ∧
    heap w2 !! r2 = Some out ∧
    console w2 = console w1 ++
      [Header StClean; Cleaned 0 (length (rows out))].
Proof.
  intros Hraw Hrun1 Hout Hgames.
  destruct (clean_data_run _ _ _ _ _ Hraw Hrun1) as (Hcols & Hr1 & Hw1).
  assert (out = mkDF (columns raw) (clean_rows raw)) as Hval.
  { rewrite Hw1, Hr1 in Hout. cbn [heap] in Hout.
    rewrite lookup_new in Hout. by injection Hout. }
  destruct (clean_data_ok w1 r1 out Hout) as [w2 Hrun2].
  { by rewrite Hval. }
  eexists _, _. split; [exact Hrun2|].
  pose proof (clean_data_again _ _ _ _ _ _ _ _ Hraw Hrun1 Hout Hgames Hrun2)
    as Hsame.
  destruct (clean_data_run _ _ _ _ _ Hout Hrun2) as (_ & _ & ->).
  split; [exact Hsame|]. cbn [console heap] in *.
  rewrite lookup_new in Hsame. injection Hsame as Hsame.
  apply (f_equal rows) in Hsame. cbn [rows] in Hsame.
  rewrite Hsame, Z.sub_diag. done.
Qed.

(** X23.  What cleaning guarantees.  In the table [clean_data] returns
    every row has its player, its team and its points, and no cell of a
    converted column is text: the points are numbers, and the games,
    minutes, rebounds, assists, steals and blocks are numbers or
    missing.  A row whose games are missing had games in the input that
    were text and did not convert. *)
Theorem clean_data_invariants w data raw r w' :
  heap w !! data = Some raw →
  clean_data data w = (Ok r, w') →
  ∃ out, heap w' !! r = Some out ∧
    Forall (λ x,
        isna (getcell "Player" x) = false ∧
        isna (getcell "Tm" x) = false ∧
        isna (getcell "PTS" x) = false ∧
        (∀ c, c ∈ numeric_columns → c ∈ columns raw →
              is_text (getcell c x) = false) ∧
        (isna (getcell "G" x) = true →
         ∃ x0 s, x0 ∈ rows raw ∧ label x0 = label x ∧
                 getcell "G" x0 = Text s ∧ parse_float s = NaN))
      (rows out).
Proof.
  intros Hraw Hrun.
  destruct (clean_data_run _ _ _ _ _ Hraw Hrun) as (Hcols & -> & ->).
  eexists. split; [apply lookup_new|]. cbn [rows].
  apply Forall_forall. intros x Hx.
  apply clean_rows_spec in Hx as (x0 & Hin & Hx0 & -> & Hpts).
  rewrite !getcell_converted in *. unfold converted in *.
  rewrite !decide_False by (intros [Hc _]; revert Hc; names).
  rewrite (decide_True (P := "G" ∈ numeric_columns ∧ "G" ∈ columns raw))
    by (split; [names|apply Hcols; names]).
  split; [eapply complete_on_cell; [done|names]|].
  split; [eapply complete_on_cell; [done|names]|].
  split; [done|]. split.
  - intros c Hc Hcol. rewrite getcell_converted. unfold converted.
    rewrite decide_True by done. apply to_numeric_cell_number.
  - intros Hg. exists x0.
    assert (isna (getcell "G" x0) = false) as Hg0
      by (eapply complete_on_cell; [done|names]).
    destruct (getcell "G" x0) as [s|g|] eqn:Hcell.
    + exists s. rewrite label_coerce_row. repeat split; try done.
      simpl in Hg. destruct (minus_zero s); [done|].
      by destruct (parse_float s).
    + cbn [to_numeric_cell] in Hg. congruence.
    + done.
Qed.

End cleaning.

(** ** Top scorers: the run and the rows left out *)

Lemma head_take n df : ∃ m, rows (head n df) = take m (rows df).
Proof. unfold head. simpl. case_decide; eauto. Qed.

Lemma desc_not_above {A} (a b : cell * A) :
  desc a b → num_lt (cell_num a.1) (cell_num b.1) = false.
Proof.
  intros [Hna|Hle].
  - destruct b as [[t|[]|] rb]; try done. apply num_lt_nan_r.
  - destruct a as [[s|x|] ra], b as [[t|y|] rb];
      cbn [fst cell_num cell_le] in *;
      try done; try apply num_lt_nan_r;
      apply num_le_not_lt; by apply Is_true_true.
Qed.

Lemma num_lt_neither a b :
  a ≠ NaN → b ≠ NaN → num_lt a b = false → num_lt b a = false → a = b.
Proof.
  destruct a as [x| | |], b as [y| | |]; simpl; try done.
  rewrite !bool_decide_eq_false. intros _ _ Hxy Hyx. f_equal.
  apply Qcle_antisym; by apply Qcnot_lt_le.
Qed.

(** The greatest and the least of numbers that never increase. *)
Lemma extreme_max_first x xs :
  StronglySorted (λ a b, num_lt a b = false) (x :: xs) →
  extreme num_max (x :: xs) = x.
Proof.
  simpl. revert x. induction xs as [|y xs IH]; intros x Hs; [done|].
  simpl. inversion Hs as [|? ? Hs' Hx]; subst.
  apply Forall_cons in Hx as [Hxy Hx]. unfold num_max at 2. rewrite Hxy.
  apply IH. constructor; [|done]. by inversion Hs'.
Qed.

Lemma extreme_min_last x xs :
  StronglySorted (λ a b, num_lt a b = false) (x :: xs) →
  Forall (λ a, a ≠ NaN) (x :: xs) →
  Some (extreme num_min (x :: xs)) = last (x :: xs).
Proof.
  simpl. revert x. induction xs as [|y xs IH]; intros x Hs Hn; [done|].
  inversion Hs as [|? ? Hs' Hx]; subst.
  apply Forall_cons in Hx as [Hxy Hx].
  apply Forall_cons in Hn as [Hnx Hn]. pose proof Hn as [Hny _]%Forall_cons.
  assert (num_min x y = y) as Hmin.
  { unfold num_min. destruct (num_lt y x) eqn:Hyx; [done|].
    by apply num_lt_neither. }
  cbn [foldl]. rewrite Hmin.
  rewrite IH by done. done.
Qed.

Lemma observed_all s :
  Forall (λ c, cell_num c ≠ NaN) s → observed s = cell_num <$> s.
Proof.
  unfold observed. induction 1 as [|c s Hc _ IH]; [done|].
  csimpl. rewrite filter_cons, decide_True by done. by rewrite IH.
Qed.

Section top_scorer_runs.
Context `{Library}.

(** A run of [analyze_top_scorers] that returns, in full. *)
Lemma analyze_top_scorers_run w data df top_n r w' :
  heap w !! data = Some df →
  analyze_top_scorers data top_n w = (Ok r, w') →
  ∃ sorted,
    (∀ c, c ∈ scorer_columns → c ∈ columns df) ∧
    sort_values "PTS"
      (mkDF scorer_columns (restrict scorer_columns <$> rows df)) = Ok sorted ∧
    columns sorted = scorer_columns ∧
    Forall (λ c, is_text c = false)
      (column "PTS" (with_rank (head top_n sorted))) ∧
    r = length (heap w) ∧
    w' = mkWorld (heap w ++ [with_rank (head top_n sorted)])
           (console w ++
              [Header StTopScorers;
               Table StTopScorers (with_rank (head top_n sorted));
               TopInsights
                 (extreme num_max
                    (observed (column "PTS" (with_rank (head top_n sorted)))))
                 (average
                    (observed (column "PTS" (with_rank (head top_n sorted)))))
                 (extreme num_min
                    (observed (column "PTS" (with_rank (head top_n sorted)))))])
           (artifacts w) (disk w).
Proof.
  intros Hdf. unfold analyze_top_scorers. mred. rewrite Hdf. mred.
  destruct (select scorer_columns df) as [picked|] eqn:Hp; mred; [|done].
  apply select_inv in Hp as [Hcols ->].
  destruct (sort_values "PTS" _) as [sorted|] eqn:Hs; mred; [|done].
  pose proof (sort_values_inv _ _ _ Hs) as (_ & Hc & _). cbn [columns] in Hc.
  destruct (insert_rank "Rank" _) as [out|] eqn:Hr; mred; [|done].
  apply insert_rank_inv in Hr as [_ ->].
  change (mkDF ("Rank" :: _) _) with (with_rank (head top_n sorted)).
  unfold series_mean, series_max, series_min.
  destruct (numeric _) as [xs|] eqn:Hn; cbn [rbind]; [|done].
  pose proof (numeric_inv _ _ Hn) as Hnum.
  rewrite (numeric_ok _ Hnum) in Hn. injection Hn as <-.
  intros [= <- <-]. exists sorted.
  rewrite <- !app_assoc. done.
Qed.

Lemma sorted_points df sorted :
  sort_values "PTS"
    (mkDF scorer_columns (restrict scorer_columns <$> rows df)) = Ok sorted →
  getcell "PTS" <$> rows sorted ≡ₚ column "PTS" df.
Proof.
  intros Hperm%sorted_rows_perm. cbn [rows] in Hperm.
  rewrite Hperm. unfold column. rewrite <- list_fmap_compose.
  assert (getcell "PTS" ∘ restrict scorer_columns <$> rows df
          = getcell "PTS" <$> rows df) as ->; [|done].
  apply list_fmap_ext. intros i x _. simpl. apply getcell_restrict. names.
Qed.

Lemma ranked_points d :
  column "PTS" (with_rank d) = column "PTS" d.
Proof. unfold column, with_rank. cbn [rows]. by apply ranked_column. Qed.

(** [analyze_top_scorers] returns when its six columns exist and no
    points value is text, whatever [top_n] is. *)
Lemma analyze_top_scorers_ok w data df top_n :
  heap w !! data = Some df →
  (∀ c, c ∈ scorer_columns → c ∈ columns df) →
  Forall (λ c, is_text c = false) (column "PTS" df) →
  ∃ r w', analyze_top_scorers data top_n w = (Ok r, w').
Proof.
  intros Hdf Hcols Hnum.
  unfold analyze_top_scorers. mred. rewrite Hdf. mred.
  unfold select. rewrite require_columns_ok by done. cbn [rbind]. mred.
  set (picked := mkDF scorer_columns (restrict scorer_columns <$> rows df)).
  destruct (sort_values_ok "PTS" picked) as [sorted Hs].
  { names. }
  { unfold column, picked. cbn [rows]. rewrite <- list_fmap_compose.
    apply Forall_fmap, Forall_forall. intros x Hx. simpl.
    rewrite getcell_restrict by names.
    unfold column in Hnum. rewrite Forall_fmap, Forall_forall in Hnum.
    by apply Hnum. }
  rewrite Hs. mred.
  pose proof (sort_values_inv _ _ _ Hs) as (_ & Hc & _).
  unfold insert_rank, has_column. cbn [head columns].
  rewrite bool_decide_eq_false_2 by (rewrite Hc; intros Hr; revert Hr; names).
  mred.
  change (mkDF ("Rank" :: _) _) with (with_rank (head top_n sorted)).
  assert (Forall (λ c, is_text c = false)
            (column "PTS" (with_rank (head top_n sorted)))) as Hr.
  { rewrite ranked_points. unfold column.
    destruct (head_take top_n sorted) as [m ->].
    rewrite fmap_take. apply Forall_take.
    by rewrite (sorted_points _ _ Hs). }
  unfold series_mean, series_max, series_min.
  rewrite (numeric_ok _ Hr). cbn [rbind]. mred. eauto.
Qed.

(** What [analyze_top_scorers] leaves as it is. *)
Lemma analyze_top_scorers_frame w data top_n :
  artifacts (analyze_top_scorers data top_n w).2 = artifacts w ∧
  match (analyze_top_scorers data top_n w).1 with
  | Ok r => r = length (heap w) ∧
            ∃ out, heap (analyze_top_scorers data top_n w).2 = heap w ++ [out]
  | Err _ => heap (analyze_top_scorers data top_n w).2 = heap w
  end.
Proof.
  split.
  - unfold analyze_top_scorers. by mcases.
  - unfold analyze_top_scorers. mcases; cbn [fst snd heap]; eauto.
Qed.

(** X9.  The rows left out.  The table [analyze_top_scorers] returns
    holds the top of the input: its rows together with some rows left
    out are, rank apart, the rows of the input, and a row left out has
    missing points or points that are not above the points of any row of
    the table. *)
Theorem analyze_top_scorers_are_top w data df top_n r w' :
  heap w !! data = Some df →
  analyze_top_scorers data top_n w = (Ok r, w') →
  ∃ out rest, heap w' !! r = Some out ∧
    restrict scorer_columns <$> (rows out ++ rest)
      ≡ₚ restrict scorer_columns <$> rows df ∧
    ∀ y x, y ∈ rows out → x ∈ rest →
      isna (getcell "PTS" x) = true ∨
      cell_le (getcell "PTS" x) (getcell "PTS" y).
Proof.
  intros Hdf Hrun.
  destruct (analyze_top_scorers_run _ _ _ _ _ _ Hdf Hrun)
    as (sorted & _ & Hs & _ & _ & -> & ->).
  destruct (head_take top_n sorted) as [m Hm].
  exists (with_rank (head top_n sorted)), (drop m (rows sorted)).
  split; [apply lookup_new|].
  pose proof (sort_values_inv _ _ _ Hs) as (_ & _ & S & HS & Hperm & Hd & _).
  cbn [rows] in Hperm. unfold with_rank. cbn [rows]. rewrite Hm. split.
  - rewrite fmap_app, ranked_restrict by (intros Hr; revert Hr; names).
    rewrite <- fmap_app, take_drop, HS, Hperm, snd_keyed.
    rewrite <- list_fmap_compose.
    assert (restrict scorer_columns ∘ restrict scorer_columns <$> rows df
            = restrict scorer_columns <$> rows df) as ->; [|done].
    apply list_fmap_ext. intros i x _. simpl.
    apply restrict_ext; [done|]. intros c Hc. by apply getcell_restrict.
  - intros y x Hy Hx.
    apply list_elem_of_lookup in Hy as [i Hi].
    apply list_lookup_imap_Some in Hi as (y0 & Hi & ->).
    rewrite getcell_setcell_ne by done.
    apply lookup_take_Some in Hi as [Hi Him].
    apply list_elem_of_lookup in Hx as [j Hj].
    rewrite lookup_drop in Hj. rewrite HS in Hi, Hj.
    rewrite list_lookup_fmap in Hi, Hj.
    destruct (S !! i) as [[ki ri]|] eqn:Ei; [|done].
    destruct (S !! (m + j)) as [[kj rj]|] eqn:Ej; [|done].
    simpl in Hi, Hj. injection Hi as ->. injection Hj as ->.
    pose proof (keyed_keys "PTS" (restrict scorer_columns <$> rows df)) as Hk.
    rewrite <- Hperm in Hk. rewrite Forall_forall in Hk.
    pose proof (Hk _ (list_elem_of_lookup_2 _ _ _ Ei)) as Hki.
    pose proof (Hk _ (list_elem_of_lookup_2 _ _ _ Ej)) as Hkj.
    simpl in Hki, Hkj. subst ki kj.
    assert (i < m + j) as Hij by lia.
    exact (StronglySorted_lookup _ _ _ _ _ _ Hd Hij Ei Ej).
Qed.

End top_scorer_runs.

(** ** Top scorers: insights, bounds, errors, the top scorer *)

Section top_scorer_edges.
Context `{Library}.

Lemma with_rank_points d : row_points <$> rows (with_rank d) = row_points <$> rows d.
Proof.
  unfold row_points, with_rank. cbn [rows].
  rewrite !(list_fmap_compose (getcell "PTS") cell_num).
  by rewrite ranked_column.
Qed.

(** The points of a sorted table never increase. *)
Lemma sorted_pts c df sorted :
  sort_values c df = Ok sorted →
  StronglySorted (λ a b, num_lt a b = false)
    (cell_num <$> (getcell c <$> rows sorted)).
Proof.
  intros (_ & _ & S & -> & Hperm & Hd & _)%sort_values_inv.
  pose proof (keyed_keys c (rows df)) as Hk. rewrite <- Hperm in Hk.
  rewrite <- !list_fmap_compose.
  assert ((cell_num ∘ getcell c) ∘ snd <$> S = cell_num ∘ fst <$> S) as ->.
  { apply list_fmap_ext. intros i a Ha. simpl.
    rewrite Forall_forall in Hk.
    by rewrite (Hk a (list_elem_of_lookup_2 _ _ _ Ha)). }
  eapply StronglySorted_fmap; [|exact Hd].
  intros a b. apply desc_not_above.
Qed.

(** X10.  The insights of [analyze_top_scorers].  On a table whose
    points are all numbers, none missing, a run that returns has printed
    its banner, the table it returns and one line of insights: the
    highest value is the points of the first row of that table, the
    lowest value the points of its last row, and the average is taken
    over its rows.  Of a table without rows the three are NaN. *)
Theorem analyze_top_scorers_insights w data df top_n r w' :
  heap w !! data = Some df →
  Forall (λ c, is_text c = false ∧ isna c = false) (column "PTS" df) →
  analyze_top_scorers data top_n w = (Ok r, w') →
  ∃ out, heap w' !! r = Some out ∧
    console w' = console w ++
      [Header StTopScorers; Table StTopScorers out;
       TopInsights (default NaN (row_points <$> rows out !! 0))
                   (average (row_points <$> rows out))
                   (default NaN (row_points <$> last (rows out)))].
Proof.
  intros Hdf Hpts Hrun.
  destruct (analyze_top_scorers_run _ _ _ _ _ _ Hdf Hrun)
    as (sorted & _ & Hs & _ & _ & -> & ->).
  eexists. split; [apply lookup_new|]. cbn [console]. do 3 f_equal.
  set (out := with_rank (head top_n sorted)).
  assert (Forall (λ c, cell_num c ≠ NaN) (column "PTS" out)) as Hall.
  { unfold out. rewrite ranked_points. unfold column.
    destruct (head_take top_n sorted) as [m ->].
    rewrite fmap_take. apply Forall_take.
    rewrite (sorted_points _ _ Hs).
    eapply Forall_impl; [exact Hpts|].
    intros [s|[q| | |]|] [Ht Hn]; done. }
  rewrite (observed_all _ Hall).
  assert (cell_num <$> column "PTS" out = row_points <$> rows out) as Hxs.
  { unfold column, row_points. by rewrite <- list_fmap_compose. }
  assert (StronglySorted (λ a b, num_lt a b = false) (row_points <$> rows out))
    as Hsorted.
  { unfold out. rewrite with_rank_points.
    destruct (head_take top_n sorted) as [m ->].
    pose proof (sorted_pts _ _ _ Hs) as Hd.
    rewrite <- list_fmap_compose in Hd.
    rewrite <- (take_drop m (rows sorted)), fmap_app in Hd.
    by apply StronglySorted_app_1_l in Hd. }
  assert (Forall (λ a, a ≠ NaN) (row_points <$> rows out)) as Hnn.
  { rewrite <- Hxs. by apply Forall_fmap. }
  rewrite Hxs, <- fmap_last, <- list_lookup_fmap.
  destruct (row_points <$> rows out) as [|x xs] eqn:Hl; [done|].
  rewrite extreme_max_first by done.
  rewrite <- (extreme_min_last x xs) by done. done.
Qed.

Lemma imap_take {A B} (f : nat → A → B) n l :
  imap f (take n l) = take n (imap f l).
Proof.
  apply list_eq. intros i. rewrite list_lookup_imap, !lookup_take.
  case_decide; [by rewrite list_lookup_imap|done].
Qed.

(** A bound of zero: the table returned has no rows and the three
    insights are NaN. *)
Lemma analyze_top_scorers_none w data df :
  heap w !! data = Some df →
  (∀ c, c ∈ scorer_columns → c ∈ columns df) →
  Forall (λ c, is_text c = false) (column "PTS" df) →
  ∃ r w' out,
    analyze_top_scorers data 0 w = (Ok r, w') ∧
    heap w' !! r = Some out ∧
    columns out = "Rank" :: scorer_columns ∧
    rows out = [] ∧
    console w' = console w ++
      [Header StTopScorers; Table StTopScorers out; TopInsights NaN NaN NaN].
Proof.
  intros Hdf Hcols Hnum.
  destruct (analyze_top_scorers_ok _ _ _ 0%Z Hdf Hcols Hnum)
    as (r & w' & Hrun).
  destruct (analyze_top_scorers_run _ _ _ _ _ _ Hdf Hrun)
    as (sorted & _ & Hs & Hc & _ & -> & ->).
  eexists _, _, _. split; [exact Hrun|]. split; [apply lookup_new|].
  split; [unfold with_rank; cbn [columns head]; by rewrite Hc|].
  split; [done|]. cbn. by rewrite average_nil.
Qed.

(** X11.  A negative bound.  On a table with the six columns and no
    text among its points [analyze_top_scorers] returns for a negative
    [top_n] as well, and the table it returns is the whole ranking
    without its last [- top_n] rows: it has the columns and, ranks
    included, the first rows of the table returned for a bound equal to
    the number of input rows, which ranks every row. *)
Theorem analyze_top_scorers_negative w data df top_n :
  heap w !! data = Some df →
  (top_n < 0)%Z →
  (∀ c, c ∈ scorer_columns → c ∈ columns df) →
  Forall (λ c, is_text c = false) (column "PTS" df) →
  ∃ r w' out r0 w0 whole,
    analyze_top_scorers data top_n w = (Ok r, w') ∧
    heap w' !! r = Some out ∧
    analyze_top_scorers data (Z.of_nat (length (rows df))) w = (Ok r0, w0) ∧
    heap w0 !! r0 = Some whole ∧
    length (rows whole) = length (rows df) ∧
    columns out = columns whole ∧
    rows out = take (length (rows df) - Z.to_nat (- top_n)) (rows whole).
Proof.
  intros Hdf Hn Hcols Hnum.
  destruct (analyze_top_scorers_ok _ _ _ top_n Hdf Hcols Hnum)
    as (r & w' & Hrun).
  destruct (analyze_top_scorers_ok _ _ _ (Z.of_nat (length (rows df)))
              Hdf Hcols Hnum) as (r0 & w0 & Hrun0).
  destruct (analyze_top_scorers_run _ _ _ _ _ _ Hdf Hrun)
    as (sorted & _ & Hs & _ & _ & -> & ->).
  destruct (analyze_top_scorers_run _ _ _ _ _ _ Hdf Hrun0)
    as (sorted0 & _ & Hs0 & _ & _ & -> & ->).
  rewrite Hs in Hs0. injection Hs0 as <-.
  eexists _, _, _, _, _, _. split; [exact Hrun|]. split; [apply lookup_new|].
  split; [exact Hrun0|]. split; [apply lookup_new|].
  pose proof (Permutation_length (sorted_rows_perm _ _ _ Hs)) as Hlen.
  cbn [rows] in Hlen. rewrite length_fmap in Hlen.
  unfold with_rank, head. cbn [rows columns].
  rewrite (decide_False (P := (0 ≤ top_n)%Z)) by lia.
  rewrite (decide_True (P := (0 ≤ Z.of_nat (length (rows df)))%Z)) by lia.
  rewrite Nat2Z.id, <- Hlen, firstn_all, length_imap.
  split; [done|]. split; [done|]. apply imap_take.
Qed.

(** X12.  A missing column.  When the table lacks one of the six
    columns [analyze_top_scorers] selects, the selection raises a
    [KeyError] that names the columns that are missing.  The function
    has printed its banner and nothing of the ranking, and has created
    no table. *)
Theorem analyze_top_scorers_missing_column w data df top_n :
  heap w !! data = Some df →
  missing_columns scorer_columns df ≠ [] →
  analyze_top_scorers data top_n w =
    (Err (KeyError (missing_columns scorer_columns df)),
     printed w [Header StTopScorers]).
Proof.
  intros Hdf Hmiss. unfold analyze_top_scorers, printed. mred.
  rewrite Hdf. mred. unfold select, require_columns.
  destruct (missing_columns scorer_columns df) as [|c miss]; done.
Qed.

(** X13.  Points that are text.  When one of the points is text and at
    least one row is asked for, [analyze_top_scorers] does not return a
    table: the points cannot be sorted, or their mean cannot be taken.
    It raises, and no table is created nor changed. *)
Theorem analyze_top_scorers_text_points w data df top_n :
  heap w !! data = Some df →
  (0 < top_n)%Z →
  Exists (λ c, is_text c = true) (column "PTS" df) →
  ∃ e w', analyze_top_scorers data top_n w = (Err e, w') ∧ heap w' = heap w.
Proof.
  intros Hdf Hn Htext.
  pose proof (analyze_top_scorers_frame w data top_n) as [_ Hframe].
  destruct (analyze_top_scorers data top_n w) as [[r|e] w'] eqn:Hrun;
    [exfalso|by eauto].
  clear Hframe.
  destruct (analyze_top_scorers_run _ _ _ _ _ _ Hdf Hrun)
    as (sorted & _ & Hs & _ & Hnum & _ & _).
  rewrite ranked_points in Hnum. unfold column in Hnum.
  rewrite head_rows in Hnum by lia.
  pose proof (sorted_points _ _ Hs) as Hperm.
  rewrite <- Hperm in Htext.
  apply Exists_exists in Htext as (t & Ht & Htt).
  (* the first row of the sorted table has text for points *)
  unfold sort_values in Hs. cbn [rbind] in Hs.
  destruct (require_columns _ _) as [[]|]; [|done]. cbn [rbind] in Hs.
  destruct (nargsort_desc _) as [l|] eqn:Hsort; [|done].
  injection Hs as <-. cbn [rows] in *.
  unfold nargsort_desc in Hsort. case_decide as Hcmp; [|done].
  injection Hsort as <-.
  set (items := keyed "PTS" (restrict scorer_columns <$> rows df)) in *.
  set (nn := filter (λ a : cell * Row, isna a.1 = false) items) in *.
  assert (Forall (λ a : cell * Row, a.1 = getcell "PTS" a.2) items) as Hk
    by apply keyed_keys.
  assert (∃ a, a ∈ nn ∧ is_text a.1 = true) as (a & Ha & Hat).
  { rewrite fmap_app in Ht. apply elem_of_app in Ht as [Ht|Ht].
    - rewrite <- list_fmap_compose in Ht.
      apply list_elem_of_fmap in Ht as (a & -> & Hin).
      rewrite elem_of_reverse, quicksort_perm, elem_of_reverse in Hin.
      exists a. split; [done|].
      rewrite Forall_forall in Hk. rewrite (Hk a); [done|].
      by apply list_elem_of_filter in Hin as [_ Hin].
    - rewrite <- list_fmap_compose in Ht.
      apply list_elem_of_fmap in Ht as (a & -> & [Hna Hin]%list_elem_of_filter).
      rewrite Forall_forall in Hk. simpl in Htt.
      rewrite <- (Hk a Hin) in Htt. by destruct a.1 as [s|[]|]. }
  assert (Forall (λ k, is_text k) nn.*1) as Hall.
  { destruct Hcmp as [Hall|Hnone]; [done|].
    rewrite Forall_fmap, Forall_forall in Hnone.
    specialize (Hnone a Ha). simpl in Hnone. congruence. }
  assert (Forall (λ b : cell * Row, is_text (getcell "PTS" b.2) = true)
            (reverse (quicksort (reverse nn)))) as Hsorted.
  { apply Forall_forall. intros b Hb.
    rewrite elem_of_reverse, quicksort_perm, elem_of_reverse in Hb.
    rewrite Forall_fmap, Forall_forall in Hall.
    pose proof (Hall b Hb) as Hbt. simpl in Hbt.
    rewrite Forall_forall in Hk. rewrite <- (Hk b); [by apply Is_true_true|].
    by apply list_elem_of_filter in Hb as [_ Hb]. }
  destruct (reverse (quicksort (reverse nn))) as [|b l] eqn:Hl.
  { apply (f_equal length) in Hl.
    rewrite length_reverse, (Permutation_length (quicksort_perm _ _)),
      length_reverse in Hl.
    destruct nn; [by apply elem_of_nil in Ha|done]. }
  apply Forall_cons in Hsorted as [Hb _].
  destruct (Z.to_nat top_n) as [|n] eqn:Hz; [lia|].
  cbn in Hnum. apply Forall_cons in Hnum as [Hnum _]. congruence.
Qed.

(** X24.  The top scorer.  When at least one row is asked for, the
    first row of the table [analyze_top_scorers] returns, the one the
    report names as the top scorer, has the most points: every row of the
    input has missing points or points that are not above its points. *)
Theorem top_scorer_is_maximum w data df top_n r w' :
  heap w !! data = Some df →
  (0 < top_n)%Z →
  analyze_top_scorers data top_n w = (Ok r, w') →
  ∃ out, heap w' !! r = Some out ∧
    (rows df ≠ [] → ∃ scorer, rows out !! 0 = Some scorer) ∧
    ∀ scorer x, rows out !! 0 = Some scorer → x ∈ rows df →
      isna (getcell "PTS" x) = true ∨
      cell_le (getcell "PTS" x) (getcell "PTS" scorer).
Proof.
  intros Hdf Hn Hrun.
  destruct (analyze_top_scorers_run _ _ _ _ _ _ Hdf Hrun)
    as (sorted & _ & Hs & _ & _ & -> & ->).
  eexists. split; [apply lookup_new|].
  pose proof (sort_values_inv _ _ _ Hs) as (_ & _ & L & HS & Hperm & Hd & _).
  cbn [rows] in Hperm. unfold with_rank. cbn [rows].
  rewrite head_rows by lia.
  pose proof (keyed_keys "PTS" (restrict scorer_columns <$> rows df)) as Hk.
  rewrite <- Hperm in Hk. rewrite Forall_forall in Hk.
  assert (∃ m, Z.to_nat top_n = S m) as [m ->] by (exists (Z.to_nat top_n - 1); lia).
  split.
  - intros Hne. rewrite HS. destruct L as [|a L'].
    + symmetry in Hperm. apply Permutation_nil_r, fmap_nil_inv in Hperm.
      by apply fmap_nil_inv in Hperm.
    + cbn. eauto.
  - intros scorer x Hfirst Hx.
    apply list_lookup_imap_Some in Hfirst as (y0 & Hy0 & ->).
    rewrite getcell_setcell_ne by done.
    apply lookup_take_Some in Hy0 as [Hy0 _]. rewrite HS in Hy0.
    rewrite list_lookup_fmap in Hy0.
    destruct (L !! 0) as [[k0 r0]|] eqn:E0; [|done].
    simpl in Hy0. injection Hy0 as ->.
    pose proof (Hk _ (list_elem_of_lookup_2 _ _ _ E0)) as Hk0.
    simpl in Hk0. subst k0.
    assert ((getcell "PTS" x, restrict scorer_columns x) ∈ L) as Hin.
    { rewrite Hperm. unfold keyed. apply list_elem_of_fmap.
      exists (restrict scorer_columns x). split.
      - by rewrite getcell_restrict by names.
      - apply list_elem_of_fmap. by exists x. }
    apply list_elem_of_lookup in Hin as [j Hj].
    destruct j as [|j].
    + rewrite E0 in Hj. injection Hj as <- _. right.
      by destruct (cell_le_total (getcell "PTS" y0) (getcell "PTS" y0)).
    + exact (StronglySorted_lookup _ _ _ _ _ _ Hd (Nat.lt_0_succ j) E0 Hj).
Qed.

End top_scorer_edges.

(** ** Team performance: the side effect *)

Lemma sum_list_fmap_add {A} (f g : A → nat) (l : list A) :
  sum_list ((λ k, f k + g k) <$> l) = sum_list (f <$> l) + sum_list (g <$> l).
Proof. induction l as [|k l IH]; csimpl; [done|]. rewrite IH. lia. Qed.

Lemma sum_list_indicator {A} `{EqDecision A} (x : A) (l : list A) :
  NoDup l →
  sum_list ((λ k, if decide (x = k) then 1 else 0) <$> l)
  = if decide (x ∈ l) then 1 else 0.
Proof.
  induction 1 as [|k l Hk _ IH]; csimpl.
  - done.
  - rewrite IH. destruct (decide (x = k)) as [Heq|Hne].
    + subst. rewrite (decide_False (P := k ∈ l)) by done.
      by rewrite decide_True by left.
    + destruct (decide (x ∈ l)) as [Hin|Hout].
      * by rewrite decide_True by (by right).
      * rewrite decide_False; [done|]. by intros [?|?]%elem_of_cons.
Qed.

(** The groups of a list whose keys are all among those of [ks] share
    out its rows. *)
Lemma members_share by_ (ks : list cell) (l : list Row) :
  NoDup (key_of <$> ks) →
  (∀ r, r ∈ l → key_of (getcell by_ r) ∈ key_of <$> ks) →
  sum_list ((λ k, length (members by_ k l)) <$> ks) = length l.
Proof.
  intros Hnd. induction l as [|r l IH]; intros Hks.
  - clear. induction ks as [|k ks IHk]; [done|]. exact IHk.
  - assert (∀ k, length (members by_ k (r :: l)) =
                 length (members by_ k l)
                 + (if decide (key_of (getcell by_ r) = key_of k)
                    then 1 else 0)) as Hstep.
    { intros k. unfold members. rewrite filter_cons.
      case_decide; simpl; lia. }
    rewrite (list_fmap_ext _ _ ks (λ _ k _, Hstep k)).
    rewrite sum_list_fmap_add, IH by (intros r' Hr'; apply Hks; by right).
    assert ((λ k, if decide (key_of (getcell by_ r) = key_of k) then 1 else 0)
              <$> ks
            = (λ c, if decide (key_of (getcell by_ r) = c) then 1 else 0)
              <$> (key_of <$> ks)) as ->
      by (by rewrite <- list_fmap_compose).
    rewrite sum_list_indicator, decide_True by (done || apply Hks; left).
    simpl. lia.
Qed.

Lemma zip_fmap_same {A B C} (f : A → B) (g : A → C) (l : list A) :
  zip (f <$> l) (g <$> l) = (λ x, (f x, g x)) <$> l.
Proof. induction l as [|x l IH]; csimpl; [done|]. by rewrite IH. Qed.

Section team_effects.
Context `{Library}.

Lemma divisible_spec df :
  divisible df ↔
  "PTS" ∈ columns df ∧ "G" ∈ columns df ∧
  Forall (λ c, is_text c = false) (column "PTS" df) ∧
  Forall (λ c, is_text c = false) (column "G" df).
Proof. unfold divisible. by rewrite Forall_app. Qed.

(** Once the points are divided by the games, the caller's table carries
    the [PPG] column and the ranking starts. *)
Lemma analyze_team_performance_divided w data df :
  heap w !! data = Some df → divisible df →
  analyze_team_performance data w =
  rank_teams (with_ppg df)
    (mkWorld (<[data := with_ppg df]> (heap w))
             (console w ++ [Header StTeams]) (artifacts w) (disk w)).
Proof.
  intros Hdf (Hp & Hg & Tp & Tg)%divisible_spec.
  unfold analyze_team_performance. mred. rewrite Hdf. mred.
  rewrite !getitem_ok by done. mred.
  destruct (series_div_ok df Tp Tg) as [s Hs]. rewrite Hs. mred.
  rewrite Hdf. mred.
  rewrite list_lookup_insert_eq by (by eapply lookup_lt_Some). mred.
  apply series_div_inv in Hs as (-> & _ & _). done.
Qed.

Lemma analyze_team_performance_undivided w data df :
  heap w !! data = Some df → ¬ divisible df →
  ∃ e, analyze_team_performance data w = (Err e, printed w [Header StTeams]).
Proof.
  intros Hdf Hnot. unfold analyze_team_performance, printed. mred.
  rewrite Hdf. mred.
  destruct (getitem "PTS" df) as [p|] eqn:Ep; mred; [|by eauto].
  destruct (getitem "G" df) as [g|] eqn:Eg; mred; [|by eauto].
  apply getitem_inv in Ep as [Hp ->]. apply getitem_inv in Eg as [Hg ->].
  destruct (series_div _ _) as [s|] eqn:Es; mred; [|by eauto].
  apply series_div_inv in Es as (_ & Tp & Tg).
  destruct Hnot. by apply divisible_spec.
Qed.

Lemma analyze_team_performance_divisible w data df r w' :
  heap w !! data = Some df →
  analyze_team_performance data w = (Ok r, w') → divisible df.
Proof.
  intros Hdf Hrun. destruct (decide (divisible df)) as [|Hnot]; [done|].
  destruct (analyze_team_performance_undivided _ _ _ Hdf Hnot) as [e He].
  congruence.
Qed.

(** A run of the ranking that returns, in full. *)
Lemma rank_teams_run d w r w' :
  rank_teams d w = (Ok r, w') →
  ∃ sorted best worst,
    sort_values "Avg_PPG_Per_Player"
      (mkDF team_columns (team_rows (rows d))) = Ok sorted ∧
    columns sorted = team_columns ∧
    rows (with_rank sorted) !! 0 = Some best ∧
    last (rows (with_rank sorted)) = Some worst ∧
    r = length (heap w) ∧
    w' = mkWorld (heap w ++ [with_rank sorted])
           (console w ++
              [Table StTeams (with_rank sorted);
               TeamInsights
                 (getcell "Team" best, getcell "Avg_PPG_Per_Player" best)
                 (getcell "Team" worst, getcell "Avg_PPG_Per_Player" worst)
                 (average (observed
                    (column "Avg_PPG_Per_Player" (with_rank sorted))))
                 (length (rows (with_rank sorted)))])
           (artifacts w) (disk w).
Proof.
  unfold rank_teams. mred.
  destruct (groupby_agg _ _ _) as [g|] eqn:Hg; mred; [|done].
  rewrite (groupby_agg_inv _ _ Hg). mred.
  destruct (sort_values _ _) as [sorted|] eqn:Hs; mred; [|done].
  pose proof (sort_values_inv _ _ _ Hs) as (_ & Hc & _). cbn [columns] in Hc.
  unfold report_teams. mred.
  destruct (insert_rank "Rank" sorted) as [out|] eqn:Hr; mred; [|done].
  apply insert_rank_inv in Hr as [_ ->].
  change (mkDF ("Rank" :: _) _) with (with_rank sorted).
  destruct (iloc_first _) as [best|] eqn:Hb; mred; [|done].
  destruct (iloc_last _) as [worst|] eqn:Hw; mred; [|done].
  unfold series_mean.
  destruct (numeric _) as [xs|] eqn:Hn; cbn [rbind]; [|done].
  pose proof (numeric_inv _ _ Hn) as Hnum.
  rewrite (numeric_ok _ Hnum) in Hn. injection Hn as <-.
  intros [= <- <-]. exists sorted, best, worst.
  unfold iloc_first in Hb. unfold iloc_last in Hw.
  destruct (rows (with_rank sorted)) as [|x l] eqn:Hrows; [done|].
  injection Hb as <-.
  destruct (last (x :: l)) as [y|] eqn:Hl; [|done]. injection Hw as <-.
  repeat split; try done.
  rewrite <- app_assoc, <- Hrows. done.
Qed.

(** X14.  The side effect of [analyze_team_performance].  Whether the
    function returns or raises, the caller's table has received the
    [PPG] column as soon as the points could be divided by the games,
    that is when the columns [PTS] and [G] exist and hold no text; for
    one, a table without the [Tm] column is changed although the
    grouping then raises a [KeyError].  When the points cannot be
    divided the function raises and no table is changed. *)
Theorem analyze_team_performance_side_effect w data df :
  heap w !! data = Some df →
  (divisible df →
   heap (analyze_team_performance data w).2 !! data = Some (with_ppg df) ∧
   ("Tm" ∉ columns df →
    (analyze_team_performance data w).1 = Err (KeyError ["Tm"]))) ∧
  (¬ divisible df →
   heap (analyze_team_performance data w).2 = heap w ∧
   ∃ e, (analyze_team_performance data w).1 = Err e).
Proof.
  intros Hdf. split.
  - intros Hdiv. rewrite (analyze_team_performance_divided _ _ _ Hdf Hdiv).
    assert (data < length (heap w)) as Hlt by (by eapply lookup_lt_Some).
    split.
    + unfold rank_teams, report_teams. mcases; cbn [snd heap];
        first [ apply lookup_app_l_Some, list_lookup_insert_eq, Hlt
              | apply list_lookup_insert_eq, Hlt ].
    + intros Hno. unfold rank_teams, groupby_agg, require_columns.
      assert (missing_columns ["Tm"] (with_ppg df) = ["Tm"]) as ->; [|done].
      unfold missing_columns. rewrite filter_cons, decide_True; [done|].
      unfold with_ppg. cbn [columns]. destruct (has_column "PPG" df); [done|].
      rewrite elem_of_app, list_elem_of_singleton. by intros [?|?].
  - intros Hnot.
    destruct (analyze_team_performance_undivided _ _ _ Hdf Hnot) as [e ->].
    split; [done|]. by exists e.
Qed.

End team_effects.

(** ** Team performance: counts, insights, a second run, the chart *)

Lemma sum_list_perm (l k : list nat) : l ≡ₚ k → sum_list l = sum_list k.
Proof. induction 1; simpl; lia. Qed.

Lemma num_lt_irrefl a : num_lt a a = false.
Proof.
  destruct a as [x| | |]; simpl; try done.
  apply bool_decide_eq_false, Qcle_not_lt, Qcle_refl.
Qed.

(** In numbers that never increase none is above the first and none
    below the last. *)
Lemma sorted_ends (l : list num) b z a :
  StronglySorted (λ a b, num_lt a b = false) l →
  l !! 0 = Some b → last l = Some z → a ∈ l →
  num_lt b a = false ∧ num_lt a z = false.
Proof.
  intros Hs Hb Hz [j Hj]%list_elem_of_lookup. rewrite last_lookup in Hz.
  pose proof (lookup_lt_Some _ _ _ Hj) as Hlt. split.
  - destruct j as [|j].
    + rewrite Hb in Hj. injection Hj as <-. apply num_lt_irrefl.
    + exact (StronglySorted_lookup _ l 0 (S j) _ _ Hs (Nat.lt_0_succ j) Hb Hj).
  - destruct (decide (j = pred (length l))) as [->|Hne].
    + rewrite Hz in Hj. injection Hj as <-. apply num_lt_irrefl.
    + assert (j < pred (length l)) as Hjz by lia.
      exact (StronglySorted_lookup _ l j _ _ _ Hs Hjz Hj Hz).
Qed.

Section team_table_more.
Context `{Library}.

Lemma with_ppg_idemp df : with_ppg (with_ppg df) = with_ppg df.
Proof.
  assert (has_column "PPG" (with_ppg df) = true) as Hhas
    by apply bool_decide_eq_true_2, with_ppg_has_ppg.
  unfold with_ppg at 1. rewrite Hhas. unfold with_ppg. cbn [columns rows].
  f_equal. rewrite <- list_fmap_compose.
  apply list_fmap_ext. intros i x _. simpl.
  unfold ppg. rewrite !getcell_setcell_ne by done.
  unfold setcell. cbn [label cells]. by rewrite insert_insert_eq.
Qed.

Lemma with_ppg_divisible df : divisible df → divisible (with_ppg df).
Proof.
  rewrite !divisible_spec. intros (Hp & Hg & Tp & Tg).
  rewrite !with_ppg_column by done.
  repeat split; try done; by apply with_ppg_columns.
Qed.

(** A run of [analyze_team_performance] that returns, in full. *)
Lemma analyze_team_performance_run w data df r w' :
  heap w !! data = Some df →
  analyze_team_performance data w = (Ok r, w') →
  ∃ sorted best worst,
    sort_values "Avg_PPG_Per_Player"
      (mkDF team_columns (team_rows (rows (with_ppg df)))) = Ok sorted ∧
    columns sorted = team_columns ∧
    rows (with_rank sorted) !! 0 = Some best ∧
    last (rows (with_rank sorted)) = Some worst ∧
    r = length (heap w) ∧
    w' = mkWorld (<[data := with_ppg df]> (heap w) ++ [with_rank sorted])
           (console w ++
              [Header StTeams; Table StTeams (with_rank sorted);
               TeamInsights
                 (getcell "Team" best, getcell "Avg_PPG_Per_Player" best)
                 (getcell "Team" worst, getcell "Avg_PPG_Per_Player" worst)
                 (average (observed
                    (column "Avg_PPG_Per_Player" (with_rank sorted))))
                 (length (rows (with_rank sorted)))])
           (artifacts w) (disk w).
Proof.
  intros Hdf Hrun.
  pose proof (analyze_team_performance_divisible _ _ _ _ _ Hdf Hrun) as Hdiv.
  rewrite (analyze_team_performance_divided _ _ _ Hdf Hdiv) in Hrun.
  apply rank_teams_run in Hrun
    as (sorted & best & worst & Hs & Hc & Hb & Hw & -> & ->).
  exists sorted, best, worst. cbn [heap console artifacts disk].
  rewrite length_insert, <- app_assoc. done.
Qed.

(** X15.  The team table shares out the rows.  On a cleaned table the
    counts in [Total_Players] are the sizes of the teams and add up to
    the number of rows of the input: every row is counted for exactly
    one team.  The table has as many rows as the [Tm] column has
    distinct values, the number the report gives as the teams
    represented. *)
Theorem team_table_counts_rows w data df r w' :
  heap w !! data = Some df →
  cleaned df →
  analyze_team_performance data w = (Ok r, w') →
  ∃ out counts, heap w' !! r = Some out ∧
    column "Total_Players" out = (λ n, Num (Fin (Qc_of_nat n))) <$> counts ∧
    sum_list counts = length (rows df) ∧
    length (rows out) = nunique (column "Tm" df).
Proof.
  intros Hdf Hclean Hrun.
  destruct (analyze_team_performance_run _ _ _ _ _ Hdf Hrun)
    as (sorted & best & worst & Hs & _ & _ & _ & -> & ->).
  exists (with_rank sorted),
    ((λ k, length (members "Tm" k (rows df)))
       <$> (getcell "Team" <$> rows sorted)).
  cbn [heap].
  split; [rewrite <- (length_insert (heap w) data (with_ppg df));
          apply lookup_new|].
  pose proof (sorted_teams _ _ Hs) as Hteams.
  split; [|split].
  - unfold column, with_rank. cbn [rows]. rewrite ranked_column by done.
    rewrite <- !list_fmap_compose. apply list_fmap_ext. intros i y Hy.
    simpl.
    pose proof (sorted_summary _ _ _ Hclean Hs (list_elem_of_lookup_2 _ _ _ Hy))
      as (Hcount & _). exact Hcount.
  - rewrite (sum_list_perm _ _ (fmap_Permutation _ _ _ Hteams)).
    apply members_share; [apply group_keys_NoDup|].
    intros x Hx. by apply team_keys_cover.
  - unfold with_rank. cbn [rows]. rewrite length_imap.
    rewrite <- (length_fmap (getcell "Team")), Hteams.
    unfold group_keys, nunique.
    rewrite (Permutation_length (merge_sort_Permutation _ _)).
    change (getcell "Tm" <$> rows (with_ppg df))
      with (column "Tm" (with_ppg df)).
    by rewrite with_ppg_column.
Qed.

(** X16.  The insights of [analyze_team_performance].  A run that
    returns has printed its banner, the table it returns and one line of
    insights.  The team given as the highest scoring is the first row of
    that table and no team's average is above its average; the team
    given as the lowest scoring is the last row and no team's average is
    below its average; the number of teams given is the number of rows
    of the table. *)
Theorem analyze_team_performance_insights w data df r w' :
  heap w !! data = Some df →
  analyze_team_performance data w = (Ok r, w') →
  ∃ out best worst, heap w' !! r = Some out ∧
    rows out !! 0 = Some best ∧ last (rows out) = Some worst ∧
    console w' = console w ++
      [Header StTeams; Table StTeams out;
       TeamInsights
         (getcell "Team" best, getcell "Avg_PPG_Per_Player" best)
         (getcell "Team" worst, getcell "Avg_PPG_Per_Player" worst)
         (average (observed (column "Avg_PPG_Per_Player" out)))
         (length (rows out))] ∧
    ∀ y, y ∈ rows out →
      num_lt (avg_ppg best) (avg_ppg y) = false ∧
      num_lt (avg_ppg y) (avg_ppg worst) = false.
Proof.
  intros Hdf Hrun.
  destruct (analyze_team_performance_run _ _ _ _ _ Hdf Hrun)
    as (sorted & best & worst & Hs & _ & Hb & Hw & -> & ->).
  exists (with_rank sorted), best, worst. cbn [heap console].
  split; [rewrite <- (length_insert (heap w) data (with_ppg df));
          apply lookup_new|].
  split; [done|]. split; [done|]. split; [done|].
  intros y Hy.
  apply (sorted_ends (avg_ppg <$> rows (with_rank sorted))).
  - unfold avg_ppg, with_rank. cbn [rows].
    rewrite (list_fmap_compose (getcell "Avg_PPG_Per_Player") cell_num).
    rewrite ranked_column by done. by eapply sorted_pts.
  - by rewrite list_lookup_fmap, Hb.
  - by rewrite fmap_last, Hw.
  - apply list_elem_of_fmap. by exists y.
Qed.

(** The ranking makes the same table in every world. *)
Lemma rank_teams_transfer d wa wb r w' :
  rank_teams d wa = (Ok r, w') →
  ∃ t, r = length (heap wa) ∧ heap w' = heap wa ++ [t] ∧
    ∃ w'', rank_teams d wb = (Ok (length (heap wb)), w'') ∧
           heap w'' = heap wb ++ [t].
Proof.
  unfold rank_teams, report_teams. mcases; try done.
  intros [= <- <-]. eexists. split; [done|]. split; [done|].
  eexists. split; [done|]. done.
Qed.

(** X17.  A second run.  When [analyze_team_performance] has returned,
    calling it again on the same table returns as well: the [PPG] column
    is computed anew from the same points and games, the caller's table
    stays as the first run left it, and the second result is a new table
    equal to the first. *)
Theorem analyze_team_performance_again w data df r1 w1 :
  heap w !! data = Some df →
  analyze_team_performance data w = (Ok r1, w1) →
  ∃ r2 w2,
    analyze_team_performance data w1 = (Ok r2, w2) ∧
    r2 ≠ r1 ∧
    heap w2 !! r2 = heap w1 !! r1 ∧
    heap w2 !! data = heap w1 !! data.
Proof.
  intros Hdf Hrun.
  pose proof (analyze_team_performance_divisible _ _ _ _ _ Hdf Hrun) as Hdiv.
  assert (data < length (heap w)) as Hlt by (by eapply lookup_lt_Some).
  rewrite (analyze_team_performance_divided _ _ _ Hdf Hdiv) in Hrun.
  set (wa := mkWorld _ _ _ _) in Hrun.
  assert (heap wa !! data = Some (with_ppg df)) as Hcaller
    by (by apply list_lookup_insert_eq).
  destruct (rank_teams_transfer _ wa
              (mkWorld (heap w1) (console w1 ++ [Header StTeams])
                       (artifacts w1) (disk w1)) _ _ Hrun)
    as (t & -> & Hw1 & w2 & Hrun2 & Hw2).
  assert (heap w1 !! data = Some (with_ppg df)) as Hdata.
  { rewrite Hw1. by apply lookup_app_l_Some. }
  exists (length (heap w1)), w2. split; [|split; [|split]].
  - rewrite (analyze_team_performance_divided _ _ _ Hdata)
      by (by apply with_ppg_divisible).
    rewrite with_ppg_idemp. unfold ref.
    rewrite (list_insert_id _ _ _ Hdata). exact Hrun2.
  - rewrite Hw1, length_app. simpl. lia.
  - rewrite Hw2. cbn [heap]. rewrite lookup_new, Hw1. by rewrite lookup_new.
  - rewrite Hw2. cbn [heap]. rewrite Hdata. by apply lookup_app_l_Some.
Qed.

(** X18.  The chart of the team table.  On the table
    [analyze_team_performance] returned, [create_visualization] returns:
    it saves one file, [team_performance.png], changes no table, and
    draws one bar for each of the first twenty rows of the table, or for
    all rows when there are fewer, in the order of the ranking, labelled
    with the team and as high as the team's average. *)
Theorem chart_of_team_table w data df r w1 :
  heap w !! data = Some df →
  analyze_team_performance data w = (Ok r, w1) →
  ∃ out, heap w1 !! r = Some out ∧
    create_visualization r w1 =
      (Ok tt,
       mkWorld (heap w1)
         (console w1 ++
            [Header StChart;
             ChartSaved "team_performance.png"
               ((λ x, (getcell "Team" x, getcell "Avg_PPG_Per_Player" x))
                  <$> take 20 (rows out));
             ChartShown])
         (artifacts w1 ++ ["team_performance.png"]) (disk w1)) ∧
    length (take 20 (rows out)) = 20 `min` length (rows out).
Proof.
  intros Hdf Hrun.
  destruct (analyze_team_performance_run _ _ _ _ _ Hdf Hrun)
    as (sorted & best & worst & _ & Hc & _ & _ & -> & ->).
  exists (with_rank sorted). cbn [heap console artifacts disk].
  assert ((<[data := with_ppg df]> (heap w) ++ [with_rank sorted])
            !! length (heap w) = Some (with_rank sorted)) as Hout.
  { rewrite <- (length_insert (heap w) data (with_ppg df)). apply lookup_new. }
  split; [exact Hout|]. split; [|apply length_take].
  unfold create_visualization. mred. unfold ref in *. rewrite Hout. mred.
  rewrite !getitem_ok
    by (unfold with_rank; cbn [head columns]; rewrite Hc; names).
  mred. unfold column. rewrite head_rows by lia.
  rewrite zip_fmap_same, <- !app_assoc. done.
Qed.

End team_table_more.

(** ** Loading, preview, chart and report: the runs *)

Lemma load_data_loaded w path table :
  disk w !! path = Some (Csv table) →
  load_data path w =
    (Ok (Some (length (heap w))),
     mkWorld (heap w ++ [table])
       (console w ++
          [Header StLoad; Loaded (length (rows table)) (length (columns table))])
       (artifacts w) (disk w)).
Proof.
  intros Hpath. unfold load_data. mred. rewrite Hpath. mred.
  by rewrite <- app_assoc.
Qed.

Lemma preview_data_run w data df :
  heap w !! data = Some df →
  columns df ≠ [] →
  preview_data data w =
    (Ok tt, printed w [Header StPreview; Preview (rows (head 5 df)) (columns df)]).
Proof.
  intros Hdf Hcols. unfold preview_data, printed. mred. rewrite Hdf. mred.
  unfold describe. destruct (columns df); [done|].
  by rewrite <- app_assoc.
Qed.

Lemma create_visualization_ok w team_stats out :
  heap w !! team_stats = Some out →
  "Avg_PPG_Per_Player" ∈ columns out → "Team" ∈ columns out →
  create_visualization team_stats w =
    (Ok tt,
     mkWorld (heap w)
       (console w ++
          [Header StChart;
           ChartSaved "team_performance.png"
             ((λ x, (getcell "Team" x, getcell "Avg_PPG_Per_Player" x))
                <$> take 20 (rows out));
           ChartShown])
       (artifacts w ++ ["team_performance.png"]) (disk w)).
Proof.
  intros Hout Havg Hteam.
  unfold create_visualization. mred. rewrite Hout. mred.
  rewrite !getitem_ok by done.
  mred. unfold column. rewrite head_rows by lia.
  rewrite zip_fmap_same, <- !app_assoc. done.
Qed.

Lemma Forall_sublist_of {A} (P : A → Prop) (k l : list A) :
  k `sublist_of` l → Forall P l → Forall P k.
Proof.
  intros Hsub Hl. rewrite Forall_forall in *.
  intros x Hx. eapply Hl, elem_of_sublist; done.
Qed.

Lemma uniform_comparable (ks : list cell) :
  Forall (λ c, is_text c = false) ks ∨ Forall (λ c, is_text c = true) ks →
  comparable (filter (λ k, isna k = false) ks).
Proof.
  intros [Hnum|Htext]; [right|left]; apply Forall_forall;
    intros k [_ Hk]%list_elem_of_filter.
  - rewrite Forall_forall in Hnum. by apply Hnum.
  - rewrite Forall_forall in Htext. apply Is_true_true. by apply Htext.
Qed.

Section whole_script.
Context `{Library}.

Lemma generate_summary_report_ok w data top_scorers team_stats df top teams
    scorer team :
  heap w !! data = Some df →
  (∀ c, c ∈ ["Player"; "Tm"; "Year"] → c ∈ columns df) →
  comparable (filter (λ k, isna k = false) (column "Year" df)) →
  heap w !! top_scorers = Some top → rows top !! 0 = Some scorer →
  heap w !! team_stats = Some teams → rows teams !! 0 = Some team →
  ∃ years,
    generate_summary_report data top_scorers team_stats w =
      (Ok tt,
       printed w
         [Header StReport;
          Summary (length (rows df)) (nunique (column "Player" df))
                  (nunique (column "Tm" df)) years scorer team]).
Proof.
  intros Hdf Hcols Hyears Htop Hscorer Hteams Hteam.
  unfold generate_summary_report, printed. mred. rewrite Hdf. mred.
  rewrite !getitem_ok by (apply Hcols; names). mred.
  unfold cell_extreme. rewrite !decide_True by done. mred.
  rewrite Htop. mred. unfold iloc_first.
  destruct (rows top) as [|x l]; [done|]. injection Hscorer as ->. mred.
  rewrite Hteams. mred.
  destruct (rows teams) as [|y k]; [done|]. injection Hteam as ->. mred.
  eexists. by rewrite <- app_assoc.
Qed.

(** X22.  The errors of the report.  [generate_summary_report] reads the
    columns [Player], [Tm] and [Year] in that order, and raises the
    [KeyError] of the first one the table lacks.  When the three exist
    and the years are of one kind, a ranking of top scorers without rows
    makes it raise the [IndexError] of the first [iloc[0]]. *)
Theorem generate_summary_report_errors w data top_scorers team_stats df :
  heap w !! data = Some df →
  (∀ c rest,
     missing_columns ["Player"; "Tm"; "Year"] df = c :: rest →
     (generate_summary_report data top_scorers team_stats w).1
       = Err (KeyError [c])) ∧
  (∀ top,
     missing_columns ["Player"; "Tm"; "Year"] df = [] →
     uniform_years df →
     heap w !! top_scorers = Some top → rows top = [] →
     (generate_summary_report data top_scorers team_stats w).1
       = Err IndexError).
Proof.
  intros Hdf. split.
  - intros c rest Hmiss.
    unfold generate_summary_report. mred. rewrite Hdf. mred.
    unfold getitem, has_column. revert Hmiss.
    unfold missing_columns. rewrite !filter_cons, filter_nil.
    repeat case_decide; intros [= <- <-];
      rewrite ?bool_decide_eq_true_2, ?bool_decide_eq_false_2 by done;
      mred; rewrite ?bool_decide_eq_true_2, ?bool_decide_eq_false_2 by done;
      mred; rewrite ?bool_decide_eq_true_2, ?bool_decide_eq_false_2 by done;
      mred; done.
  - intros top Hmiss Hyears Htop Hrows.
    assert (∀ c, c ∈ ["Player"; "Tm"; "Year"] → c ∈ columns df) as Hcols.
    { apply (require_columns_inv _ _ tt). unfold require_columns.
      by rewrite Hmiss. }
    unfold generate_summary_report. mred. rewrite Hdf. mred.
    rewrite !getitem_ok by (apply Hcols; names). mred.
    unfold cell_extreme.
    rewrite !decide_True by (by apply uniform_comparable). mred.
    rewrite Htop. mred. unfold iloc_first. rewrite Hrows. mred. done.
Qed.

Lemma clean_data_returns w data raw :
  heap w !! data = Some raw →
  (∀ c, c ∈ critical → c ∈ columns raw) →
  clean_data data w =
    (Ok (length (heap w)),
     mkWorld (heap w ++ [mkDF (columns raw) (clean_rows raw)])
       (console w ++
          [Header StClean;
           Cleaned (Z.of_nat (length (rows raw))
                    - Z.of_nat (length (clean_rows raw)))%Z
                   (length (clean_rows raw))])
       (artifacts w) (disk w)).
Proof.
  intros Hraw Hcols.
  destruct (clean_data_ok _ _ _ Hraw Hcols) as [w' Hrun].
  by destruct (clean_data_run _ _ _ _ _ Hraw Hrun) as (_ & _ & <-).
Qed.

Lemma cleaned_rows raw :
  (∀ c, c ∈ critical → c ∈ columns raw) →
  cleaned (mkDF (columns raw) (clean_rows raw)).
Proof.
  intros Hcols.
  assert (heap (holding [raw]) !! 0 = Some raw) as Hraw by done.
  destruct (clean_data_ok _ _ _ Hraw Hcols) as [w' Hrun].
  destruct (clean_data_cleaned _ _ _ _ _ Hraw Hrun) as (out & Hout & Hc).
  destruct (clean_data_run _ _ _ _ _ Hraw Hrun) as (_ & _ & ->).
  cbn in Hout. by injection Hout as <-.
Qed.

End whole_script.

(** ** The analyses, as [main] runs them *)

Section main_runs.
Context `{Library}.

Lemma analyze_top_scorers_returns w data df top_n :
  heap w !! data = Some df →
  (∀ c, c ∈ scorer_columns → c ∈ columns df) →
  Forall (λ c, is_text c = false) (column "PTS" df) →
  ∃ sorted,
    sort_values "PTS"
      (mkDF scorer_columns (restrict scorer_columns <$> rows df)) = Ok sorted ∧
    analyze_top_scorers data top_n w =
      (Ok (length (heap w)),
       mkWorld (heap w ++ [with_rank (head top_n sorted)])
         (console w ++
            [Header StTopScorers;
             Table StTopScorers (with_rank (head top_n sorted));
             TopInsights
               (extreme num_max
                  (observed (column "PTS" (with_rank (head top_n sorted)))))
               (average
                  (observed (column "PTS" (with_rank (head top_n sorted)))))
               (extreme num_min
                  (observed (column "PTS" (with_rank (head top_n sorted)))))])
         (artifacts w) (disk w)).
Proof.
  intros Hdf Hcols Hnum.
  destruct (analyze_top_scorers_ok _ _ _ top_n Hdf Hcols Hnum)
    as (r & w' & Hrun).
  destruct (analyze_top_scorers_run _ _ _ _ _ _ Hdf Hrun)
    as (sorted & _ & Hs & _ & _ & -> & ->).
  by exists sorted.
Qed.

Lemma analyze_team_performance_returns w data df :
  heap w !! data = Some df → cleaned df → rows df ≠ [] →
  ∃ sorted best worst,
    sort_values "Avg_PPG_Per_Player"
      (mkDF team_columns (team_rows (rows (with_ppg df)))) = Ok sorted ∧
    columns sorted = team_columns ∧
    rows (with_rank sorted) !! 0 = Some best ∧
    analyze_team_performance data w =
      (Ok (length (heap w)),
       mkWorld (<[data := with_ppg df]> (heap w) ++ [with_rank sorted])
         (console w ++
            [Header StTeams; Table StTeams (with_rank sorted);
             TeamInsights
               (getcell "Team" best, getcell "Avg_PPG_Per_Player" best)
               (getcell "Team" worst, getcell "Avg_PPG_Per_Player" worst)
               (average (observed
                  (column "Avg_PPG_Per_Player" (with_rank sorted))))
               (length (rows (with_rank sorted)))])
         (artifacts w) (disk w)).
Proof.
  intros Hdf Hclean Hne.
  destruct (team_run_ok _ _ _ Hdf Hclean Hne) as (r & w' & Hrun).
  destruct (analyze_team_performance_run _ _ _ _ _ Hdf Hrun)
    as (sorted & best & worst & Hs & Hc & Hb & _ & -> & ->).
  by exists sorted, best, worst.
Qed.

(** The years of the cleaned table with its [PPG] column are years of
    the input. *)
Lemma cleaned_years raw :
  column "Year" (with_ppg (mkDF (columns raw) (clean_rows raw)))
    `sublist_of` column "Year" raw.
Proof.
  rewrite with_ppg_column by done. unfold column, clean_rows. cbn [rows].
  induction (rows raw) as [|r l IH]; [done|].
  rewrite filter_cons. destruct (decide (complete_on critical r)).
  - csimpl. rewrite filter_cons.
    assert (getcell "Year" (coerce_row (present raw) r) = getcell "Year" r)
      as Hyear.
    { apply getcell_coerce_row_other. rewrite present_spec.
      intros [_ Hc]. revert Hc. names. }
    case_decide; csimpl.
    + rewrite Hyear. by apply sublist_skip.
    + by apply sublist_cons.
  - csimpl. by apply sublist_cons.
Qed.

End main_runs.

(** ** The whole script *)

Section main_theorems.
Context `{Library}.

(** The team analysis of a table without rows does not return. *)
Lemma analyze_team_performance_no_rows w data df r w' :
  heap w !! data = Some df → rows df = [] →
  analyze_team_performance data w = (Ok r, w') → False.
Proof.
  intros Hdf Hrows Hrun.
  destruct (analyze_team_performance_run _ _ _ _ _ Hdf Hrun)
    as (sorted & best & worst & Hs & _ & Hb & _).
  apply sorted_rows_perm in Hs. cbn [rows] in Hs.
  unfold with_ppg in Hs. cbn [rows] in Hs. rewrite Hrows in Hs.
  apply Permutation_nil_r in Hs.
  unfold with_rank in Hb. cbn [rows] in Hb. by rewrite Hs in Hb.
Qed.

(** X25.  Cleaning prepares the analyses.  On the table [clean_data]
    returned, [analyze_top_scorers] returns exactly when the input had
    the columns [Year] and [MP] besides the four critical ones, and
    [analyze_team_performance] returns exactly when the cleaned table
    has at least one row. *)
Theorem analyses_after_cleaning w data raw r w1 :
  heap w !! data = Some raw →
  clean_data data w = (Ok r, w1) →
  ∃ out, heap w1 !! r = Some out ∧
    (∀ top_n,
       (∃ r' w2, analyze_top_scorers r top_n w1 = (Ok r', w2)) ↔
       "Year" ∈ columns raw ∧ "MP" ∈ columns raw) ∧
    ((∃ r' w2, analyze_team_performance r w1 = (Ok r', w2)) ↔
     rows out ≠ []).
Proof.
  intros Hraw Hrun.
  destruct (clean_data_run _ _ _ _ _ Hraw Hrun) as (Hcrit & -> & ->).
  set (out := mkDF (columns raw) (clean_rows raw)).
  set (w1 := mkWorld _ _ _ _).
  assert (heap w1 !! length (heap w) = Some out) as Hout by apply lookup_new.
  pose proof (cleaned_rows raw Hcrit) as Hclean. fold out in Hclean.
  exists out. split; [done|]. split; [|split].
  - intros top_n. split.
    + intros (r' & w2 & Htop).
      destruct (analyze_top_scorers_run _ _ _ _ _ _ Hout Htop)
        as (_ & Hcols & _).
      split; apply Hcols; names.
    + intros [Hyear Hmp].
      apply (analyze_top_scorers_ok _ _ out); [done| |].
      * intros c. unfold scorer_columns. rewrite !elem_of_cons.
        intros [->|[->|[->|[->|[->|[->|[]%elem_of_nil]]]]]]; try done;
          apply Hcrit; names.
      * apply cleaned_numbers; [done|names].
  - intros (r' & w2 & Hteams) Hnil.
    exact (analyze_team_performance_no_rows _ _ _ _ _ Hout Hnil Hteams).
  - intros Hne. by apply (team_run_ok _ _ out).
Qed.

(** X19.  The whole script, when it succeeds.  Let the file parse as a
    table that has the six columns of the top scorers, whose years are
    numbers throughout or text throughout, and of whose rows at least one
    is kept by the cleaning.  Then [main] returns.  It has gone through
    its seven stages in order and has saved the chart, its only file.
    It leaves four tables: the table as loaded, unchanged; the cleaned
    table, which has as many rows as the input has rows that are kept,
    and which carries the [PPG] column; the top scorers; the teams.  The
    report, printed last, is made from that cleaned table and from the
    first rows of the two rankings. *)
Theorem main_succeeds w table :
  disk w !! "data/NBA_Player_Stats.csv" = Some (Csv table) →
  (∀ c, c ∈ scorer_columns → c ∈ columns table) →
  uniform_years table →
  filter kept (rows table) ≠ [] →
  ∃ w' data top teams out,
    main w = (Ok tt, w') ∧
    heap w' = heap w ++ [table; data; top; teams] ∧
    artifacts w' = artifacts w ++ ["team_performance.png"] ∧
    console w' = console w ++ out ∧
    headers out = [StLoad; StPreview; StClean; StTopScorers; StTeams;
                   StChart; StReport] ∧
    length (rows data) = length (filter kept (rows table)) ∧
    "PPG" ∈ columns data ∧
    ∃ years scorer team,
      rows top !! 0 = Some scorer ∧ rows teams !! 0 = Some team ∧
      last out =
        Some (Summary (length (rows data)) (nunique (column "Player" data))
                (nunique (column "Tm" data)) years scorer team).
Proof.
  intros Hpath Hcols Hyears Hkept.
  assert (∀ c, c ∈ critical → c ∈ columns table) as Hcrit.
  { intros c. unfold critical. rewrite !elem_of_cons.
    intros [->|[->|[->|[->|[]%elem_of_nil]]]]; apply Hcols; names. }
  set (cleaned_table := mkDF (columns table) (clean_rows table)).
  pose proof (cleaned_rows table Hcrit) as Hclean.
  assert (rows cleaned_table ≠ []) as Hrows.
  { unfold cleaned_table. cbn [rows]. rewrite kept_rows by (apply Hcrit; names).
    intros Hnil%fmap_nil_inv. done. }
  (* loading and preview *)
  unfold main. cbn zeta. unfold bind at 1.
  rewrite (load_data_loaded _ _ _ Hpath). cbn beta iota.
  set (n := length (heap w)).
  set (w1 := mkWorld _ _ _ _).
  assert (heap w1 !! n = Some table) as H1 by apply lookup_new.
  assert (columns table ≠ []) as Hsome.
  { intros Hnil. assert ("PTS" ∈ columns table) as Hp by (apply Hcols; names).
    rewrite Hnil in Hp. by apply elem_of_nil in Hp. }
  unfold bind at 1. rewrite (preview_data_run _ _ _ H1 Hsome). cbn beta iota.
  set (w2 := printed w1 _).
  (* cleaning *)
  unfold bind at 1. rewrite (clean_data_returns w2 n table H1 Hcrit).
  cbn beta iota. fold cleaned_table.
  set (w3 := mkWorld _ _ _ _).
  assert (length (heap w2) = S n) as Hn2.
  { unfold w2, w1, n. cbn [heap printed]. rewrite length_app. simpl. lia. }
  rewrite Hn2.
  assert (heap w3 !! S n = Some cleaned_table) as H3.
  { unfold w3. cbn [heap]. rewrite <- Hn2. apply lookup_new. }
  (* top scorers *)
  destruct (analyze_top_scorers_returns w3 (S n) cleaned_table 10 H3)
    as (by_points & Hsp & Htop).
  { done. } { apply cleaned_numbers; [done|names]. }
  unfold bind at 1. rewrite Htop. cbn beta iota.
  set (top := with_rank (head 10 by_points)) in *.
  set (w4 := mkWorld _ _ _ _).
  assert (heap w4 !! S n = Some cleaned_table) as H4.
  { unfold w4. cbn [heap]. by apply lookup_app_l_Some. }
  (* teams *)
  destruct (analyze_team_performance_returns w4 (S n) cleaned_table H4)
    as (by_average & best & worst & Hsa & Hca & Hbest & Hteams); [done..|].
  unfold bind at 1. rewrite Hteams. cbn beta iota.
  set (teams := with_rank by_average) in *.
  set (w5 := mkWorld _ _ _ _).
  assert (length (heap w3) = S (S n)) as Hn3.
  { unfold w3. cbn [heap]. rewrite length_app, Hn2. simpl. lia. }
  assert (length (heap w4) = S (S (S n))) as Hn4.
  { unfold w4. cbn [heap]. rewrite length_app, Hn3. simpl. lia. }
  assert (heap w5 = heap w ++ [table; with_ppg cleaned_table; top; teams])
    as Hheap.
  { unfold w5, w4, w3, w2, w1, printed. cbn [heap].
    rewrite <- !app_assoc. cbn [app].
    rewrite (insert_app_r_alt (heap w)) by (unfold n; lia).
    replace (S n - length (heap w)) with 1 by (unfold n; lia).
    cbn. by rewrite <- app_assoc. }
  rewrite Hn3, Hn4.
  (* the chart *)
  assert (heap w5 !! S (S (S n)) = Some teams) as H5.
  { rewrite Hheap. unfold n. by rewrite lookup_app_r, Nat.sub_succ_l,
      Nat.sub_succ_l, Nat.sub_succ_l, Nat.sub_diag by lia. }
  unfold bind at 1.
  rewrite (create_visualization_ok w5 _ teams H5)
    by (unfold teams, with_rank; cbn [columns]; rewrite Hca; names).
  cbn beta iota.
  set (w6 := mkWorld _ _ _ _).
  (* the report *)
  assert (heap w6 !! S n = Some (with_ppg cleaned_table)) as Hdata.
  { unfold w6. cbn [heap]. rewrite Hheap. unfold n.
    by rewrite lookup_app_r, Nat.sub_succ_l, Nat.sub_diag by lia. }
  assert (heap w6 !! S (S n) = Some top) as Htop6.
  { unfold w6. cbn [heap]. rewrite Hheap. unfold n.
    by rewrite lookup_app_r, Nat.sub_succ_l, Nat.sub_succ_l, Nat.sub_diag
      by lia. }
  assert (∃ scorer, rows top !! 0 = Some scorer) as [scorer Hscorer].
  { unfold top, with_rank. cbn [rows]. rewrite head_rows by lia.
    pose proof (sorted_rows_perm _ _ _ Hsp) as Hperm. cbn [rows] in Hperm.
    destruct (rows by_points) as [|x l].
    - symmetry in Hperm. apply Permutation_nil_r, fmap_nil_inv in Hperm. done.
    - cbn. eauto. }
  assert (rows teams !! 0 = Some best) as Hteam by done.
  destruct (generate_summary_report_ok w6 (S n) (S (S n)) (S (S (S n)))
              (with_ppg cleaned_table) top teams scorer best)
    as (years & Hreport); try done.
  { intros c. rewrite !elem_of_cons.
    intros [->|[->|[->|[]%elem_of_nil]]];
      apply with_ppg_columns; cbn [columns cleaned_table]; apply Hcols; names. }
  { apply uniform_comparable.
    pose proof (cleaned_years table) as Hsub. fold cleaned_table in Hsub.
    destruct Hyears as [Hy|Hy]; [left|right];
      by eapply Forall_sublist_of. }
  rewrite Hreport.
  eexists _, (with_ppg cleaned_table), top, teams, _.
  split; [reflexivity|]. unfold printed. cbn [heap console artifacts disk].
  split; [exact Hheap|].
  split; [reflexivity|].
  split.
  { unfold w6, w5, w4, w3, w2, w1, printed. cbn [console].
    rewrite <- !app_assoc. reflexivity. }
  split; [reflexivity|].
  split.
  { unfold with_ppg, cleaned_table. cbn [rows].
    rewrite length_fmap, kept_rows by (apply Hcrit; names).
    by rewrite length_fmap. }
  split; [apply with_ppg_has_ppg|].
  exists years, scorer, best. split; [done|]. split; [done|]. reflexivity.
Qed.

Lemma stage_files w data top_n top_scorers team_stats :
  artifacts (preview_data data w).2 = artifacts w ∧
  artifacts (clean_data data w).2 = artifacts w ∧
  artifacts (analyze_top_scorers data top_n w).2 = artifacts w ∧
  artifacts (analyze_team_performance data w).2 = artifacts w ∧
  artifacts (generate_summary_report data top_scorers team_stats w).2
    = artifacts w ∧
  artifacts (create_visualization team_stats w).2 =
    match (create_visualization team_stats w).1 with
    | Ok _ => artifacts w ++ ["team_performance.png"]
    | Err _ => artifacts w
    end.
Proof.
  repeat split.
  - unfold preview_data. by mcases.
  - unfold clean_data. by mcases.
  - unfold analyze_top_scorers. by mcases.
  - unfold analyze_team_performance. by mcases.
  - unfold generate_summary_report. by mcases.
  - unfold create_visualization. by mcases.
Qed.

Lemma preview_data_frame w data : heap (preview_data data w).2 = heap w.
Proof. unfold preview_data. by mcases. Qed.

(** X20.  The whole script, when no row is usable.  When the file
    parses as a table of whose rows none is kept by the cleaning, a file
    with a header and no rows for one, [main] does not complete: it
    raises, at the latest where the team analysis reads the first row of
    an empty ranking, and it saves no chart. *)
Theorem main_without_rows_fails w table :
  disk w !! "data/NBA_Player_Stats.csv" = Some (Csv table) →
  filter kept (rows table) = [] →
  ∃ e w', main w = (Err e, w') ∧ artifacts w' = artifacts w.
Proof.
  intros Hpath Hkept.
  unfold main. cbn zeta. unfold bind at 1.
  rewrite (load_data_loaded _ _ _ Hpath). cbn beta iota.
  set (n := length (heap w)).
  set (w1 := mkWorld _ _ _ _).
  assert (heap w1 !! n = Some table) as H1 by apply lookup_new.
  (* preview *)
  unfold bind at 1.
  pose proof (stage_files w1 n 10 0 0) as (Hf2 & _).
  pose proof (preview_data_frame w1 n) as Hh2.
  destruct (preview_data n w1) as [[[]|e] w2] eqn:Hpreview; cbn beta iota;
    cbn [snd] in Hf2, Hh2; change (artifacts w1) with (artifacts w) in Hf2;
    [|exists e, w2; split; [done|congruence]].
  assert (heap w2 !! n = Some table) as H2 by (by rewrite Hh2).
  (* cleaning *)
  unfold bind at 1.
  pose proof (stage_files w2 n 10 0 0) as (_ & Hf3 & _).
  destruct (clean_data n w2) as [[data|e] w3] eqn:Hclean; cbn beta iota;
    cbn [snd] in Hf3; [|exists e, w3; split; [done|congruence]].
  destruct (clean_data_run w2 n table _ _ H2 Hclean) as (Hcrit & Hdata & Hw3).
  assert (heap w3 !! data = Some (mkDF (columns table) [])) as H3.
  { rewrite Hw3, Hdata. cbn [heap].
    rewrite kept_rows, Hkept by (apply Hcrit; names). apply lookup_new. }
  (* top scorers *)
  unfold bind at 1.
  pose proof (stage_files w3 data 10 0 0) as (_ & _ & Hf4 & _).
  pose proof (analyze_top_scorers_frame w3 data 10) as [_ Hh4].
  destruct (analyze_top_scorers data 10 w3) as [[top|e] w4] eqn:Htop;
    cbn beta iota; cbn [fst snd] in Hf4, Hh4;
    [|exists e, w4; split; [done|congruence]].
  destruct Hh4 as (_ & out & Hh4).
  assert (heap w4 !! data = Some (mkDF (columns table) [])) as H4.
  { rewrite Hh4. by apply lookup_app_l_Some. }
  (* teams *)
  unfold bind at 1.
  pose proof (stage_files w4 data 10 0 0) as (_ & _ & _ & Hf5 & _).
  destruct (analyze_team_performance data w4) as [[teams|e] w5] eqn:Hteams;
    cbn beta iota; cbn [snd] in Hf5.
  - destruct (analyze_team_performance_no_rows _ _ _ _ _ H4 eq_refl Hteams).
  - exists e, w5. split; [done|congruence].
Qed.

(** The files [main] writes, by how it ends. *)
Lemma main_files w res w' :
  main w = (res, w') →
  match res with
  | Ok _ =>
      match disk w !! "data/NBA_Player_Stats.csv" with
      | Some (Csv _) => artifacts w' = artifacts w ++ ["team_performance.png"]
      | _ => artifacts w' = artifacts w
      end
  | Err _ =>
      artifacts w' = artifacts w ∨
      artifacts w' = artifacts w ++ ["team_performance.png"]
  end.
Proof.
  unfold main. cbn zeta. unfold bind at 1.
  destruct (disk w !! "data/NBA_Player_Stats.csv") as [[table|]|] eqn:Hpath;
    [rewrite (load_data_loaded _ _ _ Hpath)
    |rewrite (load_data_unreadable _ _ Hpath)
    |rewrite (load_data_missing _ _ Hpath)];
    cbn beta iota; [|unfold ret; intros [= <- <-]; done..].
  set (n := length (heap w)).
  set (w1 := mkWorld _ _ _ _).
  assert (artifacts w1 = artifacts w) as Hf1 by done.
  unfold bind at 1.
  pose proof (stage_files w1 n 10 0 0) as (Hf2 & _).
  destruct (preview_data n w1) as [[[]|e] w2]; cbn beta iota; cbn [fst snd] in *;
    [|intros [= <- <-]; left; congruence].
  unfold bind at 1.
  pose proof (stage_files w2 n 10 0 0) as (_ & Hf3 & _).
  destruct (clean_data n w2) as [[data|e] w3]; cbn beta iota; cbn [fst snd] in *;
    [|intros [= <- <-]; left; congruence].
  unfold bind at 1.
  pose proof (stage_files w3 data 10 0 0) as (_ & _ & Hf4 & _).
  destruct (analyze_top_scorers data 10 w3) as [[top|e] w4]; cbn beta iota;
    cbn [fst snd] in *; [|intros [= <- <-]; left; congruence].
  unfold bind at 1.
  pose proof (stage_files w4 data 10 0 0) as (_ & _ & _ & Hf5 & _).
  destruct (analyze_team_performance data w4) as [[teams|e] w5]; cbn beta iota;
    cbn [fst snd] in *; [|intros [= <- <-]; left; congruence].
  unfold bind at 1.
  pose proof (stage_files w5 data 10 top teams) as (_ & _ & _ & _ & _ & Hf6).
  destruct (create_visualization teams w5) as [[[]|e] w6]; cbn beta iota;
    cbn [fst snd] in *; [|intros [= <- <-]; left; congruence].
  pose proof (stage_files w6 data 10 top teams) as (_ & _ & _ & _ & Hf7 & _).
  destruct (generate_summary_report data top teams w6) as [[[]|e] w7];
    cbn [fst snd] in *; intros [= <- <-]; [|right]; congruence.
Qed.

(** X21.  The files of the script.  However [main] ends, it has written
    no file or the one file [team_performance.png], and nothing else;
    when it returns after loading a table, it has saved the chart. *)
Theorem main_writes_only_the_chart w :
  (artifacts (main w).2 = artifacts w ∨
   artifacts (main w).2 = artifacts w ++ ["team_performance.png"]) ∧
  (∀ table,
     disk w !! "data/NBA_Player_Stats.csv" = Some (Csv table) →
     (main w).1 = Ok tt →
     artifacts (main w).2 = artifacts w ++ ["team_performance.png"]).
Proof.
  pose proof (main_files w _ _ (surjective_pairing (main w))) as Hfiles.
  split.
  - destruct (main w).1; [|done].
    destruct (disk w !! _) as [[table|]|]; auto.
  - intros table Hpath Hok. by rewrite Hok, Hpath in Hfiles.
Qed.

End main_theorems.

(** ** The further properties on the sample tables *)

(** A proposition that can be decided, by deciding it. *)
Ltac decided := apply (bool_decide_unpack _); vm_compute; exact I.

Section sample_runs_more.

#[local] Existing Instance stable_library.

(** The script on a file that does not parse. *)
Lemma unreadable_file_halts_witness :
  load_data "data/NBA_Player_Stats.csv" (on_disk Garbage) =
    (Ok None,
     printed (on_disk Garbage)
       [Header StLoad; LoadFailed "data/NBA_Player_Stats.csv" false]) ∧
  main (H := stable_library) (on_disk Garbage) =
    (Ok tt,
     printed (on_disk Garbage)
       [Header StLoad; LoadFailed "data/NBA_Player_Stats.csv" false]).
Proof.
  apply (unreadable_file_halts (H := stable_library) (on_disk Garbage)).
  reflexivity.
Defined.

(** The rows kept of the table with incomplete rows. *)
Lemma clean_data_keeps_exactly_witness :
  ∃ out,
    heap (clean_data (H := stable_library) 0 (holding [incomplete])).2 !! 1
      = Some out ∧
    Forall2 (λ r1 r0, label r1 = label r0 ∧
                      ∀ c, getcell c r1
                           = converted (H := stable_library) incomplete r0 c)
      (rows out) (filter (kept (H := stable_library)) (rows incomplete)).
Proof.
  apply (clean_data_keeps_exactly (H := stable_library)
           (holding [incomplete]) 0 incomplete 1); [reflexivity|].
  apply run_eq. vm_compute. reflexivity.
Defined.

Lemma clean_data_reports_counts_witness :
  ∃ out removed,
    heap (clean_data (H := stable_library) 0 (holding [incomplete])).2 !! 1
      = Some out ∧
    console (clean_data (H := stable_library) 0 (holding [incomplete])).2
      = console (holding [incomplete]) ++
        [Header StClean; Cleaned removed (length (rows out))] ∧
    (0 ≤ removed)%Z ∧
    (removed + Z.of_nat (length (rows out))
     = Z.of_nat (length (rows incomplete)))%Z.
Proof.
  apply (clean_data_reports_counts (H := stable_library)
           (holding [incomplete]) 0 incomplete 1); [reflexivity|].
  apply run_eq. vm_compute. reflexivity.
Defined.

(** Cleaning the table without games. *)
Lemma clean_data_missing_column_witness :
  clean_data (H := stable_library) 0 (holding [short_table]) =
    (Err (KeyError (missing_columns critical short_table)),
     printed (holding [short_table]) [Header StClean]).
Proof.
  apply (clean_data_missing_column (H := stable_library)
           (holding [short_table]) 0 short_table); [reflexivity|decided].
Defined.

(** Cleaning the two teams twice. *)
Lemma clean_data_again_same_witness :
  ∃ r2 w2,
    clean_data (H := stable_library) 1
      (clean_data (H := stable_library) 0 (holding [two_teams])).2
      = (Ok r2, w2) ∧
    heap w2 !! r2 = Some two_teams ∧
    console w2 =
      console (clean_data (H := stable_library) 0 (holding [two_teams])).2 ++
      [Header StClean; Cleaned 0 (length (rows two_teams))].
Proof.
  apply (clean_data_again_same (H := stable_library)
           (holding [two_teams]) 0 two_teams 1).
  - reflexivity.
  - apply run_eq. vm_compute. reflexivity.
  - decided.
  - decided.
Defined.

(** The two top scorers of the sample and the two rows left out. *)
Lemma analyze_top_scorers_are_top_witness :
  ∃ out rest,
    heap (analyze_top_scorers (H := stable_library) 0 2
            (holding [two_teams])).2 !! 1 = Some out ∧
    restrict scorer_columns <$> (rows out ++ rest)
      ≡ₚ restrict scorer_columns <$> rows two_teams ∧
    ∀ y x, y ∈ rows out → x ∈ rest →
      isna (getcell "PTS" x) = true ∨
      cell_le (getcell "PTS" x) (getcell "PTS" y).
Proof.
  apply (analyze_top_scorers_are_top (H := stable_library)
           (holding [two_teams]) 0 two_teams 2 1); [reflexivity|].
  apply run_eq. vm_compute. reflexivity.
Defined.

Lemma analyze_top_scorers_insights_witness :
  ∃ out,
    heap (analyze_top_scorers (H := stable_library) 0 2
            (holding [two_teams])).2 !! 1 = Some out ∧
    console (analyze_top_scorers (H := stable_library) 0 2
               (holding [two_teams])).2 =
      console (holding [two_teams]) ++
      [Header StTopScorers; Table StTopScorers out;
       TopInsights (default NaN (row_points <$> rows out !! 0))
                   (average (row_points <$> rows out))
                   (default NaN (row_points <$> last (rows out)))].
Proof.
  apply (analyze_top_scorers_insights (H := stable_library)
           (holding [two_teams]) 0 two_teams 2 1).
  - reflexivity.
  - decided.
  - apply run_eq. vm_compute. reflexivity.
Defined.

(** The highest of the two is 30 points, their average 25 and the
    lowest 20. *)
Example two_teams_insights :
  bool_decide
    ((λ e, match e with
           | TopInsights highest mean lowest => [highest; mean; lowest]
           | _ => []
           end)
       <$> last (console (analyze_top_scorers (H := stable_library) 0 2
                            (holding [two_teams])).2)
     = Some (cell_num <$> [points 30; points 25; points 20])) = true.
Proof. vm_compute. reflexivity. Qed.

(** All top scorers of the sample but the last one. *)
Lemma analyze_top_scorers_negative_witness :
  ∃ r w' out r0 w0 whole,
    analyze_top_scorers (H := stable_library) 0 (-1) (holding [two_teams])
      = (Ok r, w') ∧
    heap w' !! r = Some out ∧
    analyze_top_scorers (H := stable_library) 0
      (Z.of_nat (length (rows two_teams))) (holding [two_teams])
      = (Ok r0, w0) ∧
    heap w0 !! r0 = Some whole ∧
    length (rows whole) = length (rows two_teams) ∧
    columns out = columns whole ∧
    rows out = take (length (rows two_teams) - Z.to_nat (- -1)) (rows whole).
Proof.
  apply (analyze_top_scorers_negative (H := stable_library)
           (holding [two_teams]) 0 two_teams (-1)).
  - reflexivity.
  - lia.
  - intros c Hc. exact Hc.
  - decided.
Defined.

(** Asked for all but one, the function ranks the seasons of 30, 20 and
    10 points and leaves out the season of 5; asked for all but five, it
    ranks none. *)
Example two_teams_all_but :
  bool_decide
    ((λ d, (column "Player" d, column "Rank" d))
       <$> heap (analyze_top_scorers (H := stable_library) 0 (-1)
                   (holding [two_teams])).2 !! 1
     = Some ([Text "Cy"; Text "Bob"; Text "Ann"],
             [points 1; points 2; points 3])) = true ∧
  bool_decide
    (rows <$> heap (analyze_top_scorers (H := stable_library) 0 (-5)
                      (holding [two_teams])).2 !! 1
     = Some []) = true.
Proof. split; vm_compute; reflexivity. Qed.

(** The top scorers of the table without games. *)
Lemma analyze_top_scorers_missing_column_witness :
  analyze_top_scorers (H := stable_library) 0 10 (holding [short_table]) =
    (Err (KeyError (missing_columns scorer_columns short_table)),
     printed (holding [short_table]) [Header StTopScorers]).
Proof.
  apply (analyze_top_scorers_missing_column (H := stable_library)
           (holding [short_table]) 0 short_table 10); [reflexivity|decided].
Defined.

(** The top scorers of the table whose points are text in two rows. *)
Lemma analyze_top_scorers_text_points_witness :
  ∃ e w',
    analyze_top_scorers (H := stable_library) 0 10 (holding [incomplete])
      = (Err e, w') ∧
    heap w' = heap (holding [incomplete]).
Proof.
  apply (analyze_top_scorers_text_points (H := stable_library)
           (holding [incomplete]) 0 incomplete 10);
    [reflexivity|lia|decided].
Defined.

(** The caller's table after the team analysis of the sample. *)
Lemma analyze_team_performance_side_effect_witness :
  (divisible two_teams →
   heap (analyze_team_performance (H := stable_library) 0
           (holding [two_teams])).2 !! 0 = Some (with_ppg two_teams) ∧
   ("Tm" ∉ columns two_teams →
    (analyze_team_performance (H := stable_library) 0
       (holding [two_teams])).1 = Err (KeyError ["Tm"]))) ∧
  (¬ divisible two_teams →
   heap (analyze_team_performance (H := stable_library) 0
           (holding [two_teams])).2 = heap (holding [two_teams]) ∧
   ∃ e, (analyze_team_performance (H := stable_library) 0
           (holding [two_teams])).1 = Err e).
Proof.
  apply (analyze_team_performance_side_effect (H := stable_library)
           (holding [two_teams]) 0 two_teams).
  reflexivity.
Defined.

(** A table with points and games and no team: the analysis raises and
    the table has its [PPG] column all the same. *)
Example team_analysis_changes_then_fails :
  let t := mkDF ["PTS"; "G"]
             [mkRow 0 (list_to_map [("PTS", points 10); ("G", points 2)])] in
  (analyze_team_performance (H := stable_library) 0 (holding [t])).1
    = Err (KeyError ["Tm"]) ∧
  columns <$> heap (analyze_team_performance (H := stable_library) 0
                      (holding [t])).2 !! 0
    = Some ["PTS"; "G"; "PPG"].
Proof. split; vm_compute; reflexivity. Qed.

Lemma team_table_counts_rows_witness :
  ∃ out counts,
    heap (analyze_team_performance (H := stable_library) 0
            (holding [two_teams])).2 !! 1 = Some out ∧
    column "Total_Players" out = (λ n, Num (Fin (Qc_of_nat n))) <$> counts ∧
    sum_list counts = length (rows two_teams) ∧
    length (rows out) = nunique (column "Tm" two_teams).
Proof.
  apply (team_table_counts_rows (H := stable_library)
           (holding [two_teams]) 0 two_teams 1);
    [reflexivity | sample_cleaned |].
  apply run_eq. vm_compute. reflexivity.
Defined.

Lemma analyze_team_performance_insights_witness :
  ∃ out best worst,
    heap (analyze_team_performance (H := stable_library) 0
            (holding [two_teams])).2 !! 1 = Some out ∧
    rows out !! 0 = Some best ∧ last (rows out) = Some worst ∧
    console (analyze_team_performance (H := stable_library) 0
               (holding [two_teams])).2 =
      console (holding [two_teams]) ++
      [Header StTeams; Table StTeams out;
       TeamInsights
         (getcell "Team" best, getcell "Avg_PPG_Per_Player" best)
         (getcell "Team" worst, getcell "Avg_PPG_Per_Player" worst)
         (average (observed (column "Avg_PPG_Per_Player" out)))
         (length (rows out))] ∧
    ∀ y, y ∈ rows out →
      num_lt (avg_ppg best) (avg_ppg y) = false ∧
      num_lt (avg_ppg y) (avg_ppg worst) = false.
Proof.
  apply (analyze_team_performance_insights (H := stable_library)
           (holding [two_teams]) 0 two_teams 1); [reflexivity|].
  apply run_eq. vm_compute. reflexivity.
Defined.

Lemma analyze_team_performance_again_witness :
  ∃ r2 w2,
    analyze_team_performance (H := stable_library) 0
      (analyze_team_performance (H := stable_library) 0
         (holding [two_teams])).2 = (Ok r2, w2) ∧
    r2 ≠ 1 ∧
    heap w2 !! r2 =
      heap (analyze_team_performance (H := stable_library) 0
              (holding [two_teams])).2 !! 1 ∧
    heap w2 !! 0 =
      heap (analyze_team_performance (H := stable_library) 0
              (holding [two_teams])).2 !! 0.
Proof.
  apply (analyze_team_performance_again (H := stable_library)
           (holding [two_teams]) 0 two_teams 1); [reflexivity|].
  apply run_eq. vm_compute. reflexivity.
Defined.

Lemma chart_of_team_table_witness :
  ∃ out,
    heap (analyze_team_performance (H := stable_library) 0
            (holding [two_teams])).2 !! 1 = Some out ∧
    create_visualization 1
      (analyze_team_performance (H := stable_library) 0
         (holding [two_teams])).2 =
      (Ok tt,
       mkWorld
         (heap (analyze_team_performance (H := stable_library) 0
                  (holding [two_teams])).2)
         (console (analyze_team_performance (H := stable_library) 0
                     (holding [two_teams])).2 ++
            [Header StChart;
             ChartSaved "team_performance.png"
               ((λ x, (getcell "Team" x, getcell "Avg_PPG_Per_Player" x))
                  <$> take 20 (rows out));
             ChartShown])
         (artifacts (analyze_team_performance (H := stable_library) 0
                       (holding [two_teams])).2 ++ ["team_performance.png"])
         (disk (analyze_team_performance (H := stable_library) 0
                  (holding [two_teams])).2)) ∧
    length (take 20 (rows out)) = 20 `min` length (rows out).
Proof.
  apply (chart_of_team_table (H := stable_library)
           (holding [two_teams]) 0 two_teams 1); [reflexivity|].
  apply run_eq. vm_compute. reflexivity.
Defined.

(** The report on a table without years, and on an empty ranking. *)
Lemma generate_summary_report_errors_witness :
  (∀ c rest,
     missing_columns ["Player"; "Tm"; "Year"] short_table = c :: rest →
     (generate_summary_report 0 1 1 (holding [short_table; no_rows])).1
       = Err (KeyError [c])) ∧
  (∀ top,
     missing_columns ["Player"; "Tm"; "Year"] short_table = [] →
     uniform_years short_table →
     heap (holding [short_table; no_rows]) !! 1 = Some top → rows top = [] →
     (generate_summary_report 0 1 1 (holding [short_table; no_rows])).1
       = Err IndexError).
Proof.
  apply (generate_summary_report_errors
           (holding [short_table; no_rows]) 0 1 1 short_table).
  reflexivity.
Defined.

(** The report on the sample and a ranking without rows. *)
Example report_on_empty_ranking :
  (generate_summary_report 0 1 1 (holding [two_teams; no_rows])).1
    = Err IndexError ∧
  (generate_summary_report 0 1 1 (holding [short_table; no_rows])).1
    = Err (KeyError ["Year"]).
Proof. split; vm_compute; reflexivity. Qed.

(** The script on the file of the two teams. *)
Lemma main_succeeds_witness :
  ∃ w' data top teams out,
    main (H := stable_library) (on_disk (Csv two_teams)) = (Ok tt, w') ∧
    heap w' = heap (on_disk (Csv two_teams)) ++ [two_teams; data; top; teams] ∧
    artifacts w' = artifacts (on_disk (Csv two_teams))
                   ++ ["team_performance.png"] ∧
    console w' = console (on_disk (Csv two_teams)) ++ out ∧
    headers out = [StLoad; StPreview; StClean; StTopScorers; StTeams;
                   StChart; StReport] ∧
    length (rows data)
      = length (filter (kept (H := stable_library)) (rows two_teams)) ∧
    "PPG" ∈ columns data ∧
    ∃ years scorer team,
      rows top !! 0 = Some scorer ∧ rows teams !! 0 = Some team ∧
      last out =
        Some (Summary (length (rows data)) (nunique (column "Player" data))
                (nunique (column "Tm" data)) years scorer team).
Proof.
  apply (main_succeeds (H := stable_library) (on_disk (Csv two_teams))
           two_teams).
  - reflexivity.
  - intros c Hc. exact Hc.
  - left. decided.
  - decided.
Defined.

(** The script on a file with a header and no rows. *)
Lemma main_without_rows_fails_witness :
  ∃ e w',
    main (H := stable_library) (on_disk (Csv no_rows)) = (Err e, w') ∧
    artifacts w' = artifacts (on_disk (Csv no_rows)).
Proof.
  apply (main_without_rows_fails (H := stable_library)
           (on_disk (Csv no_rows)) no_rows); reflexivity.
Defined.

(** On that file [main] stops with the [IndexError] of the team
    analysis, after the stages of loading, preview, cleaning, top scorers
    and teams. *)
Example main_on_empty_file :
  (main (H := stable_library) (on_disk (Csv no_rows))).1 = Err IndexError ∧
  headers (console (main (H := stable_library) (on_disk (Csv no_rows))).2)
    = [StLoad; StPreview; StClean; StTopScorers; StTeams].
Proof. split; vm_compute; reflexivity. Qed.

(** What cleaning guarantees of the table whose games are not a number. *)
Lemma clean_data_invariants_witness :
  ∃ out,
    heap (clean_data (H := stable_library) 0 (holding [unparsed_games])).2 !! 1
      = Some out ∧
    Forall (λ x,
        isna (getcell "Player" x) = false ∧
        isna (getcell "Tm" x) = false ∧
        isna (getcell "PTS" x) = false ∧
        (∀ c, c ∈ numeric_columns → c ∈ columns unparsed_games →
              is_text (getcell c x) = false) ∧
        (isna (getcell "G" x) = true →
         ∃ x0 s, x0 ∈ rows unparsed_games ∧ label x0 = label x ∧
                 getcell "G" x0 = Text s ∧
                 parse_float (Library := stable_library) s = NaN))
      (rows out).
Proof.
  apply (clean_data_invariants (H := stable_library)
           (holding [unparsed_games]) 0 unparsed_games 1); [reflexivity|].
  apply run_eq. vm_compute. reflexivity.
Defined.

(** The top scorer of the sample. *)
Lemma top_scorer_is_maximum_witness :
  ∃ out,
    heap (analyze_top_scorers (H := stable_library) 0 2
            (holding [two_teams])).2 !! 1 = Some out ∧
    (rows two_teams ≠ [] → ∃ scorer, rows out !! 0 = Some scorer) ∧
    ∀ scorer x, rows out !! 0 = Some scorer → x ∈ rows two_teams →
      isna (getcell "PTS" x) = true ∨
      cell_le (getcell "PTS" x) (getcell "PTS" scorer).
Proof.
  apply (top_scorer_is_maximum (H := stable_library)
           (holding [two_teams]) 0 two_teams 2 1); [reflexivity|lia|].
  apply run_eq. vm_compute. reflexivity.
Defined.

(** The analyses of the cleaned sample. *)
Lemma analyses_after_cleaning_witness :
  ∃ out,
    heap (clean_data (H := stable_library) 0 (holding [two_teams])).2 !! 1
      = Some out ∧
    (∀ top_n,
       (∃ r' w2,
          analyze_top_scorers (H := stable_library) 1 top_n
            (clean_data (H := stable_library) 0 (holding [two_teams])).2
          = (Ok r', w2)) ↔
       "Year" ∈ columns two_teams ∧ "MP" ∈ columns two_teams) ∧
    ((∃ r' w2,
        analyze_team_performance (H := stable_library) 1
          (clean_data (H := stable_library) 0 (holding [two_teams])).2
        = (Ok r', w2)) ↔
     rows out ≠ []).
Proof.
  apply (analyses_after_cleaning (H := stable_library)
           (holding [two_teams]) 0 two_teams 1); [reflexivity|].
  apply run_eq. vm_compute. reflexivity.
Defined.

End sample_runs_more.
